(** * Batch-for-Kafka: the ingestion server (cmd/server/main.go)

    A shallow embedding of the job handlers and of the background streaming
    task of the ingestion server, and the properties of its specification
    that concern them.

    Layout of the development:
    - [GoLib]      the pieces of the Go standard library the server calls
                   (fixed-width integers, strings, path extension, files);
    - [Data]       the structs of main.go ([JobStatus], [RejectedRow], ...);
    - [Machine]    the shared state of the process (registries, the records
                   the registries point to, the broker, the clock), the
                   atomic actions of a goroutine and programs over them;
    - [Server]     [processJob], [createJob], [cancelJob], translated
                   statement by statement;
    - [Sched]      interleavings of goroutine steps, clock ticks and cancel
                   requests;
    - the theorems, one group per property. *)

From Stdlib Require Import ZArith String Ascii Lia List.
From stdpp Require Import base tactics option list gmap strings pretty.

Local Open Scope Z_scope.

(* ===================================================================== *)
(** ** Go library *)
(* ===================================================================== *)

Module GoLib.

(** Go's [error] results: a value or an error message ([err.Error()]). *)
Inductive Result (A : Type) : Type :=
| Ok (a : A)
| Err (e : string).
Arguments Ok {A} a.
Arguments Err {A} e.

(** [int] on the 64-bit targets the images are built for: two's complement,
    arithmetic wraps. *)
Definition int_min : Z := - 2 ^ 63.
Definition int_max : Z := 2 ^ 63 - 1.

Definition wrap64 (z : Z) : Z := (z + 2 ^ 63) mod 2 ^ 64 - 2 ^ 63.

Definition int_add (a b : Z) : Z := wrap64 (a + b).

(** [x++] on an [int]. *)
Definition int_incr (x : Z) : Z := int_add x 1.

(** [time.Time] values are instants in nanoseconds counted from the zero
    [time.Time]; [time.Duration] is an int64 of nanoseconds and [Time.Sub]
    saturates. *)
Definition time_Sub (t u : Z) : Z :=
  let d := t - u in
  if d <? int_min then int_min else if int_max <? d then int_max else d.

(** [Duration.Milliseconds]: integer division truncating towards zero. *)
Definition Milliseconds (d : Z) : Z := Z.quot d 1000000.

(** [strings.Join]. *)
Fixpoint strings_Join (elems : list string) (sep : string) : string :=
  match elems with
  | [] => ""
  | [e] => e
  | e :: rest => e +:+ sep +:+ strings_Join rest sep
  end.

(** [strings.HasPrefix] and [strings.Contains]. *)
Fixpoint strings_HasPrefix (s prefix : string) : bool :=
  match prefix, s with
  | EmptyString, _ => true
  | String _ _, EmptyString => false
  | String p prefix', String c s' =>
      if Ascii.eqb p c then strings_HasPrefix s' prefix' else false
  end.

Fixpoint strings_Contains (s substr : string) : bool :=
  strings_HasPrefix s substr ||
  match s with
  | EmptyString => false
  | String _ s' => strings_Contains s' substr
  end.

(** [filepath.Ext]: the suffix of the path starting at the last dot of its
    last element; the loop walks from the end of the path and stops at the
    first separator. [ext_scan] is that loop, over the reversed path, with
    the bytes already passed over in [acc]. *)
Fixpoint ext_scan (rev_path : list ascii) (acc : list ascii) : list ascii :=
  match rev_path with
  | [] => []
  | c :: rest =>
      if Ascii.eqb c "/" then []
      else if Ascii.eqb c "." then c :: acc
      else ext_scan rest (c :: acc)
  end.

Definition filepath_Ext (path : string) : string :=
  string_of_list_ascii (ext_scan (rev (list_ascii_of_string path)) []).

(** The byte suffix of a string from offset [n] on. *)
Fixpoint string_drop (n : nat) (s : string) : string :=
  match n, s with
  | O, _ => s
  | S n', String _ s' => string_drop n' s'
  | S _, EmptyString => EmptyString
  end.

(** [multipart.File]: the uploaded bytes, the read position, and whether the
    underlying storage refuses to seek (with the error it reports). *)
Record File : Type := {
  content : string;
  offset : nat;
  seek_err : option string;
}.

Definition remaining (f : File) : string := string_drop (offset f) (content f).

(** [io.ReadFull(f, buf)] for a buffer of [n] bytes: the bytes read and the
    file after the read. Fewer than [n] bytes left is [io.EOF] when nothing
    could be read and [io.ErrUnexpectedEOF] otherwise. *)
Definition io_ReadFull (f : File) (n : nat) : Result string * File :=
  let got := substring 0 n (remaining f) in
  let f' := {| content := content f;
               offset := (offset f + String.length got)%nat;
               seek_err := seek_err f |} in
  if (String.length got =? n)%nat then (Ok got, f')
  else if (String.length got =? 0)%nat then (Err "EOF", f')
  else (Err "unexpected EOF", f').

(** [f.Seek(0, io.SeekStart)]. *)
Definition Seek_start (f : File) : Result File :=
  match seek_err f with
  | Some e => Err e
  | None => Ok {| content := content f; offset := 0%nat; seek_err := None |}
  end.

(** One call of [csv.Reader.Read] that did not hit the end of the input: a
    record, or an error together with whatever record the reader returns
    with it (nil for a parse error, the fields for a wrong field count). *)
Inductive ReadResult : Type :=
| ReadOk (rec : list string)
| ReadErr (rec : option (list string)) (err : string).

End GoLib.
Export GoLib.

(* ===================================================================== *)
(** ** The structs of main.go *)
(* ===================================================================== *)

Module Data.

Definition maxUploadBytes : Z := Z.shiftl 1 30.

Record Model : Type := {
  ID : string;
  Name : string;
  Schema : string;
}.

Record RejectedRow : Type := {
  rr_JobID : string;
  RowNumber : Z;
  RawData : string;
  Error : string;
  Timestamp : Z;
}.

Inductive JobState : Type :=
| StatePending
| StateRunning
| StateSuccess
| StatePartialSuccess
| StateFailed
| StateCancelled.

#[global] Instance JobState_eq_dec : EqDecision JobState.
Proof. solve_decision. Defined.

(** The string each constant stands for. *)
Definition JobState_string (s : JobState) : string :=
  match s with
  | StatePending => "PENDING"
  | StateRunning => "RUNNING"
  | StateSuccess => "SUCCESS"
  | StatePartialSuccess => "PARTIAL_SUCCESS"
  | StateFailed => "FAILED"
  | StateCancelled => "CANCELLED"
  end.

Record TotalsT : Type := {
  Rows : Z;
  OK : Z;
  Errors : Z;
}.

Record TimingsT : Type := {
  WaitingMS : Z;
  ProcessingMS : Z;
}.

Record JobStatus : Type := {
  JobID : string;
  ModelID : string;
  State : JobState;
  Totals : TotalsT;
  Timings : TimingsT;
  UpdatedAt : Z;
  StartedAt : Z;
  Cancelled : bool;
}.

(** The fields of a [JobStatus] that the code reads or assigns through a
    [*JobStatus], each with the type of its values. *)
Inductive Field : Type -> Type :=
| FJobID : Field string
| FModelID : Field string
| FState : Field JobState
| FRows : Field Z
| FOK : Field Z
| FErrors : Field Z
| FWaitingMS : Field Z
| FProcessingMS : Field Z
| FUpdatedAt : Field Z
| FStartedAt : Field Z
| FCancelled : Field bool.

Definition get {T} (f : Field T) (j : JobStatus) : T :=
  match f in Field T return T with
  | FJobID => JobID j
  | FModelID => ModelID j
  | FState => State j
  | FRows => Rows (Totals j)
  | FOK => OK (Totals j)
  | FErrors => Errors (Totals j)
  | FWaitingMS => WaitingMS (Timings j)
  | FProcessingMS => ProcessingMS (Timings j)
  | FUpdatedAt => UpdatedAt j
  | FStartedAt => StartedAt j
  | FCancelled => Cancelled j
  end.

Definition with_Totals (t : TotalsT) (j : JobStatus) : JobStatus :=
  {| JobID := JobID j; ModelID := ModelID j; State := State j; Totals := t;
     Timings := Timings j; UpdatedAt := UpdatedAt j; StartedAt := StartedAt j;
     Cancelled := Cancelled j |}.

Definition with_Timings (t : TimingsT) (j : JobStatus) : JobStatus :=
  {| JobID := JobID j; ModelID := ModelID j; State := State j;
     Totals := Totals j; Timings := t; UpdatedAt := UpdatedAt j;
     StartedAt := StartedAt j; Cancelled := Cancelled j |}.

Definition set {T} (f : Field T) : T -> JobStatus -> JobStatus :=
  match f in Field T return T -> JobStatus -> JobStatus with
  | FJobID => fun v j =>
      {| JobID := v; ModelID := ModelID j; State := State j;
         Totals := Totals j; Timings := Timings j; UpdatedAt := UpdatedAt j;
         StartedAt := StartedAt j; Cancelled := Cancelled j |}
  | FModelID => fun v j =>
      {| JobID := JobID j; ModelID := v; State := State j;
         Totals := Totals j; Timings := Timings j; UpdatedAt := UpdatedAt j;
         StartedAt := StartedAt j; Cancelled := Cancelled j |}
  | FState => fun v j =>
      {| JobID := JobID j; ModelID := ModelID j; State := v;
         Totals := Totals j; Timings := Timings j; UpdatedAt := UpdatedAt j;
         StartedAt := StartedAt j; Cancelled := Cancelled j |}
  | FRows => fun v j =>
      with_Totals {| Rows := v; OK := OK (Totals j);
                     Errors := Errors (Totals j) |} j
  | FOK => fun v j =>
      with_Totals {| Rows := Rows (Totals j); OK := v;
                     Errors := Errors (Totals j) |} j
  | FErrors => fun v j =>
      with_Totals {| Rows := Rows (Totals j); OK := OK (Totals j);
                     Errors := v |} j
  | FWaitingMS => fun v j =>
      with_Timings {| WaitingMS := v;
                      ProcessingMS := ProcessingMS (Timings j) |} j
  | FProcessingMS => fun v j =>
      with_Timings {| WaitingMS := WaitingMS (Timings j);
                      ProcessingMS := v |} j
  | FUpdatedAt => fun v j =>
      {| JobID := JobID j; ModelID := ModelID j; State := State j;
         Totals := Totals j; Timings := Timings j; UpdatedAt := v;
         StartedAt := StartedAt j; Cancelled := Cancelled j |}
  | FStartedAt => fun v j =>
      {| JobID := JobID j; ModelID := ModelID j; State := State j;
         Totals := Totals j; Timings := Timings j; UpdatedAt := UpdatedAt j;
         StartedAt := v; Cancelled := Cancelled j |}
  | FCancelled => fun v j =>
      {| JobID := JobID j; ModelID := ModelID j; State := State j;
         Totals := Totals j; Timings := Timings j; UpdatedAt := UpdatedAt j;
         StartedAt := StartedAt j; Cancelled := v |}
  end.

(** A position among the fields, to tell two fields of different types
    apart. *)
Definition field_tag {T} (f : Field T) : nat :=
  match f with
  | FJobID => 0 | FModelID => 1 | FState => 2 | FRows => 3 | FOK => 4
  | FErrors => 5 | FWaitingMS => 6 | FProcessingMS => 7 | FUpdatedAt => 8
  | FStartedAt => 9 | FCancelled => 10
  end%nat.

(** What the JSON encoding of a [JobStatus] shows: every field but
    [Cancelled], which is tagged [json:"-"]. *)
Record JobJSON : Type := {
  job_id : string;
  model_id : string;
  state : string;
  totals : TotalsT;
  timings : TimingsT;
  updated_at : Z;
  started_at : Z;
}.

Definition to_JSON (j : JobStatus) : JobJSON :=
  {| job_id := JobID j; model_id := ModelID j;
     state := JobState_string (State j); totals := Totals j;
     timings := Timings j; updated_at := UpdatedAt j;
     started_at := StartedAt j |}.

(** A message of the broker client ([kafka.Message]). *)
Record Message : Type := {
  Key : string;
  Value : string;
}.

(** The body of an HTTP response. *)
Inductive Body : Type :=
| ErrorBody (error message : string)
| JobIDBody (job_id : string)
| JobBody (j : JobJSON).

Record Response : Type := {
  status : Z;
  body : Body;
}.

Definition StatusAccepted : Z := 202.
Definition StatusBadRequest : Z := 400.
Definition StatusNotFound : Z := 404.
Definition StatusInternalServerError : Z := 500.

Definition badRequest (code msg : string) : Response :=
  {| status := StatusBadRequest; body := ErrorBody code msg |}.

Definition notFound (code msg : string) : Response :=
  {| status := StatusNotFound; body := ErrorBody code msg |}.

Definition internalError (err : string) : Response :=
  {| status := StatusInternalServerError;
     body := ErrorBody "INTERNAL_ERROR" err |}.

End Data.
Export Data.

(* ===================================================================== *)
(** ** The process: shared state, atomic actions, programs *)
(* ===================================================================== *)

Module Machine.

(** A [*JobStatus]: the position of the record among the records allocated
    so far. *)
Definition loc : Type := nat.

(** The broker as the client sees it. [dial_err] is the outcome of
    [kafka.Dial], [create_err] of [CreateTopics]; [write_fault k t] is the
    outcome of the [k]-th [WriteMessages] call of the process when it
    addresses topic [t] ([None]: acknowledged). An acknowledged message is
    appended to the log of its topic; a failed write leaves the logs as they
    are. *)
Record Broker : Type := {
  dial_err : option string;
  create_err : option string;
  write_fault : nat -> string -> option string;
  nwrites : nat;
  topics : gmap string (list Message);
}.

Definition topic_log (b : Broker) (t : string) : list Message :=
  default [] (topics b !! t).

Definition ensure_topic (t : string) (m : gmap string (list Message)) :
    gmap string (list Message) :=
  match m !! t with
  | Some _ => m
  | None => <[t := []]> m
  end.

Definition broker_create (ts : list string) (b : Broker) :
    option string * Broker :=
  match create_err b with
  | Some e => (Some e, b)
  | None =>
      (None,
       {| dial_err := dial_err b; create_err := create_err b;
          write_fault := write_fault b; nwrites := nwrites b;
          topics := foldr ensure_topic (topics b) ts |})
  end.

Definition broker_write (t : string) (m : Message) (b : Broker) :
    option string * Broker :=
  let r := write_fault b (nwrites b) t in
  (r,
   {| dial_err := dial_err b; create_err := create_err b;
      write_fault := write_fault b; nwrites := S (nwrites b);
      topics := match r with
                | Some _ => topics b
                | None => <[t := topic_log b t ++ [m]]> (topics b)
                end |}).

(** The atomic actions of a goroutine on the shared state, indexed by the
    type of what they return: field reads and writes through a
    [*JobStatus], the read of a whole record (what encoding [*js] as JSON
    does), [time.Now()], and the calls of the broker client. *)
Inductive Act : Type -> Type :=
| FieldLoad {T} (f : Field T) (js : loc) : Act T
| FieldStore {T} (f : Field T) (js : loc) (v : T) : Act unit
| RecordLoad (js : loc) : Act JobStatus
| time_Now : Act Z
| kafka_Dial : Act (option string)
| kafka_CreateTopics (ts : list string) : Act (option string)
| kafka_WriteMessages (topic : string) (m : Message) : Act (option string).

(** A program: a tree of actions, each continued with its result. *)
Inductive Prog (R : Type) : Type :=
| Ret (r : R)
| Vis {X : Type} (a : Act X) (k : X -> Prog R).
Arguments Ret {R} r.
Arguments Vis {R X} a k.

Fixpoint bind {R S} (p : Prog R) (f : R -> Prog S) : Prog S :=
  match p with
  | Ret r => f r
  | Vis a k => Vis a (fun x => bind (k x) f)
  end.

Definition act {X} (a : Act X) : Prog X := Vis a Ret.

Declare Scope prog_scope.
Delimit Scope prog_scope with prog.
Bind Scope prog_scope with Prog.
Notation "x <- p ;; q" := (bind p%prog (fun x => q%prog))
  (at level 100, p at next level, right associativity) : prog_scope.
Notation "p ;; q" := (bind p%prog (fun _ => q%prog))
  (at level 100, right associativity) : prog_scope.

(** [js.f = v], [js.f] and [js.f++]. The increment is a read followed by a
    write. *)
Definition store {T} (f : Field T) (js : loc) (v : T) : Prog unit :=
  act (FieldStore f js v).
Definition load {T} (f : Field T) (js : loc) : Prog T := act (FieldLoad f js).
Definition incr (f : Field Z) (js : loc) : Prog unit :=
  (v <- load f js ;; store f js (int_incr v))%prog.

(** A goroutine started by [go processJob(js, file, fileType)]: the arguments
    of the call and what is left of its body. *)
Record Goroutine : Type := {
  g_js : loc;
  g_file : File;
  g_kind : string;
  g_code : Prog unit;
}.

(** The state of the process: the two registries ([models], [jobs]), the
    records the [jobs] registry and the goroutines point to, the goroutines,
    the source behind [math/rand] with the number of draws made, the clock
    and the broker. *)
Record Sys : Type := {
  models : gmap string Model;
  jobs : gmap string loc;
  heap : list JobStatus;
  goroutines : list Goroutine;
  rand_src : nat -> Z;
  rand_pos : nat;
  clock : Z;
  broker : Broker;
}.

Definition with_heap (h : list JobStatus) (s : Sys) : Sys :=
  {| models := models s; jobs := jobs s; heap := h;
     goroutines := goroutines s; rand_src := rand_src s;
     rand_pos := rand_pos s; clock := clock s; broker := broker s |}.

Definition with_broker (b : Broker) (s : Sys) : Sys :=
  {| models := models s; jobs := jobs s; heap := heap s;
     goroutines := goroutines s; rand_src := rand_src s;
     rand_pos := rand_pos s; clock := clock s; broker := b |}.

Definition with_goroutines (g : list Goroutine) (s : Sys) : Sys :=
  {| models := models s; jobs := jobs s; heap := heap s;
     goroutines := g; rand_src := rand_src s;
     rand_pos := rand_pos s; clock := clock s; broker := broker s |}.

Definition with_clock (t : Z) (s : Sys) : Sys :=
  {| models := models s; jobs := jobs s; heap := heap s;
     goroutines := goroutines s; rand_src := rand_src s;
     rand_pos := rand_pos s; clock := t; broker := broker s |}.

(** The zero [JobStatus]. *)
Definition zero_JobStatus : JobStatus :=
  {| JobID := ""; ModelID := ""; State := StatePending;
     Totals := {| Rows := 0; OK := 0; Errors := 0 |};
     Timings := {| WaitingMS := 0; ProcessingMS := 0 |};
     UpdatedAt := 0; StartedAt := 0; Cancelled := false |}.

(** Every pointer the program holds comes from [&JobStatus{...}] and is
    valid; for a position that holds no record a read sees the zero record
    and a write is lost. *)
Definition deref (h : list JobStatus) (js : loc) : JobStatus :=
  default zero_JobStatus (h !! js).

(** What one action does to the state, and what it returns. *)
Definition act_sem {X} (a : Act X) (s : Sys) : X * Sys :=
  match a in Act X return X * Sys with
  | FieldLoad f js => (get f (deref (heap s) js), s)
  | FieldStore f js v => (tt, with_heap (alter (set f v) js (heap s)) s)
  | RecordLoad js => (deref (heap s) js, s)
  | time_Now => (clock s, s)
  | kafka_Dial => (dial_err (broker s), s)
  | kafka_CreateTopics ts =>
      let '(r, b) := broker_create ts (broker s) in (r, with_broker b s)
  | kafka_WriteMessages t m =>
      let '(r, b) := broker_write t m (broker s) in (r, with_broker b s)
  end.

(** A program run to its end with nothing in between its actions: no other
    goroutine or handler interferes and the clock stands still (time passes
    between the actions of a schedule, see [Sched]). *)
Fixpoint exec {R} (p : Prog R) (s : Sys) : R * Sys :=
  match p with
  | Ret r => (r, s)
  | Vis a k => let '(x, s') := act_sem a s in exec (k x) s'
  end.

(** [on js j b s]: the state [s] with the record at [js] replaced by [j] and
    the broker by [b]. A program that holds the one pointer [js] takes
    states of this form to states of this form. *)
Definition on (js : loc) (j : JobStatus) (b : Broker) (s : Sys) : Sys :=
  with_broker b (with_heap (<[js := j]> (heap s)) s).

End Machine.
Export Machine.

(* ===================================================================== *)
(** ** The server *)
(* ===================================================================== *)

Module Server.

(** The encoders and the CSV reader of the Go library, which the server
    calls and this development does not look into: [csv_records b] is the
    sequence of results that successive [Read] calls of a [csv.Reader] over
    the bytes [b] return before [io.EOF]; the two [json.Marshal] calls
    return the encoding or an error. *)
Class Codecs : Type := {
  csv_records : string -> list ReadResult;
  json_Marshal_record : list string -> Result string;
  json_Marshal_RejectedRow : RejectedRow -> Result string;
}.

(** The part of an upload request that [createJob] looks at: the outcome of
    [ParseMultipartForm], the form value [model_id] (empty when absent) and
    the outcome of [FormFile("file")]. *)
Record FileHeader : Type := {
  Filename : string;
  Size : Z;
}.

Record UploadRequest : Type := {
  multipart_err : option string;
  form_model_id : string;
  form_file : Result (File * FileHeader);
}.

(** [rand.Intn(n)]: the next draw of the source, reduced to [0, n). *)
Definition rand_Intn (n : Z) (s : Sys) : Z * Sys :=
  (rand_src s (rand_pos s) mod n,
   {| models := models s; jobs := jobs s; heap := heap s;
      goroutines := goroutines s; rand_src := rand_src s;
      rand_pos := S (rand_pos s); clock := clock s; broker := broker s |}).

Definition letters : string := "abcdefghijklmnopqrstuvwxyz0123456789".

Definition letter_at (i : Z) : ascii :=
  default "a"%char (String.get (Z.to_nat i) letters).

Fixpoint randomID_loop (n : nat) (s : Sys) : string * Sys :=
  match n with
  | O => (EmptyString, s)
  | S n' =>
      let '(i, s1) := rand_Intn (Z.of_nat (String.length letters)) s in
      let '(rest, s2) := randomID_loop n' s1 in
      (String (letter_at i) rest, s2)
  end.

Definition randomID (s : Sys) : string * Sys := randomID_loop 8 s.

Section WithCodecs.
Context {codecs : Codecs}.

(** *** processJob *)

(** The closure [sendToDLQ] of [processJob]; [dlqTopic] is the topic of the
    writer it captures. *)
Definition sendToDLQ (js : loc) (dlqTopic : string)
    (rowNum : Z) (rawData errorMsg : string) : Prog unit :=
  (jobID <- load FJobID js ;;
   now <- act time_Now ;;
   let rejectedRow := {| rr_JobID := jobID; RowNumber := rowNum;
                         RawData := rawData; Error := errorMsg;
                         Timestamp := now |} in
   match json_Marshal_RejectedRow rejectedRow with
   | Err _ => Ret tt
   | Ok payload =>
       key <- load FJobID js ;;
       _ <- act (kafka_WriteMessages dlqTopic
                   {| Key := key; Value := payload |}) ;;
       Ret tt
   end)%prog.

(** The [for] loop over the rows. [rl] is what the reader still has to
    return; the end of [rl] is [io.EOF]. *)
Fixpoint row_loop (js : loc) (mainTopic dlqTopic : string)
    (rl : list ReadResult) (rowNumber : Z) : Prog unit :=
  let rowNumber := int_incr rowNumber in
  match rl with
  | [] => Ret tt
  | ReadErr rec err :: rl' =>
      (incr FErrors js ;;
       let rawData := match rec with
                      | Some rec => strings_Join rec ","
                      | None => ""
                      end in
       sendToDLQ js dlqTopic rowNumber rawData err ;;
       row_loop js mainTopic dlqTopic rl' rowNumber)%prog
  | ReadOk rec :: rl' =>
      (incr FRows js ;;
       match json_Marshal_record rec with
       | Err err =>
           incr FErrors js ;;
           sendToDLQ js dlqTopic rowNumber (strings_Join rec ",")
             ("JSON marshal error: " +:+ err) ;;
           row_loop js mainTopic dlqTopic rl' rowNumber
       | Ok payload =>
           key <- load FJobID js ;;
           err <- act (kafka_WriteMessages mainTopic
                         {| Key := key; Value := payload |}) ;;
           match err with
           | Some err =>
               incr FErrors js ;;
               sendToDLQ js dlqTopic rowNumber (strings_Join rec ",")
                 ("Kafka write error: " +:+ err) ;;
               row_loop js mainTopic dlqTopic rl' rowNumber
           | None =>
               incr FOK js ;;
               row_loop js mainTopic dlqTopic rl' rowNumber
           end
       end)%prog
  end.

(** Lines 240-243: the job is picked up. Returns [start]. *)
Definition begin_job (js : loc) : Prog Z :=
  (start <- act time_Now ;;
   store FState js StateRunning ;;
   t <- act time_Now ;;
   store FStartedAt js t ;;
   t <- act time_Now ;;
   store FUpdatedAt js t ;;
   Ret start)%prog.

(** Lines 271-276: the broker cannot be reached. *)
Definition fail_job (js : loc) : Prog unit :=
  (store FState js StateFailed ;;
   t <- act time_Now ;;
   store FUpdatedAt js t)%prog.

(** Lines 385-391: the final state, with the conditions evaluated in the
    order of the source. *)
Definition resolve_state (js : loc) : Prog unit :=
  (errors <- load FErrors js ;;
   partial <- (if 0 <? errors
               then ok <- load FOK js ;; Ret (0 <? ok)
               else Ret false) ;;
   if partial : bool then store FState js StatePartialSuccess
   else
     errors <- load FErrors js ;;
     if 0 <? errors then store FState js StateFailed
     else store FState js StateSuccess)%prog.

(** Lines 382-396: the end of the input has been reached. The last four
    reads are the arguments of the closing [log.Printf]. *)
Definition finish_job (js : loc) (start : Z) : Prog unit :=
  (now <- act time_Now ;;
   store FProcessingMS js (Milliseconds (time_Sub now start)) ;;
   resolve_state js ;;
   t <- act time_Now ;;
   store FUpdatedAt js t ;;
   _ <- load FJobID js ;;
   _ <- load FRows js ;;
   _ <- load FOK js ;;
   _ <- load FErrors js ;;
   Ret tt)%prog.

Definition processJob (js : loc) (f : File) (kind : string) : Prog unit :=
  (start <- begin_job js ;;
   jobID <- load FJobID js ;;
   let mainTopic := "batch_" +:+ jobID in
   jobID <- load FJobID js ;;
   let dlqTopic := "batch_" +:+ jobID +:+ "_dlq" in
   conn <- act kafka_Dial ;;
   match conn with
   | Some _ => fail_job js
   | None =>
       _ <- act (kafka_CreateTopics [mainTopic; dlqTopic]) ;;
       let rl := csv_records (remaining f) in
       row_loop js mainTopic dlqTopic rl 0 ;;
       finish_job js start
   end)%prog.

(** *** createJob *)

Definition new_JobStatus (jobID modelID : string) (now : Z) : JobStatus :=
  {| JobID := jobID; ModelID := modelID; State := StatePending;
     Totals := {| Rows := 0; OK := 0; Errors := 0 |};
     Timings := {| WaitingMS := 0; ProcessingMS := 0 |};
     UpdatedAt := now; StartedAt := 0; Cancelled := false |}.

Definition createJob (r : UploadRequest) (s : Sys) : Response * Sys :=
  match multipart_err r with
  | Some err => (badRequest "INVALID_MULTIPART" err, s)
  | None =>
  let modelID := form_model_id r in
  if decide (modelID = "") then
    (badRequest "MISSING_MODEL_ID" "model_id is required", s)
  else
  match models s !! modelID with
  | None => (badRequest "MODEL_NOT_FOUND" "model not found", s)
  | Some _ =>
  match form_file r with
  | Err err => (badRequest "MISSING_FILE" err, s)
  | Ok (file, header) =>
  if maxUploadBytes <? Size header then
    (badRequest "FILE_TOO_LARGE" "file exceeds 1GiB limit", s)
  else
  match io_ReadFull file 4 with
  | (Err err, _) => (badRequest "READ_ERROR" err, s)
  | (Ok buf, file) =>
  match Seek_start file with
  | Err err => (internalError err, s)
  | Ok file =>
  let fileType :=
    if decide (buf = "PAR1") then Some "parquet"
    else if strings_Contains (filepath_Ext (Filename header)) ".csv"
            || negb (Ascii.eqb (default "000"%char (String.get 0 buf))
                               "P"%char)
    then Some "csv"
    else None in
  match fileType with
  | None =>
      (badRequest "UNSUPPORTED_FILE_TYPE"
         "only .csv or .parquet files are allowed", s)
  | Some fileType =>
  let '(jobID, s) := randomID s in
  let js := length (heap s) in
  let s :=
    {| models := models s; jobs := <[jobID := js]> (jobs s);
       heap := heap s ++ [new_JobStatus jobID modelID (clock s)];
       goroutines := goroutines s ++
         [{| g_js := js; g_file := file; g_kind := fileType;
             g_code := processJob js file fileType |}];
       rand_src := rand_src s; rand_pos := rand_pos s;
       clock := clock s; broker := broker s |} in
  ({| status := StatusAccepted; body := JobIDBody jobID |}, s)
  end end end end end end.

End WithCodecs.

(** *** cancelJob *)

Definition cancel_body (j : loc) : Prog JobStatus :=
  (store FState j StateCancelled ;;
   store FCancelled j true ;;
   t <- act time_Now ;;
   store FUpdatedAt j t ;;
   act (RecordLoad j))%prog.

Definition cancelJob (id : string) (s : Sys) : Response * Sys :=
  match jobs s !! id with
  | Some j =>
      let '(written, s) := exec (cancel_body j) s in
      ({| status := StatusAccepted; body := JobBody (to_JSON written) |}, s)
  | None => (notFound "JOB_NOT_FOUND" "job not found", s)
  end.

End Server.
Export Server.

(* ===================================================================== *)
(** ** Interleavings *)
(* ===================================================================== *)

Module Sched.

(** What can happen next in the process: a goroutine performs its next
    action, time passes, or one of the two job handlers modelled here serves
    a request. A handler is one step: [cancelJob] runs under [jobsMu], and
    [createJob] touches the shared state only to look the model up and to
    register the new record, each under its lock. The goroutines take no
    lock, so their actions interleave freely with the handlers and with each
    other. *)
Inductive Event : Type :=
| EvStep (tid : nat)
| EvTick (dt : N)
| EvCreate (r : UploadRequest)
| EvCancel (id : string).

Definition is_cancel (e : Event) : bool :=
  match e with
  | EvCancel _ => true
  | _ => false
  end.

Definition without_cancels (sched : list Event) : list Event :=
  List.filter (fun e => negb (is_cancel e)) sched.

(** An action performed by a goroutine. *)
Inductive Did : Type :=
| did {X : Type} (tid : nat) (a : Act X).

Definition with_code (p : Prog unit) (g : Goroutine) : Goroutine :=
  {| g_js := g_js g; g_file := g_file g; g_kind := g_kind g; g_code := p |}.

Definition step_goroutine (tid : nat) (s : Sys) : option Did * Sys :=
  match goroutines s !! tid with
  | Some g =>
      match g_code g with
      | Ret _ => (None, s)
      | Vis a k =>
          let '(x, s') := act_sem a s in
          (Some (did tid a),
           with_goroutines (<[tid := with_code (k x) g]> (goroutines s')) s')
      end
  | None => (None, s)
  end.

Section WithCodecs.
Context {codecs : Codecs}.

Definition fire (e : Event) (s : Sys) : option Did * Sys :=
  match e with
  | EvStep tid => step_goroutine tid s
  | EvTick dt => (None, with_clock (clock s + Z.of_N dt) s)
  | EvCreate r => (None, snd (createJob r s))
  | EvCancel id => (None, snd (cancelJob id s))
  end.

(** A schedule run from a state: the actions the goroutines performed, in
    order, and the state reached. *)
Fixpoint run (sched : list Event) (s : Sys) : list Did * Sys :=
  match sched with
  | [] => ([], s)
  | e :: rest =>
      let '(d, s1) := fire e s in
      let '(ds, s2) := run rest s1 in
      (option_list d ++ ds, s2)
  end.

(** [stores_state a l]: the action assigns the [State] of the record at
    [l]. *)
Definition stores_state {X} (a : Act X) (l : loc) : bool :=
  match a with
  | @FieldStore _ f js _ => (field_tag f =? field_tag FState)%nat && (js =? l)%nat
  | _ => false
  end.

(** Who wrote the [State] of each record last: [mark e s d c l] is true
    when, after event [e] fired in state [s] and a goroutine did [d], the
    last assignment to the [State] of the record at [l] was made by a cancel
    request, [c] telling the same before the event. *)
Definition mark (e : Event) (s : Sys) (d : option Did) (c : loc -> bool) :
    loc -> bool :=
  fun l =>
    match e with
    | EvCancel id => if decide (jobs s !! id = Some l) then true else c l
    | _ =>
        match d with
        | Some (did _ a) => if stores_state a l then false else c l
        | None => c l
        end
    end.

Fixpoint cancel_wrote_last (sched : list Event) (s : Sys) (c : loc -> bool) :
    loc -> bool :=
  match sched with
  | [] => c
  | e :: rest =>
      let '(d, s') := fire e s in
      cancel_wrote_last rest s' (mark e s d c)
  end.

End WithCodecs.

(** The server as [main] leaves it: registries, records and goroutines
    empty apart from the models registered, around a given random source,
    clock and broker. *)
Definition init_Sys (ms : gmap string Model) (src : nat -> Z) (now : Z)
    (b : Broker) : Sys :=
  {| models := ms; jobs := ∅; heap := []; goroutines := [];
     rand_src := src; rand_pos := 0; clock := now; broker := b |}.

End Sched.
Export Sched.

(* ===================================================================== *)
(** ** What a cancel request can and cannot influence *)
(* ===================================================================== *)

Module Oblivious.

(** The fields a cancel request assigns. *)
Definition cancel_field {T} (f : Field T) : bool :=
  match f with
  | FState | FCancelled | FUpdatedAt => true
  | _ => false
  end.

(** The actions whose result depends on one of them. *)
Definition reads_cancel_field {X} (a : Act X) : bool :=
  match a with
  | @FieldLoad _ f _ => cancel_field f
  | RecordLoad _ => true
  | _ => false
  end.

(** A program none of whose actions, on any path, reads a field that a
    cancel request assigns. *)
Fixpoint oblivious {R} (p : Prog R) : Prop :=
  match p with
  | Ret _ => True
  | Vis a k => reads_cancel_field a = false /\ forall x, oblivious (k x)
  end.

(** Two records that differ at most in the fields a cancel request assigns;
    [by_cancel] tells whether the state of the first is the one a cancel
    request wrote. *)
Definition same_but_cancel (by_cancel : bool) (j1 j0 : JobStatus) : Prop :=
  (forall T (f : Field T), cancel_field f = false -> get f j1 = get f j0)
  /\ State j1 = (if by_cancel then StateCancelled else State j0).

(** Two states of the process that differ at most in those fields of their
    records. *)
Record same_but_cancels (c : loc -> bool) (s1 s0 : Sys) : Prop := {
  sbc_models : models s1 = models s0;
  sbc_jobs : jobs s1 = jobs s0;
  sbc_goroutines : goroutines s1 = goroutines s0;
  sbc_rand_src : rand_src s1 = rand_src s0;
  sbc_rand_pos : rand_pos s1 = rand_pos s0;
  sbc_clock : clock s1 = clock s0;
  sbc_broker : broker s1 = broker s0;
  sbc_length : length (heap s1) = length (heap s0);
  sbc_heap : forall l j1 j0,
    heap s1 !! l = Some j1 -> heap s0 !! l = Some j0 ->
    same_but_cancel (c l) j1 j0;
}.

(** The registry points at records that exist, and so does [c]. *)
Definition registry_valid (c : loc -> bool) (s : Sys) : Prop :=
  (forall id l, jobs s !! id = Some l -> (l < length (heap s))%nat)
  /\ (forall l, c l = true -> (l < length (heap s))%nat).

(** Every goroutine of the process is oblivious. *)
Definition pool_oblivious (s : Sys) : Prop :=
  Forall (fun g => oblivious (g_code g)) (goroutines s).

End Oblivious.
Export Oblivious.

(* ===================================================================== *)
(** ** Vocabulary of the statements *)
(* ===================================================================== *)

Module Spec.

(** The number of records among the results of the reader. *)
Fixpoint parsed (rl : list ReadResult) : nat :=
  match rl with
  | [] => 0
  | ReadOk _ :: rl' => S (parsed rl')
  | ReadErr _ _ :: rl' => parsed rl'
  end.

(** [extends mt dt acked dead b b']: broker [b'] is [b] after writes that
    appended [acked] to the log of [mt] and [dead] to the log of [dt] and
    nothing to any other log; it answers as [b] does. *)
Record extends (mt dt : string) (acked dead : list Message)
    (b b' : Broker) : Prop := {
  ext_main : topic_log b' mt = topic_log b mt ++ acked;
  ext_dlq : topic_log b' dt = topic_log b dt ++ dead;
  ext_other : forall t, t <> mt -> t <> dt -> topics b' !! t = topics b !! t;
  ext_dial : dial_err b' = dial_err b;
  ext_create : create_err b' = create_err b;
  ext_oracle : write_fault b' = write_fault b;
  ext_nwrites : (nwrites b <= nwrites b')%nat;
}.

(** The state lines 385-391 settle on for given totals. *)
Definition final_state (t : TotalsT) : JobState :=
  if (0 <? Errors t) && (0 <? OK t) then StatePartialSuccess
  else if 0 <? Errors t then StateFailed
  else StateSuccess.

(** The type [createJob] settles on from the first four bytes and the file
    name (lines 213-221); [None] is UNSUPPORTED_FILE_TYPE. *)
Definition sniffed (buf filename : string) : option string :=
  if decide (buf = "PAR1") then Some "parquet"
  else if strings_Contains (filepath_Ext filename) ".csv"
          || negb (Ascii.eqb (default "000"%char (String.get 0 buf))
                             "P"%char)
  then Some "csv"
  else None.

(** The answer and the state after [createJob] has accepted an upload of
    type [kind] (lines 223-236): an identifier is drawn, the record is
    allocated and registered, the task is started on the file. *)
Definition accepted {codecs : Codecs} (modelID : string) (file : File)
    (kind : string) (s : Sys) : Response * Sys :=
  let jobID := fst (randomID s) in
  let js := length (heap s) in
  ({| status := StatusAccepted; body := JobIDBody jobID |},
   {| models := models s; jobs := <[jobID := js]> (jobs s);
      heap := heap s ++ [new_JobStatus jobID modelID (clock s)];
      goroutines := goroutines s ++
        [{| g_js := js; g_file := file; g_kind := kind;
            g_code := processJob js file kind |}];
      rand_src := rand_src s; rand_pos := (8 + rand_pos s)%nat;
      clock := clock s; broker := broker s |}).

End Spec.
Export Spec.

(* ===================================================================== *)
(** ** A concrete library and concrete requests *)
(* ===================================================================== *)

(** The statements below hold for every [Codecs]. To run the server on
    concrete uploads this module provides one: a CSV reader for input
    without quotes or carriage returns (records are the non-empty lines,
    fields are separated by commas, every record must have as many fields
    as the first, a quote is a parse error), and JSON encoders for text that
    needs no escaping. *)
Module Sample.

Fixpoint split_on (sep : ascii) (s : string) : list string :=
  match s with
  | EmptyString => [EmptyString]
  | String c s' =>
      if Ascii.eqb c sep then EmptyString :: split_on sep s'
      else match split_on sep s' with
           | [] => [String c EmptyString]
           | w :: ws => String c w :: ws
           end
  end.

Definition LF : ascii := ascii_of_nat 10.
Definition quote : ascii := ascii_of_nat 34.
Definition quote_s : string := String quote EmptyString.

Fixpoint read_lines (lines : list string) (line : Z) (fields : option nat) :
    list ReadResult :=
  match lines with
  | [] => []
  | l :: rest =>
      if decide (l = "") then read_lines rest (line + 1) fields
      else if strings_Contains l quote_s then
        ReadErr None ("parse error on line " +:+ pretty line
                      +:+ ": bare quote in non-quoted field")
        :: read_lines rest (line + 1) fields
      else
        let rec := split_on "," l in
        match fields with
        | None => ReadOk rec :: read_lines rest (line + 1) (Some (length rec))
        | Some n =>
            (if (length rec =? n)%nat then ReadOk rec
             else ReadErr (Some rec)
                    ("record on line " +:+ pretty line
                     +:+ ": wrong number of fields"))
            :: read_lines rest (line + 1) fields
        end
  end.

Definition plain_csv (bytes : string) : list ReadResult :=
  read_lines (split_on LF bytes) 1 None.

Definition json_string (s : string) : string := quote_s +:+ s +:+ quote_s.

Definition plain_json_record (rec : list string) : Result string :=
  Ok ("[" +:+ strings_Join (map json_string rec) "," +:+ "]").

Definition plain_json_RejectedRow (r : RejectedRow) : Result string :=
  Ok ("{" +:+ json_string "job_id" +:+ ":" +:+ json_string (rr_JobID r)
      +:+ "," +:+ json_string "row_number" +:+ ":" +:+ pretty (RowNumber r)
      +:+ "," +:+ json_string "raw_data" +:+ ":" +:+ json_string (RawData r)
      +:+ "," +:+ json_string "error" +:+ ":" +:+ json_string (Error r)
      +:+ "," +:+ json_string "timestamp" +:+ ":" +:+ pretty (Timestamp r)
      +:+ "}").

Definition plain : Codecs :=
  {| csv_records := plain_csv;
     json_Marshal_record := plain_json_record;
     json_Marshal_RejectedRow := plain_json_RejectedRow |}.

(** A broker that can be reached and acknowledges every write. *)
Definition healthy : Broker :=
  {| dial_err := None; create_err := None;
     write_fault := fun _ _ => None; nwrites := 0; topics := ∅ |}.

(** A broker that cannot be reached. *)
Definition unreachable : Broker :=
  {| dial_err := Some "dial tcp: connection refused"; create_err := None;
     write_fault := fun _ _ => None; nwrites := 0; topics := ∅ |}.

(** A broker that can be reached and times out on the first write. *)
Definition flaky : Broker :=
  {| dial_err := None; create_err := None;
     write_fault := fun k _ =>
       if (k =? 0)%nat then Some "context deadline exceeded" else None;
     nwrites := 0; topics := ∅ |}.

Definition events_model : Model :=
  {| ID := "events"; Name := "Events"; Schema := "{}" |}.

Definition server (b : Broker) : Sys :=
  init_Sys {[ "events" := events_model ]} (fun k => Z.of_nat k * 7) 1000 b.

Definition in_memory (bytes : string) : File :=
  {| content := bytes; offset := 0; seek_err := None |}.

Definition upload (model name bytes : string) : UploadRequest :=
  {| multipart_err := None; form_model_id := model;
     form_file := Ok (in_memory bytes,
                      {| Filename := name;
                         Size := Z.of_nat (String.length bytes) |}) |}.

Definition two_rows : string :=
  "id,name" +:+ String LF "1,ada" +:+ String LF "".

(** The identifier and the record of the job that a first accepted upload
    creates on [server b]. *)
Definition first_id : string := "ahov29gn".

Definition first_job : JobStatus := new_JobStatus first_id "events" 1000.

(** [server b] with that job's record allocated, and with the record
    registered as well. *)
Definition one_job (b : Broker) : Sys :=
  with_heap [first_job] (server b).

Definition one_job_registered (b : Broker) : Sys :=
  {| models := models (server b); jobs := {[ first_id := 0%nat ]};
     heap := [first_job]; goroutines := []; rand_src := rand_src (server b);
     rand_pos := 8; clock := 1000; broker := b |}.

(** The two-row upload, and a schedule on which a cancel request for its
    job is served while the task streams: the upload, twelve actions of the
    task, three milliseconds, the cancel request, and the rest of the
    task. *)
Definition two_rows_upload : UploadRequest :=
  upload "events" "rows.csv" two_rows.

Definition cancel_mid_run : list Event :=
  EvCreate two_rows_upload :: repeat (EvStep 0) 12
  ++ [EvTick 3000000; EvCancel first_id] ++ repeat (EvStep 0) 25.

End Sample.


(* ===================================================================== *)
(** ** The other handlers *)
(* ===================================================================== *)

Module Api.

Definition StatusOK : Z := 200.
Definition StatusCreated : Z := 201.
Definition StatusNoContent : Z := 204.

(** What the handlers of this module write: the bodies of [writeJSON], or
    nothing ([WriteHeader] alone). A slice is encoded as [null] when it is
    nil ([None]) and as an array otherwise. *)
Inductive Payload : Type :=
| ErrorPayload (error message : string)
| JobIDPayload (job_id : string)
| ModelPayload (m : Model)
| ModelsPayload (list : option (list Model))
| JobPayload (j : JobJSON)
| JobsPayload (list : option (list JobJSON))
| RejectedPayload (rows : option (list RejectedRow))
| NoPayload.

Record Reply : Type := {
  code : Z;
  payload : Payload;
}.

Definition reply_of (r : Response) : Reply :=
  {| code := status r;
     payload := match body r with
                | ErrorBody e m => ErrorPayload e m
                | JobIDBody id => JobIDPayload id
                | JobBody j => JobPayload j
                end |}.

(** The slice that [append] builds from a nil slice: nil when nothing was
    appended. *)
Definition appended {A} (l : list A) : option (list A) :=
  match l with
  | [] => None
  | _ => Some l
  end.

Definition with_models (m : gmap string Model) (s : Sys) : Sys :=
  {| models := m; jobs := jobs s; heap := heap s;
     goroutines := goroutines s; rand_src := rand_src s;
     rand_pos := rand_pos s; clock := clock s; broker := broker s |}.

Definition with_ID (id : string) (m : Model) : Model :=
  {| ID := id; Name := Name m; Schema := Schema m |}.

(** *** Model handlers

    [body] is the outcome of decoding the request body into a [Model], [id]
    the path variable. *)

(** [range] over a Go map visits the entries in an order that the language
    leaves open; the list below has them in the order of [map_to_list], and
    the statements about it do not depend on the order. *)
Definition listModels (s : Sys) : Reply :=
  {| code := StatusOK;
     payload := ModelsPayload (appended ((map_to_list (models s)).*2)) |}.

Definition createModel (body : Result Model) (s : Sys) : Reply * Sys :=
  match body with
  | Err err => (reply_of (badRequest "INVALID_JSON" err), s)
  | Ok m =>
      let '(m, s) :=
        if decide (ID m = "") then
          let '(id, s) := randomID s in (with_ID id m, s)
        else (m, s) in
      ({| code := StatusCreated; payload := ModelPayload m |},
       with_models (<[ID m := m]> (models s)) s)
  end.

Definition getModel (id : string) (s : Sys) : Reply :=
  match models s !! id with
  | Some m => {| code := StatusOK; payload := ModelPayload m |}
  | None => reply_of (notFound "MODEL_NOT_FOUND" "model not found")
  end.

Definition updateModel (id : string) (body : Result Model) (s : Sys) :
    Reply * Sys :=
  match body with
  | Err err => (reply_of (badRequest "INVALID_JSON" err), s)
  | Ok updated =>
      match models s !! id with
      | None => (reply_of (notFound "MODEL_NOT_FOUND" "model not found"), s)
      | Some _ =>
          let updated := with_ID id updated in
          ({| code := StatusOK; payload := ModelPayload updated |},
           with_models (<[id := updated]> (models s)) s)
      end
  end.

Definition deleteModel (id : string) (s : Sys) : Reply * Sys :=
  match models s !! id with
  | None => (reply_of (notFound "MODEL_NOT_FOUND" "model not found"), s)
  | Some _ =>
      ({| code := StatusNoContent; payload := NoPayload |},
       with_models (delete id (models s)) s)
  end.

(** *** Job queries *)

Definition listJobs (s : Sys) : Reply :=
  {| code := StatusOK;
     payload := JobsPayload
       (appended ((fun j => to_JSON (deref (heap s) j))
                    <$> (map_to_list (jobs s)).*2)) |}.

Definition getJob (id : string) (s : Sys) : Reply :=
  match jobs s !! id with
  | Some j =>
      {| code := StatusOK; payload := JobPayload (to_JSON (deref (heap s) j)) |}
  | None => reply_of (notFound "JOB_NOT_FOUND" "job not found")
  end.

End Api.
Export Api.


(* ===================================================================== *)
(** ** Vocabulary for the contents of the logs *)
(* ===================================================================== *)

Module Contents.

(** The records among the results of the reader, in order. *)
Fixpoint records (rl : list ReadResult) : list (list string) :=
  match rl with
  | [] => []
  | ReadOk rec :: rl' => rec :: records rl'
  | ReadErr _ _ :: rl' => records rl'
  end.

(** The rows at which the reader reported an error, each with its 1-based
    position in the input ([pos] rows come before [rl]), the text the task
    keeps of it (the fields joined by commas when the reader returned them)
    and the error. *)
Fixpoint malformed_rows (rl : list ReadResult) (pos : nat) :
    list (nat * string * string) :=
  match rl with
  | [] => []
  | ReadOk _ :: rl' => malformed_rows rl' (S pos)
  | ReadErr rec err :: rl' =>
      (S pos,
       match rec with
       | Some rec => strings_Join rec ","
       | None => ""
       end,
       err) :: malformed_rows rl' (S pos)
  end.

Section WithCodecs.
Context {codecs : Codecs}.

(** [m] is the message the task publishes for the record [rec] of job
    [jobID]. *)
Definition publishes (jobID : string) (m : Message) (rec : list string) :
    Prop :=
  Key m = jobID /\ json_Marshal_record rec = Ok (Value m).

(** The dead-letter entry of job [jobID] for a malformed row, written at
    time [now]. *)
Definition rejected (jobID : string) (now : Z) (row : nat * string * string) :
    RejectedRow :=
  {| rr_JobID := jobID; RowNumber := Z.of_nat row.1.1; RawData := row.1.2;
     Error := row.2; Timestamp := now |}.

(** [m] is the message the task sends to the dead-letter log for the entry
    [r]. *)
Definition buries (jobID : string) (m : Message) (r : RejectedRow) : Prop :=
  Key m = jobID /\ json_Marshal_RejectedRow r = Ok (Value m).

End WithCodecs.

End Contents.
Export Contents.


(* ===================================================================== *)
(** ** The dead-letter query *)
(* ===================================================================== *)

Module DeadLetters.

(** [json.Unmarshal] into a [RejectedRow]. *)
Class Decoders : Type := {
  json_Unmarshal_RejectedRow : string -> Result RejectedRow;
}.

(** What the environment decides for one query: how many [FetchMessage]
    calls return a message before the three seconds of the context run out
    or the broker fails, and whether the loop then notices at the [select]
    ([ctx.Done()]) or through the error of the next [FetchMessage]. A fetch
    on an exhausted log waits for the deadline and fails. *)
Record Deadline : Type := {
  fetches : nat;
  at_select : bool;
}.

Section WithDecoders.
Context {decoders : Decoders}.

(** The [for] loop of [rejectedRows]: [pending] is what the reader, which
    starts at the first offset of the log, has not fetched yet; [rows] is
    the slice [rejectedRows], nil at first. The result is the slice that is
    encoded in the answer. *)
Fixpoint drain (budget : nat) (at_select : bool) (pending : list Message)
    (rows : option (list RejectedRow)) : option (list RejectedRow) :=
  match budget with
  | O =>
      if at_select then rows
      else Some (default [] rows)
  | S budget' =>
      match pending with
      | [] => Some (default [] rows)
      | msg :: pending' =>
          match json_Unmarshal_RejectedRow (Value msg) with
          | Err _ => drain budget' at_select pending' rows
          | Ok rejectedRow =>
              drain budget' at_select pending'
                (Some (default [] rows ++ [rejectedRow]))
          end
      end
  end.

Definition rejectedRows (jobId : string) (d : Deadline) (s : Sys) :
    Reply * Sys :=
  match jobs s !! jobId with
  | None => (reply_of (notFound "JOB_NOT_FOUND" "job not found"), s)
  | Some _ =>
      let dlqTopic := "batch_" +:+ jobId +:+ "_dlq" in
      let '(_, s) := randomID s in
      ({| code := StatusOK;
          payload := RejectedPayload
            (drain (fetches d) (at_select d)
               (topic_log (broker s) dlqTopic) None) |}, s)
  end.

(** The entries of a log that decode, in order. *)
Fixpoint decoded (log : list Message) : list RejectedRow :=
  match log with
  | [] => []
  | msg :: log' =>
      match json_Unmarshal_RejectedRow (Value msg) with
      | Err _ => decoded log'
      | Ok r => r :: decoded log'
      end
  end.

End WithDecoders.

End DeadLetters.
Export DeadLetters.


(* ===================================================================== *)
(** ** The life of the process *)
(* ===================================================================== *)

Module Process.

(** Everything that changes the state of the process: the events of a
    schedule (a goroutine step, a clock tick, an upload, a cancel request),
    the three model handlers that write the registry, and the dead-letter
    query, which draws an identifier. [getModel], [listModels], [getJob] and
    [listJobs] only read. *)
Inductive Request : Type :=
| ReqEvent (e : Event)
| ReqCreateModel (body : Result Model)
| ReqUpdateModel (id : string) (body : Result Model)
| ReqDeleteModel (id : string)
| ReqRejected (jobId : string) (d : Deadline).

Section WithLibrary.
Context {codecs : Codecs} {decoders : Decoders}.

Definition serve (r : Request) (s : Sys) : Sys :=
  match r with
  | ReqEvent e => snd (fire e s)
  | ReqCreateModel body => snd (createModel body s)
  | ReqUpdateModel id body => snd (updateModel id body s)
  | ReqDeleteModel id => snd (deleteModel id s)
  | ReqRejected jobId d => snd (rejectedRows jobId d s)
  end.

Definition serve_all (rs : list Request) (s : Sys) : Sys :=
  foldl (fun s r => serve r s) s rs.

End WithLibrary.

(** The process when [main] starts serving: both registries empty. *)
Definition boot (src : nat -> Z) (now : Z) (b : Broker) : Sys :=
  init_Sys ∅ src now b.

(** The fields the task assigns. *)
Definition task_field {T} (f : Field T) : bool :=
  match f with
  | FState | FRows | FOK | FErrors | FProcessingMS | FUpdatedAt
  | FStartedAt => true
  | _ => false
  end.

Definition assigns_task_field {X} (a : Act X) : bool :=
  match a with
  | @FieldStore _ f _ _ => task_field f
  | _ => true
  end.

(** A program all of whose assignments, on every path, are to those
    fields. *)
Fixpoint tame {R} (p : Prog R) : Prop :=
  match p with
  | Ret _ => True
  | Vis a k => assigns_task_field a = true /\ forall x, tame (k x)
  end.

(** What stays of a record for as long as the process runs: its
    identifier, its model, its waiting time, and the cancelled flag once it
    is set. *)
Definition keeps (j j' : JobStatus) : Prop :=
  JobID j' = JobID j /\ ModelID j' = ModelID j
  /\ WaitingMS (Timings j') = WaitingMS (Timings j)
  /\ (Cancelled j = true -> Cancelled j' = true).

(** What holds of every state the process reaches. *)
Record sound (s : Sys) : Prop := {
  sound_pool : Forall (fun g => tame (g_code g)) (goroutines s);
  sound_jobs : forall id l, jobs s !! id = Some l ->
    exists j, heap s !! l = Some j /\ JobID j = id;
  sound_records : forall l j, heap s !! l = Some j ->
    String.length (JobID j) = 8%nat /\ WaitingMS (Timings j) = 0;
  sound_models : forall id m, models s !! id = Some m -> ID m = id;
}.

(** From [s] to [s'], nothing is forgotten: a registered identifier stays
    registered, a record stays and keeps what [keeps] says, and no goroutine
    leaves the pool. *)
Definition evolves (s s' : Sys) : Prop :=
  (forall id, is_Some (jobs s !! id) -> is_Some (jobs s' !! id))
  /\ (forall l j, heap s !! l = Some j ->
        exists j', heap s' !! l = Some j' /\ keeps j j')
  /\ (length (goroutines s) <= length (goroutines s'))%nat.

(** The actions that assign no record but the one at [js]. *)
Definition writes_at {X} (js : loc) (a : Act X) : bool :=
  match a with
  | @FieldStore _ _ l _ => (l =? js)%nat
  | _ => true
  end.

(** A program all of whose assignments, on every path, are to the record at
    [js]. *)
Fixpoint confined (js : loc) {R} (p : Prog R) : Prop :=
  match p with
  | Ret _ => True
  | Vis a k => writes_at js a = true /\ forall x, confined js (k x)
  end.

(** Tasks and records are numbered alike: the goroutine at position [k] of
    the pool holds the pointer to the record at position [k] and assigns no
    other record. *)
Definition isolated (s : Sys) : Prop :=
  length (goroutines s) = length (heap s)
  /\ forall k g, goroutines s !! k = Some g ->
       g_js g = k /\ confined k (g_code g).

(** The number of actions a program performs when it runs from [s] with
    nothing in between. *)
Fixpoint actions {R} (p : Prog R) (s : Sys) : nat :=
  match p with
  | Ret _ => 0
  | Vis a k => let '(x, s') := act_sem a s in S (actions (k x) s')
  end.

End Process.
Export Process.

(* ===================================================================== *)
(** ** Concrete uploads with malformed rows, and a decoder *)
(* ===================================================================== *)

(** Inputs for [Sample.plain] in which the reader reports errors, and a
    decoder for the dead-letter entries that [Sample.plain] encodes: text
    without quotes and decimal numbers. *)
Module Malformed.

(** Four lines, the third with one field where the header has two. *)
Definition mixed_rows : string :=
  "id,name" +:+ String Sample.LF "1,ada" +:+ String Sample.LF "2"
  +:+ String Sample.LF "3,bob" +:+ String Sample.LF "".

(** Two lines, each with a bare quote. *)
Definition only_quotes : string :=
  "a" +:+ Sample.quote_s +:+ "b" +:+ String Sample.LF "c" +:+ Sample.quote_s
  +:+ String Sample.LF "".

Fixpoint digits (s : string) (acc : Z) : option Z :=
  match s with
  | EmptyString => Some acc
  | String c s' =>
      let n := Z.of_nat (nat_of_ascii c) in
      if (48 <=? n) && (n <=? 57) then digits s' (10 * acc + (n - 48))
      else None
  end.

Definition decimal (s : string) : option Z :=
  match s with
  | EmptyString => None
  | String c s' =>
      if Ascii.eqb c "-" then
        match s' with
        | EmptyString => None
        | _ => option_map Z.opp (digits s' 0)
        end
      else digits s 0
  end.

(** [s] without its first and its last character. *)
Definition inner (s : string) : string :=
  substring 1 (String.length s - 2) s.

Definition plain_unmarshal_RejectedRow (p : string) : Result RejectedRow :=
  match Sample.split_on Sample.quote p with
  | [_; k1; _; id; _; k2; n; k3; _; raw; _; k4; _; err; _; k5; ts] =>
      if decide ([k1; k2; k3; k4; k5]
                 = ["job_id"; "row_number"; "raw_data"; "error";
                    "timestamp"])
      then
        match decimal (inner n), decimal (inner ts) with
        | Some n, Some ts =>
            Ok {| rr_JobID := id; RowNumber := n; RawData := raw;
                  Error := err; Timestamp := ts |}
        | _, _ => Err "json: cannot unmarshal number"
        end
      else Err "json: unknown field"
  | _ => Err "json: invalid entry"
  end.

Definition plain_decoders : Decoders :=
  {| json_Unmarshal_RejectedRow := plain_unmarshal_RejectedRow |}.

(** The process of [boot] with the source of [Sample.server]. *)
Definition fresh : Sys := boot (fun k => Z.of_nat k * 7) 1000 Sample.healthy.

(** A model is registered, then a file is uploaded for it. *)
Definition model_then_upload : list Request :=
  [ReqCreateModel (Ok Sample.events_model);
   ReqEvent (EvCreate Sample.two_rows_upload)].

(** The same with a second upload. *)
Definition model_then_two_uploads : list Request :=
  model_then_upload ++ [ReqEvent (EvCreate Sample.two_rows_upload)].

(** [Sample.server] after the two-row upload has been accepted, and the
    goroutine started for it. *)
Definition two_rows_task : Goroutine :=
  {| g_js := 0%nat; g_file := Sample.in_memory Sample.two_rows;
     g_kind := "csv";
     g_code := processJob (codecs := Sample.plain) 0%nat
                 (Sample.in_memory Sample.two_rows) "csv" |}.

Definition two_rows_accepted : Sys :=
  snd (accepted (codecs := Sample.plain) "events"
         (Sample.in_memory Sample.two_rows) "csv"
         (Sample.server Sample.healthy)).

End Malformed.

(* ===================================================================== *)
(** ** The refresh of [updated_at] *)
(* ===================================================================== *)

Module Refresh.

(** The actions that assign the state or a counter of a record. *)
Definition mutates {X} (a : Act X) : bool :=
  match a with
  | @FieldStore _ f _ _ =>
      match f with
      | FState | FRows | FOK | FErrors => true
      | _ => false
      end
  | _ => false
  end.

(** The actions that assign a counter of the record at [l]. *)
Definition stores_counter {X} (a : Act X) (l : loc) : bool :=
  match a with
  | @FieldStore _ f js _ =>
      match f with
      | FRows | FOK | FErrors => (js =? l)%nat
      | _ => false
      end
  | _ => false
  end.

(** The actions that assign the state, and those that assign [updated_at],
    of whatever record. *)
Definition stores_any_state {X} (a : Act X) : bool :=
  match a with
  | @FieldStore _ f _ _ =>
      match f with
      | FState => true
      | _ => false
      end
  | _ => false
  end.

Definition stores_updated_at {X} (a : Act X) : bool :=
  match a with
  | @FieldStore _ f _ _ =>
      match f with
      | FUpdatedAt => true
      | _ => false
      end
  | _ => false
  end.

Definition did_stores_state (d : Did) : bool :=
  match d with
  | did _ a => stores_any_state a
  end.

(** The next action of [p] is [js.UpdatedAt = t]. *)
Definition assigns_updated_at (js : loc) (t : Z) {R} (p : Prog R) : Prop :=
  match p with
  | Vis (@FieldStore _ f l v) _ =>
      l = js
      /\ match f in Field T return T -> Prop with
         | FUpdatedAt => fun v => v = t
         | _ => fun _ => False
         end v
  | _ => False
  end.

(** After [n] actions that assign neither a state nor a counter, [p] reads
    the clock and assigns the time read to [updated_at] of the record at
    [js]. *)
Fixpoint refreshes_in (n : nat) (js : loc) {R} (p : Prog R) {struct p} :
    Prop :=
  match p with
  | Ret _ => False
  | Vis a k =>
      match n with
      | O =>
          match a in Act X return (X -> Prog R) -> Prop with
          | time_Now => fun k => forall t, assigns_updated_at js t (k t)
          | _ => fun _ => False
          end k
      | S m => mutates a = false /\ forall x, refreshes_in m js (k x)
      end
  end.

(** On every path of [p], an action that assigns the state of a record is
    followed, after at most two actions that assign neither a state nor a
    counter, by a read of the clock and the assignment of the time read to
    [updated_at] of that record. *)
Fixpoint refreshing {R} (p : Prog R) : Prop :=
  match p with
  | Ret _ => True
  | Vis a k =>
      (forall js, stores_state a js = true ->
         exists n, (n <= 2)%nat /\ forall x, refreshes_in n js (k x))
      /\ forall x, refreshing (k x)
  end.

(** On every path of [p], [updated_at] is not assigned before the state
    is. *)
Fixpoint state_first {R} (p : Prog R) : Prop :=
  match p with
  | Ret _ => True
  | Vis a k =>
      stores_any_state a = true
      \/ (stores_updated_at a = false /\ forall x, state_first (k x))
  end.

(** On every path of [p], after an action that assigns a counter,
    [updated_at] is not assigned before the state is. *)
Fixpoint counters_silent {R} (p : Prog R) : Prop :=
  match p with
  | Ret _ => True
  | Vis a k =>
      (forall js, stores_counter a js = true -> forall x, state_first (k x))
      /\ forall x, counters_silent (k x)
  end.

(** The test [test] on the next action of the goroutine [tid]. *)
Definition next_action_is (test : forall X, Act X -> bool) (tid : nat)
    (s : Sys) : bool :=
  match goroutines s !! tid with
  | Some g =>
      match g_code g with
      | Vis a _ => test _ a
      | Ret _ => false
      end
  | None => false
  end.

(** The next action of the goroutine [tid] assigns the state, or a counter,
    of the record at [js]. *)
Definition about_to_store_state (tid : nat) (js : loc) (s : Sys) : bool :=
  next_action_is (fun X a => stores_state a js) tid s.

Definition about_to_store_counter (tid : nat) (js : loc) (s : Sys) : bool :=
  next_action_is (fun X a => stores_counter a js) tid s.

(** A schedule of one goroutine: before each of its steps, the time [d] of
    the list passes. *)
Definition paced (tid : nat) (ds : list N) : list Event :=
  flat_map (fun d => [EvTick d; EvStep tid]) ds.

Definition elapsed (ds : list N) : Z := Z.of_N (foldr N.add 0%N ds).

End Refresh.
Export Refresh.

(* ===================================================================== *)
(** ** Requests that concern one job *)
(* ===================================================================== *)

Module Concerns.

(** The request is a step of the goroutine [l]; the request is a cancel
    request for [id]. *)
Definition steps_task (l : nat) (r : Request) : bool :=
  match r with
  | ReqEvent (EvStep tid) => (tid =? l)%nat
  | _ => false
  end.

Definition cancels_job (id : string) (r : Request) : bool :=
  match r with
  | ReqEvent (EvCancel id') => String.eqb id' id
  | _ => false
  end.

(** The goroutine [tid] has returned. *)
Definition finished (tid : nat) (s : Sys) : bool :=
  match goroutines s !! tid with
  | Some g =>
      match g_code g with
      | Ret _ => true
      | Vis _ _ => false
      end
  | None => false
  end.

(** What [getJob] shows of a job that nothing has touched since it was
    accepted. *)
Definition pending_JSON (id modelID : string) (now : Z) : JobJSON :=
  {| job_id := id; model_id := modelID; state := "PENDING";
     totals := {| Rows := 0; OK := 0; Errors := 0 |};
     timings := {| WaitingMS := 0; ProcessingMS := 0 |};
     updated_at := now; started_at := 0 |}.

End Concerns.
Export Concerns.

(* ===================================================================== *)
(** ** Concrete lives of the process *)
(* ===================================================================== *)

(** Request sequences for the process of [Malformed.fresh]. *)
Module Runs.

(** The model is registered. *)
Definition model_only : list Request :=
  [ReqCreateModel (Ok Sample.events_model)].

(** The two-row file is uploaded and its task has read the clock: its next
    action assigns RUNNING. *)
Definition picked_up : list Request :=
  Malformed.model_then_upload ++ [ReqEvent (EvStep 0)].

(** The task has taken eleven steps: its next action assigns [rows]. *)
Definition counting : list Request :=
  Malformed.model_then_upload ++ repeat (ReqEvent (EvStep 0)) 11.

(** The task has been given forty steps, more than it needs. *)
Definition done : list Request :=
  Malformed.model_then_upload ++ repeat (ReqEvent (EvStep 0)) 40.

(** What follows a cancel request in the example: a step of the finished
    task, five milliseconds, another upload. *)
Definition afterwards : list Request :=
  [ReqEvent (EvStep 0); ReqEvent (EvTick 5000000);
   ReqEvent (EvCreate Sample.two_rows_upload)].

End Runs.

(* ===================================================================== *)
(** ** Library facts *)
(* ===================================================================== *)

Example filepath_Ext_csv : filepath_Ext "dir.d/events.csv" = ".csv".
Proof. reflexivity. Qed.

Example filepath_Ext_none : filepath_Ext "dir.d/events" = "".
Proof. reflexivity. Qed.

Example io_ReadFull_short :
  fst (io_ReadFull {| content := "ab"; offset := 0; seek_err := None |} 4)
  = Err "unexpected EOF".
Proof. reflexivity. Qed.

Lemma substring_length (n : nat) (s : string) :
  String.length (substring 0 n s) = Nat.min n (String.length s).
Proof.
  revert s. induction n as [| n IH]; intros [| c s]; simpl; try reflexivity.
  now rewrite IH.
Qed.

Lemma io_ReadFull_enough (f : File) (n : nat) :
  (n <= String.length (remaining f))%nat ->
  io_ReadFull f n =
    (Ok (substring 0 n (remaining f)),
     {| content := content f; offset := (offset f + n)%nat;
        seek_err := seek_err f |}).
Proof.
  intros Hn. unfold io_ReadFull.
  rewrite substring_length, Nat.min_l by exact Hn.
  now rewrite Nat.eqb_refl.
Qed.

Lemma io_ReadFull_short_file (f : File) (n : nat) :
  (String.length (remaining f) < n)%nat ->
  exists err f', io_ReadFull f n = (Err err, f')
    /\ (err = "EOF" \/ err = "unexpected EOF").
Proof.
  intros Hn. unfold io_ReadFull.
  rewrite substring_length, Nat.min_r by lia.
  destruct (Nat.eqb_spec (String.length (remaining f)) n) as [E | _]; [lia |].
  destruct (String.length (remaining f) =? 0)%nat; eauto.
Qed.

Lemma get_set_same {T} (f : Field T) (v : T) (j : JobStatus) :
  get f (set f v j) = v.
Proof. destruct f; reflexivity. Qed.

Lemma get_set_other {T U} (f : Field T) (g : Field U) (v : U) (j : JobStatus) :
  field_tag f <> field_tag g -> get f (set g v j) = get f j.
Proof. destruct f, g; simpl; intros H; try reflexivity; contradiction. Qed.

Lemma exec_bind {R S} (p : Prog R) (f : R -> Prog S) (s : Sys) :
  exec (bind p f) s = let '(r, s') := exec p s in exec (f r) s'.
Proof.
  revert s. induction p as [r | X a k IH]; intros s; simpl; [reflexivity |].
  destruct (act_sem a s) as [x s']. apply IH.
Qed.

(* ===================================================================== *)
(** ** Upload requests that are turned down *)
(* ===================================================================== *)

Section Handlers.
Context {codecs : Codecs}.

(** C6. An upload that names a model the registry does not hold is answered
    with a 400 and leaves the whole process state as it was: the job
    registry and the records behind it, the goroutines, the random source
    and the broker with its topics. *)
Theorem unknown_model_creates_nothing (r : UploadRequest) (s : Sys) :
  models s !! form_model_id r = None ->
  snd (createJob r s) = s
  /\ status (fst (createJob r s)) = StatusBadRequest
  /\ jobs (snd (createJob r s)) = jobs s
  /\ goroutines (snd (createJob r s)) = goroutines s
  /\ topics (broker (snd (createJob r s))) = topics (broker s).
Proof.
  intros Hm.
  assert (Hrej : snd (createJob r s) = s
                 /\ status (fst (createJob r s)) = StatusBadRequest).
  { unfold createJob. destruct (multipart_err r); [easy |].
    destruct (decide (form_model_id r = "")); [easy |].
    rewrite Hm. easy. }
  destruct Hrej as [Hs Hst]. rewrite Hs. easy.
Qed.

(** C10. An upload whose file part has fewer than four bytes is answered
    with a 400 and changes nothing: no identifier is drawn, no record is
    stored, no goroutine is started. When the request gets as far as the
    file (the form parses, the model is registered, the declared size is
    within the limit) the answer is READ_ERROR with the error of
    [io.ReadFull]. *)
Theorem short_file_creates_nothing (r : UploadRequest) (s : Sys)
    (file : File) (header : FileHeader) :
  form_file r = Ok (file, header) ->
  (String.length (remaining file) < 4)%nat ->
  snd (createJob r s) = s
  /\ status (fst (createJob r s)) = StatusBadRequest
  /\ (multipart_err r = None ->
      form_model_id r <> "" ->
      is_Some (models s !! form_model_id r) ->
      Size header <= maxUploadBytes ->
      exists err, fst (createJob r s) = badRequest "READ_ERROR" err
                  /\ (err = "EOF" \/ err = "unexpected EOF")).
Proof.
  intros Hf Hlen.
  destruct (io_ReadFull_short_file file 4 Hlen) as (err & f' & Hread & Herr).
  unfold createJob. rewrite Hf, Hread.
  destruct (multipart_err r) as [e |]; [split; [easy | split; easy] |].
  destruct (decide (form_model_id r = "")) as [He | He];
    [split; [easy | split; [easy | intros _ Hne; contradiction] ] |].
  destruct (models s !! form_model_id r) as [m |] eqn:Hm;
    [| split; [easy | split; [easy | intros _ _ [? ?]; discriminate] ] ].
  destruct (Z.ltb_spec maxUploadBytes (Size header)) as [Hsz | Hsz];
    [split; [easy | split; [easy | intros _ _ _ ?; lia] ] |].
  split; [easy | split; [easy |]]. intros _ _ _ _. eauto.
Qed.

End Handlers.

(** An upload for the model "orders", which the sample server does not hold. *)
Lemma unknown_model_creates_nothing_witness :
  snd (createJob (codecs := Sample.plain)
         (Sample.upload "orders" "rows.csv" Sample.two_rows)
         (Sample.server Sample.healthy))
  = Sample.server Sample.healthy
  /\ status (fst (createJob (codecs := Sample.plain)
                    (Sample.upload "orders" "rows.csv" Sample.two_rows)
                    (Sample.server Sample.healthy))) = StatusBadRequest.
Proof.
  destruct (unknown_model_creates_nothing (codecs := Sample.plain)
              (Sample.upload "orders" "rows.csv" Sample.two_rows)
              (Sample.server Sample.healthy) eq_refl)
    as (Hs & Hst & _).
  split; assumption.
Defined.

(** A three-byte upload to the sample server. *)
Lemma short_file_creates_nothing_witness :
  snd (createJob (codecs := Sample.plain)
         (Sample.upload "events" "tiny.csv" "a,b") (Sample.server Sample.healthy))
  = Sample.server Sample.healthy.
Proof.
  apply (short_file_creates_nothing (codecs := Sample.plain)
           (Sample.upload "events" "tiny.csv" "a,b") (Sample.server Sample.healthy)
           (Sample.in_memory "a,b")
           {| Filename := "tiny.csv"; Size := 3 |}).
  - reflexivity.
  - simpl. lia.
Defined.

(* ===================================================================== *)
(** ** Running a program on one record *)
(* ===================================================================== *)

Section OnRecord.
Variables (s : Sys) (js : loc).
Hypothesis Hjs : (js < length (heap s))%nat.

Lemma on_lookup j b : heap (on js j b s) !! js = Some j.
Proof. simpl. now apply list_lookup_insert_eq. Qed.

Lemma on_lookup_ne j b l : l <> js -> heap (on js j b s) !! l = heap s !! l.
Proof. intros Hl. simpl. now apply list_lookup_insert_ne. Qed.

Lemma exec_load {T} (f : Field T) j b :
  exec (load f js) (on js j b s) = (get f j, on js j b s).
Proof.
  unfold load, act, deref. simpl. unfold deref. simpl.
  now rewrite list_lookup_insert_eq.
Qed.

Lemma exec_Load_all j b :
  exec (act (RecordLoad js)) (on js j b s) = (j, on js j b s).
Proof. simpl. unfold deref. simpl. now rewrite list_lookup_insert_eq. Qed.

Lemma exec_store {T} (f : Field T) (v : T) j b :
  exec (store f js v) (on js j b s) = (tt, on js (set f v j) b s).
Proof.
  simpl. unfold on, with_heap, with_broker. simpl. do 2 f_equal.
  apply list_eq. intros i. destruct (decide (i = js)) as [-> | Hi].
  - rewrite list_lookup_alter_eq, !list_lookup_insert_eq by exact Hjs.
    reflexivity.
  - rewrite list_lookup_alter_ne, !list_lookup_insert_ne by congruence.
    reflexivity.
Qed.

Lemma exec_incr (f : Field Z) j b :
  exec (incr f js) (on js j b s) = (tt, on js (set f (int_incr (get f j)) j) b s).
Proof. unfold incr. now rewrite exec_bind, exec_load, exec_store. Qed.

Lemma exec_time_Now j b :
  exec (act time_Now) (on js j b s) = (clock s, on js j b s).
Proof. reflexivity. Qed.

Lemma exec_kafka_Dial j b :
  exec (act kafka_Dial) (on js j b s) = (dial_err b, on js j b s).
Proof. reflexivity. Qed.

Lemma exec_kafka_CreateTopics ts j b :
  exec (act (kafka_CreateTopics ts)) (on js j b s)
  = (fst (broker_create ts b), on js j (snd (broker_create ts b)) s).
Proof. simpl. now destruct (broker_create ts b). Qed.

Lemma exec_kafka_WriteMessages t m j b :
  exec (act (kafka_WriteMessages t m)) (on js j b s)
  = (fst (broker_write t m b), on js j (snd (broker_write t m b)) s).
Proof. reflexivity. Qed.

End OnRecord.

Lemma on_self (s : Sys) (js : loc) (j : JobStatus) :
  heap s !! js = Some j -> on js j (broker s) s = s.
Proof.
  intros Hj. unfold on, with_broker, with_heap. simpl.
  rewrite list_insert_id by exact Hj. now destruct s.
Qed.

Create Rewrite HintDb run.

Lemma exec_Ret {R} (r : R) (s : Sys) : exec (Ret r) s = (r, s).
Proof. reflexivity. Qed.

#[local] Hint Rewrite @exec_bind @exec_Ret : run.
#[local] Hint Rewrite @exec_load @exec_store exec_Load_all exec_incr
  exec_time_Now exec_kafka_Dial exec_kafka_CreateTopics
  exec_kafka_WriteMessages using assumption : run.

(** Symbolic execution of a straight-line program on a record. *)
Ltac run_prog := repeat (autorewrite with run; cbv beta iota zeta; cbn [get]).

(* ===================================================================== *)
(** ** Cancel requests *)
(* ===================================================================== *)

Lemma cancelJob_known (id : string) (s : Sys) (l : loc) (j : JobStatus) :
  jobs s !! id = Some l ->
  heap s !! l = Some j ->
  let j' := set FUpdatedAt (clock s)
              (set FCancelled true (set FState StateCancelled j)) in
  cancelJob id s
  = ({| status := StatusAccepted; body := JobBody (to_JSON j') |},
     with_heap (<[l := j']> (heap s)) s).
Proof.
  intros Hl Hj j'.
  assert (Hlt : (l < length (heap s))%nat) by (eapply lookup_lt_Some; eauto).
  unfold cancelJob. rewrite Hl.
  rewrite <- (on_self s l j Hj) at 1.
  unfold cancel_body. run_prog. reflexivity.
Qed.

Lemma cancelJob_unknown (id : string) (s : Sys) :
  jobs s !! id = None ->
  cancelJob id s = (notFound "JOB_NOT_FOUND" "job not found", s).
Proof. intros Hl. unfold cancelJob. now rewrite Hl. Qed.

(** C7. A cancel request for a registered job assigns CANCELLED to the
    state of its record, sets the cancelled flag and the update time,
    whatever the record held, touches no other record, and answers 202 with
    the record as just written. A cancel request for an identifier the
    registry does not hold answers 404 and leaves the state as it was. *)
Theorem cancelJob_marks_cancelled (id : string) (s : Sys) :
  (forall (l : loc) (j : JobStatus),
      jobs s !! id = Some l ->
      heap s !! l = Some j ->
      let j' := set FUpdatedAt (clock s)
                  (set FCancelled true (set FState StateCancelled j)) in
      cancelJob id s
      = ({| status := StatusAccepted; body := JobBody (to_JSON j') |},
         with_heap (<[l := j']> (heap s)) s)
      /\ State j' = StateCancelled
      /\ Cancelled j' = true
      /\ state (to_JSON j') = "CANCELLED"
      /\ forall l', l' <> l ->
           heap (snd (cancelJob id s)) !! l' = heap s !! l')
  /\ (jobs s !! id = None ->
      cancelJob id s = (notFound "JOB_NOT_FOUND" "job not found", s)).
Proof.
  split.
  - intros l j Hl Hj j'. rewrite (cancelJob_known id s l j Hl Hj).
    do 4 (split; [reflexivity |]).
    intros l' Hne. cbn [snd heap with_heap].
    apply list_lookup_insert_ne. congruence.
  - apply cancelJob_unknown.
Qed.

(** A cancel request for the job of the sample server, and one for an identifier it does not hold. *)
Lemma cancelJob_marks_cancelled_witness :
  status (fst (cancelJob Sample.first_id (Sample.one_job_registered
                                            Sample.healthy)))
  = StatusAccepted
  /\ heap (snd (cancelJob Sample.first_id
                  (Sample.one_job_registered Sample.healthy)))
     = [set FUpdatedAt 1000
          (set FCancelled true (set FState StateCancelled Sample.first_job))]
  /\ cancelJob "nosuchid" (Sample.one_job_registered Sample.healthy)
     = (notFound "JOB_NOT_FOUND" "job not found",
        Sample.one_job_registered Sample.healthy).
Proof.
  destruct (cancelJob_marks_cancelled Sample.first_id
              (Sample.one_job_registered Sample.healthy)) as [Hknown _].
  destruct (Hknown 0%nat Sample.first_job eq_refl eq_refl) as (Hrun & _).
  destruct (cancelJob_marks_cancelled "nosuchid"
              (Sample.one_job_registered Sample.healthy)) as [_ Hunknown].
  rewrite Hrun. split; [reflexivity |]. split; [reflexivity |].
  apply Hunknown. reflexivity.
Defined.

(* ===================================================================== *)
(** ** The format sniff of createJob *)
(* ===================================================================== *)

Lemma randomID_loop_frame (n : nat) (s : Sys) :
  let s' := snd (randomID_loop n s) in
  models s' = models s /\ jobs s' = jobs s /\ heap s' = heap s
  /\ goroutines s' = goroutines s /\ rand_src s' = rand_src s
  /\ rand_pos s' = (n + rand_pos s)%nat
  /\ clock s' = clock s /\ broker s' = broker s.
Proof.
  revert s. induction n as [| n IH]; intros s; simpl; [easy |].
  specialize (IH (snd (rand_Intn (Z.of_nat (String.length letters)) s))).
  destruct (randomID_loop n _) as [rest s2]. simpl in *.
  destruct IH as (-> & -> & -> & -> & -> & -> & -> & ->).
  repeat split; lia.
Qed.

Section Sniff.
Context {codecs : Codecs}.

(** What [createJob] does once the request has passed every check before
    the type detection. *)
Lemma createJob_past_checks (r : UploadRequest) (s : Sys)
    (file : File) (header : FileHeader) :
  multipart_err r = None ->
  form_model_id r <> "" ->
  is_Some (models s !! form_model_id r) ->
  form_file r = Ok (file, header) ->
  Size header <= maxUploadBytes ->
  (4 <= String.length (remaining file))%nat ->
  seek_err file = None ->
  createJob r s =
    match sniffed (substring 0 4 (remaining file)) (Filename header) with
    | Some kind =>
        accepted (form_model_id r)
          {| content := content file; offset := 0%nat; seek_err := None |}
          kind s
    | None =>
        (badRequest "UNSUPPORTED_FILE_TYPE"
           "only .csv or .parquet files are allowed", s)
    end.
Proof.
  intros Hmp Hid [m Hm] Hf Hsz Hlen Hseek.
  unfold createJob. rewrite Hmp, Hm, Hf.
  destruct (decide (form_model_id r = "")); [contradiction |].
  destruct (Z.ltb_spec maxUploadBytes (Size header)); [lia |].
  rewrite io_ReadFull_enough by exact Hlen.
  unfold Seek_start. cbn [seek_err content]. rewrite Hseek.
  fold (sniffed (substring 0 4 (remaining file)) (Filename header)).
  destruct (sniffed _ _) as [kind |]; [| reflexivity].
  unfold accepted, randomID.
  pose proof (randomID_loop_frame 8 s) as Hfr.
  destruct (randomID_loop 8 s) as [jobID s1]. cbn [fst snd] in *.
  destruct Hfr as (-> & -> & -> & -> & -> & -> & -> & ->).
  reflexivity.
Qed.

(** C5, as the code has it. For an upload that reaches the type detection
    with at least four bytes in a file that can seek: exactly four bytes are
    read ([io.ReadFull] leaves the position four bytes further); the upload
    is taken as parquet exactly when those bytes are "PAR1"; otherwise it is
    taken as csv when the extension of the file name contains ".csv" or the
    first byte is not 'P', and refused as UNSUPPORTED_FILE_TYPE, with
    nothing created, when the extension does not contain ".csv" and the
    first byte is 'P'. An accepted upload is handed to the background task
    with the position back at the start. *)
Theorem sniff_classification (r : UploadRequest) (s : Sys)
    (file : File) (header : FileHeader) :
  multipart_err r = None ->
  form_model_id r <> "" ->
  is_Some (models s !! form_model_id r) ->
  form_file r = Ok (file, header) ->
  Size header <= maxUploadBytes ->
  (4 <= String.length (remaining file))%nat ->
  seek_err file = None ->
  let buf := substring 0 4 (remaining file) in
  let ext_csv := strings_Contains (filepath_Ext (Filename header)) ".csv" in
  let started (kind : string) :=
    exists g, goroutines (snd (createJob r s)) = goroutines s ++ [g]
              /\ g_kind g = kind
              /\ content (g_file g) = content file
              /\ offset (g_file g) = 0%nat
              /\ status (fst (createJob r s)) = StatusAccepted in
  fst (io_ReadFull file 4) = Ok buf
  /\ offset (snd (io_ReadFull file 4)) = (offset file + 4)%nat
  /\ (buf = "PAR1" -> started "parquet")
  /\ (buf <> "PAR1" ->
      ext_csv = true \/ String.get 0 buf <> Some "P"%char ->
      started "csv")
  /\ (buf <> "PAR1" ->
      ext_csv = false -> String.get 0 buf = Some "P"%char ->
      createJob r s =
        (badRequest "UNSUPPORTED_FILE_TYPE"
           "only .csv or .parquet files are allowed", s)).
Proof.
  intros Hmp Hid Hm Hf Hsz Hlen Hseek buf ext_csv started.
  pose proof (createJob_past_checks r s file header Hmp Hid Hm Hf Hsz Hlen
                Hseek) as Hrun.
  fold buf in Hrun.
  rewrite io_ReadFull_enough by exact Hlen. cbn [fst snd offset].
  split; [reflexivity |]. split; [reflexivity |].
  assert (Hstart : forall kind, sniffed buf (Filename header) = Some kind ->
                                started kind).
  { intros kind Hk. unfold started. rewrite Hrun, Hk. unfold accepted.
    cbn [fst snd goroutines status]. eexists. repeat split. }
  unfold sniffed in Hrun, Hstart. fold ext_csv in Hrun, Hstart.
  split; [| split].
  - intros Hpar. apply Hstart.
    destruct (decide (buf = "PAR1")); [reflexivity | contradiction].
  - intros Hpar Hcsv. apply Hstart.
    destruct (decide (buf = "PAR1")); [contradiction |].
    destruct ext_csv; [reflexivity |]. cbn [orb].
    destruct Hcsv as [Hcsv | Hcsv]; [discriminate |].
    destruct (String.get 0 buf) as [c |]; cbn [from_option id];
      [| reflexivity].
    destruct (Ascii.eqb_spec c "P") as [-> | _]; [now contradict Hcsv |].
    reflexivity.
  - intros Hpar Hext HP. rewrite Hrun.
    destruct (decide (buf = "PAR1")); [contradiction |].
    rewrite Hext, HP. reflexivity.
Qed.

End Sniff.

(** C5 as stated fails: four leading bytes other than "PAR1" are not always
    taken as csv. An archive whose bytes start with "PK" and whose name ends
    in ".zip" is refused, and no job is created. *)
Lemma sniff_refuses_P_prefix :
  let r := Sample.upload "events" "rows.zip" "PK34rest" in
  substring 0 4 "PK34rest" <> "PAR1"
  /\ createJob (codecs := Sample.plain) r (Sample.server Sample.healthy)
     = (badRequest "UNSUPPORTED_FILE_TYPE"
          "only .csv or .parquet files are allowed",
        Sample.server Sample.healthy).
Proof. split; [discriminate | reflexivity]. Qed.

(** The two-row upload under the name rows.csv is taken as csv. *)
Lemma sniff_classification_witness :
  exists g,
    goroutines (snd (createJob (codecs := Sample.plain)
                       (Sample.upload "events" "rows.csv" Sample.two_rows)
                       (Sample.server Sample.healthy))) = [g]
    /\ g_kind g = "csv" /\ offset (g_file g) = 0%nat.
Proof.
  pose proof (sniff_classification (codecs := Sample.plain)
                (Sample.upload "events" "rows.csv" Sample.two_rows)
                (Sample.server Sample.healthy)
                (Sample.in_memory Sample.two_rows)
                {| Filename := "rows.csv"; Size := 14 |}
                eq_refl ltac:(discriminate) ltac:(now eexists) eq_refl
                ltac:(discriminate) ltac:(simpl; lia) eq_refl) as H.
  destruct H as (_ & _ & _ & Hcsv & _).
  destruct (Hcsv ltac:(discriminate) ltac:(now left))
    as (g & Hg & Hk & _ & Ho & _).
  exists g. auto.
Defined.

(* ===================================================================== *)
(** ** The background task *)
(* ===================================================================== *)


Lemma wrap64_small (z : Z) : int_min <= z <= int_max -> wrap64 z = z.
Proof.
  unfold wrap64, int_min, int_max. intros Hz.
  rewrite Z.mod_small by lia. lia.
Qed.

Lemma iter_int_incr (n : nat) (x : Z) :
  int_min <= x -> x + Z.of_nat n <= int_max ->
  Nat.iter n int_incr x = x + Z.of_nat n.
Proof.
  induction n as [| n IH]; intros Hlo Hhi; simpl; [lia |].
  rewrite IH by lia. unfold int_incr, int_add.
  rewrite wrap64_small by lia. lia.
Qed.

Lemma iter_shift {A} (f : A -> A) (n : nat) (x : A) :
  Nat.iter n f (f x) = Nat.iter (S n) f x.
Proof. induction n as [| n IH]; simpl; [reflexivity |]. now rewrite IH. Qed.

Lemma parsed_le (rl : list ReadResult) : (parsed rl <= length rl)%nat.
Proof. induction rl as [| [rec | rec err] rl IH]; simpl; lia. Qed.

Lemma parsed_map_ReadOk (recs : list (list string)) :
  parsed (map ReadOk recs) = length recs.
Proof. induction recs as [| rec recs IH]; simpl; congruence. Qed.

(** *** Writes and the logs *)

Lemma topic_log_write (t t' : string) (m : Message) (b : Broker) :
  topic_log (snd (broker_write t m b)) t' =
    if decide (t = t') then
      match write_fault b (nwrites b) t with
      | Some _ => topic_log b t'
      | None => topic_log b t' ++ [m]
      end
    else topic_log b t'.
Proof.
  unfold broker_write, topic_log at 1. simpl.
  destruct (write_fault b (nwrites b) t) as [e |]; simpl.
  - now destruct (decide (t = t')).
  - destruct (decide (t = t')) as [-> | Hne].
    + now rewrite lookup_insert_eq.
    + now rewrite lookup_insert_ne.
Qed.

Lemma topics_write_ne (t t' : string) (m : Message) (b : Broker) :
  t <> t' -> topics (snd (broker_write t m b)) !! t' = topics b !! t'.
Proof.
  intros Hne. unfold broker_write. simpl.
  destruct (write_fault b (nwrites b) t); [reflexivity |].
  now rewrite lookup_insert_ne.
Qed.

Lemma extends_refl mt dt b : extends mt dt [] [] b b.
Proof. split; rewrite ?app_nil_r; auto. Qed.

Lemma extends_trans mt dt a1 d1 a2 d2 b b1 b2 :
  extends mt dt a1 d1 b b1 -> extends mt dt a2 d2 b1 b2 ->
  extends mt dt (a1 ++ a2) (d1 ++ d2) b b2.
Proof.
  intros [] []. split; try congruence.
  - rewrite app_assoc. congruence.
  - rewrite app_assoc. congruence.
  - intros t H1 H2. rewrite ext_other1, ext_other0; auto.
  - lia.
Qed.

Lemma extends_write_main mt dt m b :
  mt <> dt ->
  extends mt dt
    (match write_fault b (nwrites b) mt with Some _ => [] | None => [m] end)
    [] b (snd (broker_write mt m b)).
Proof.
  intros Hne. split; try reflexivity.
  - rewrite topic_log_write. destruct (decide (mt = mt)); [| contradiction].
    destruct (write_fault b (nwrites b) mt); [now rewrite app_nil_r | easy].
  - rewrite topic_log_write. destruct (decide (mt = dt)); [contradiction |].
    now rewrite app_nil_r.
  - intros t H1 H2. apply topics_write_ne. congruence.
  - simpl. lia.
Qed.

Lemma extends_write_dlq mt dt m b :
  mt <> dt ->
  extends mt dt []
    (match write_fault b (nwrites b) dt with Some _ => [] | None => [m] end)
    b (snd (broker_write dt m b)).
Proof.
  intros Hne. split; try reflexivity.
  - rewrite topic_log_write. destruct (decide (dt = mt)); [congruence |].
    now rewrite app_nil_r.
  - rewrite topic_log_write. destruct (decide (dt = dt)); [| contradiction].
    destruct (write_fault b (nwrites b) dt); [now rewrite app_nil_r | easy].
  - intros t H1 H2. apply topics_write_ne. congruence.
  - simpl. lia.
Qed.

(** Projections of assigned records, computed. *)
Ltac norm_fields :=
  cbn [set get with_Totals with_Timings JobID ModelID State Totals Timings
       UpdatedAt StartedAt Cancelled Rows OK Errors WaitingMS ProcessingMS]
    in *.

Section Task.
Context {codecs : Codecs}.
Variables (s : Sys) (js : loc).
Hypothesis Hjs : (js < length (heap s))%nat.

(** *** The straight-line blocks *)

Lemma exec_begin_job j b :
  exec (begin_job js) (on js j b s)
  = (clock s,
     on js (set FUpdatedAt (clock s)
              (set FStartedAt (clock s) (set FState StateRunning j))) b s).
Proof. unfold begin_job. now run_prog. Qed.

Lemma exec_fail_job j b :
  exec (fail_job js) (on js j b s)
  = (tt, on js (set FUpdatedAt (clock s) (set FState StateFailed j)) b s).
Proof. unfold fail_job. now run_prog. Qed.

Lemma exec_resolve_state j b :
  exec (resolve_state js) (on js j b s)
  = (tt, on js (set FState (final_state (Totals j)) j) b s).
Proof.
  unfold resolve_state, final_state. run_prog.
  destruct (0 <? Errors (Totals j)) eqn:He; run_prog.
  - destruct (0 <? OK (Totals j)); run_prog; [reflexivity |].
    rewrite He. now run_prog.
  - rewrite He. now run_prog.
Qed.

Lemma exec_finish_job start j b :
  exec (finish_job js start) (on js j b s)
  = (tt,
     on js (set FUpdatedAt (clock s)
              (set FState (final_state (Totals j))
                 (set FProcessingMS
                    (Milliseconds (time_Sub (clock s) start)) j))) b s).
Proof.
  unfold finish_job. run_prog.
  rewrite exec_resolve_state. now run_prog.
Qed.

Lemma exec_sendToDLQ mt dt rowNum rawData errorMsg j b :
  mt <> dt ->
  exists dead b',
    exec (sendToDLQ js dt rowNum rawData errorMsg) (on js j b s)
    = (tt, on js j b' s)
    /\ (length dead <= 1)%nat
    /\ extends mt dt [] dead b b'.
Proof.
  intros Hne. unfold sendToDLQ. run_prog.
  destruct (json_Marshal_RejectedRow _) as [payload | e].
  - run_prog.
    eexists _, _. split; [reflexivity |].
    split; [| apply extends_write_dlq; exact Hne].
    destruct (write_fault b (nwrites b) dt); simpl; lia.
  - exists [], b. split; [reflexivity |]. split; [simpl; lia |].
    apply extends_refl.
Qed.

(** *** The row loop *)

(** What the loop over the rows does to the record and to the broker: it
    changes the totals only; [rows] advances once per record read, [ok] once
    per message the primary log acknowledged, [errors] once per other row;
    every acknowledged message comes from a record, and the dead-letter log
    takes at most one message per row counted in [errors]. When every row
    is a record that encodes and the broker acknowledges every write to the
    primary log, every row is acknowledged and the dead-letter log takes
    nothing. *)
Lemma exec_row_loop mt dt (rl : list ReadResult) :
  mt <> dt ->
  forall rowNumber j b,
  exists acked dead j' b',
    exec (row_loop js mt dt rl rowNumber) (on js j b s) = (tt, on js j' b' s)
    /\ j' = with_Totals (Totals j') j
    /\ Rows (Totals j') = Nat.iter (parsed rl) int_incr (Rows (Totals j))
    /\ OK (Totals j') = Nat.iter (length acked) int_incr (OK (Totals j))
    /\ Errors (Totals j')
       = Nat.iter (length rl - length acked) int_incr (Errors (Totals j))
    /\ (length acked <= parsed rl)%nat
    /\ (length dead <= length rl - length acked)%nat
    /\ extends mt dt acked dead b b'
    /\ ((forall k, write_fault b k mt = None) ->
        Forall (fun r => exists rec payload,
                  r = ReadOk rec /\ json_Marshal_record rec = Ok payload) rl ->
        length acked = length rl /\ dead = []).
Proof.
  intros Hne. induction rl as [| r rl' IH]; intros rowNumber j b.
  - exists [], [], j, b. cbn [row_loop parsed length Nat.iter].
    split; [reflexivity |]. split; [now destruct j |].
    do 3 (split; [reflexivity |]). do 2 (split; [lia |]).
    split; [apply extends_refl | easy].
  - pose proof (parsed_le rl') as Hple.
    destruct r as [rec | rec err]; cbn [row_loop]; run_prog.
    + (* a record *)
      destruct (json_Marshal_record rec) as [payload | e] eqn:Henc.
      * run_prog.
        match goal with
        | |- context [broker_write mt ?m0 b] => set (m := m0)
        end.
        pose proof (extends_write_main mt dt m b Hne) as Hw.
        unfold broker_write at 1. cbn [fst].
        destruct (write_fault b (nwrites b) mt) as [e |] eqn:Hfault.
        -- (* the write failed *)
           run_prog.
           edestruct (exec_sendToDLQ mt dt) as (dead1 & b1 & Hs & Hd1 & Hx1);
             [exact Hne |]. rewrite Hs. clear Hs.
           edestruct IH as (acked & dead & j' & b' & Hrun & Hj' & HR & HO & HE
                            & Ha & Hd & Hx & _).
           rewrite Hrun. clear Hrun. norm_fields.
           exists acked, (dead1 ++ dead), j', b'.
           split; [reflexivity |]. cbn [parsed length].
           split; [rewrite Hj' at 1; reflexivity |].
           split; [rewrite HR; apply iter_shift |].
           split; [exact HO |].
           split; [rewrite HE, iter_shift; f_equal; lia |].
           split; [lia |].
           split; [rewrite length_app; lia |].
           split.
           { change acked with ([] ++ [] ++ acked).
             change (dead1 ++ dead) with ([] ++ dead1 ++ dead).
             eapply extends_trans; [exact Hw |].
             eapply extends_trans; eassumption. }
           intros Hall _. rewrite Hall in Hfault. discriminate.
        -- (* the write was acknowledged *)
           run_prog.
           edestruct IH as (acked & dead & j' & b' & Hrun & Hj' & HR & HO & HE
                            & Ha & Hd & Hx & Hclean).
           rewrite Hrun. clear Hrun. norm_fields.
           exists (m :: acked), dead, j', b'.
           split; [reflexivity |]. cbn [parsed length].
           split; [rewrite Hj' at 1; reflexivity |].
           split; [rewrite HR; apply iter_shift |].
           split; [rewrite HO; apply iter_shift |].
           split; [exact HE |].
           split; [lia |].
           split; [exact Hd |].
           split.
           { change (m :: acked) with ([m] ++ acked).
             change dead with ([] ++ dead).
             eapply extends_trans; eassumption. }
           intros Hall Hrows. inversion_clear Hrows as [| ? ? _ Hrows'].
           destruct Hclean as [Hlen ->]; [| exact Hrows' | now rewrite Hlen].
           intros k. apply Hall.
      * (* the record does not encode *)
        run_prog.
        edestruct (exec_sendToDLQ mt dt) as (dead1 & b1 & Hs & Hd1 & Hx1);
          [exact Hne |]. rewrite Hs. clear Hs.
        edestruct IH as (acked & dead & j' & b' & Hrun & Hj' & HR & HO & HE
                         & Ha & Hd & Hx & _).
        rewrite Hrun. clear Hrun. norm_fields.
        exists acked, (dead1 ++ dead), j', b'.
        split; [reflexivity |]. cbn [parsed length].
        split; [rewrite Hj' at 1; reflexivity |].
        split; [rewrite HR; apply iter_shift |].
        split; [exact HO |].
        split; [rewrite HE, iter_shift; f_equal; lia |].
        split; [lia |].
        split; [rewrite length_app; lia |].
        split.
        { change acked with ([] ++ acked). eapply extends_trans; eassumption. }
        intros _ Hrows. inversion_clear Hrows as [| ? ? Hr _].
        destruct Hr as (rec' & payload & Heq & Henc').
        injection Heq as <-. congruence.
    + (* the reader reports an error *)
      edestruct (exec_sendToDLQ mt dt) as (dead1 & b1 & Hs & Hd1 & Hx1);
        [exact Hne |]. rewrite Hs. clear Hs.
      edestruct IH as (acked & dead & j' & b' & Hrun & Hj' & HR & HO & HE
                       & Ha & Hd & Hx & _).
      rewrite Hrun. clear Hrun. norm_fields.
      exists acked, (dead1 ++ dead), j', b'.
      split; [reflexivity |]. cbn [parsed length].
      split; [rewrite Hj' at 1; reflexivity |].
      split; [exact HR |].
      split; [exact HO |].
      split; [rewrite HE, iter_shift; f_equal; lia |].
      split; [lia |].
      split; [rewrite length_app; lia |].
      split.
      { change acked with ([] ++ acked). eapply extends_trans; eassumption. }
      intros _ Hrows. inversion_clear Hrows as [| ? ? Hr _].
      destruct Hr as (rec' & payload & Heq & _). discriminate.
Qed.

End Task.

(** *** The whole task *)

Lemma append_length (a b : string) :
  String.length (a +:+ b) = (String.length a + String.length b)%nat.
Proof. induction a as [| c a IH]; simpl; [reflexivity | now f_equal]. Qed.

Lemma main_topic_ne_dlq (id : string) :
  "batch_" +:+ id <> "batch_" +:+ id +:+ "_dlq".
Proof.
  intros Heq. apply (f_equal String.length) in Heq.
  rewrite !append_length in Heq. simpl in Heq. lia.
Qed.

Lemma topic_log_ensure (t t' : string) (m : gmap string (list Message)) :
  default [] (ensure_topic t m !! t') = default [] (m !! t').
Proof.
  unfold ensure_topic. destruct (m !! t) as [l |] eqn:Hl; [reflexivity |].
  destruct (decide (t = t')) as [<- | Hne].
  - now rewrite lookup_insert_eq, Hl.
  - now rewrite lookup_insert_ne.
Qed.

(** Creating topics adds empty logs at most: every log reads as before. *)
Lemma broker_create_logs (ts : list string) (b : Broker) :
  let b' := snd (broker_create ts b) in
  (forall t, topic_log b' t = topic_log b t)
  /\ dial_err b' = dial_err b /\ write_fault b' = write_fault b
  /\ nwrites b' = nwrites b.
Proof.
  unfold broker_create. destruct (create_err b); simpl; [easy |].
  split; [| easy]. intros t. unfold topic_log. simpl.
  induction ts as [| t0 ts IH]; simpl; [reflexivity |].
  now rewrite topic_log_ensure.
Qed.

Section WholeTask.
Context {codecs : Codecs}.
Variables (s : Sys) (js : loc) (j : JobStatus).
Hypothesis Hj : heap s !! js = Some j.

Let Hjs : (js < length (heap s))%nat := lookup_lt_Some _ _ _ Hj.

(** The task when the broker cannot be reached. *)
Lemma exec_processJob_unreachable f kind e :
  dial_err (broker s) = Some e ->
  exec (processJob js f kind) s
  = (tt,
     with_heap
       (<[js := set FUpdatedAt (clock s)
                  (set FState StateFailed
                     (set FUpdatedAt (clock s)
                        (set FStartedAt (clock s)
                           (set FState StateRunning j))))]> (heap s)) s).
Proof.
  intros Hdial. rewrite <- (on_self s js j Hj) at 1.
  unfold processJob. run_prog. rewrite exec_begin_job by exact Hjs.
  run_prog. rewrite Hdial, exec_fail_job by exact Hjs.
  unfold on, with_broker, with_heap. simpl. now destruct s.
Qed.

(** The task when the broker can be reached: it runs the loop over all the
    rows from the record as [begin_job] left it, and [finish_job] settles
    the state. *)
Lemma exec_processJob_reachable f kind :
  dial_err (broker s) = None ->
  let mt := "batch_" +:+ JobID j in
  let dt := "batch_" +:+ JobID j +:+ "_dlq" in
  let rl := csv_records (remaining f) in
  let j1 := set FUpdatedAt (clock s)
              (set FStartedAt (clock s) (set FState StateRunning j)) in
  let b1 := snd (broker_create [mt; dt] (broker s)) in
  forall j2 b2,
    exec (row_loop js mt dt rl 0) (on js j1 b1 s) = (tt, on js j2 b2 s) ->
    exec (processJob js f kind) s
    = (tt,
       on js (set FUpdatedAt (clock s)
                (set FState (final_state (Totals j2))
                   (set FProcessingMS
                      (Milliseconds (time_Sub (clock s) (clock s))) j2)))
          b2 s).
Proof.
  intros Hdial mt dt rl j1 b1 j2 b2 Hloop.
  rewrite <- (on_self s js j Hj) at 1.
  unfold processJob. run_prog. rewrite exec_begin_job by exact Hjs.
  run_prog. rewrite Hdial. run_prog. norm_fields.
  fold mt dt rl j1 b1. rewrite Hloop.
  now rewrite exec_finish_job by exact Hjs.
Qed.

End WholeTask.

Section TaskClaims.
Context {codecs : Codecs}.

(** C1. When the task reaches the end of the input, the state it leaves is
    the one the final counters call for: PARTIAL_SUCCESS when errors > 0 and
    ok > 0, FAILED when errors > 0 and ok = 0, SUCCESS when errors = 0. *)
Theorem terminal_state_from_counters (s : Sys) (js : loc) (j : JobStatus)
    (f : File) (kind : string) :
  heap s !! js = Some j ->
  dial_err (broker s) = None ->
  exists j',
    heap (snd (exec (processJob js f kind) s)) !! js = Some j'
    /\ State j' = final_state (Totals j')
    /\ (Errors (Totals j') > 0 /\ OK (Totals j') > 0 ->
        State j' = StatePartialSuccess)
    /\ (Errors (Totals j') > 0 /\ OK (Totals j') = 0 ->
        State j' = StateFailed)
    /\ (Errors (Totals j') = 0 -> State j' = StateSuccess).
Proof.
  intros Hj Hdial.
  assert (Hjs : (js < length (heap s))%nat) by (eapply lookup_lt_Some; eauto).
  destruct (exec_row_loop s js Hjs _ _ (csv_records (remaining f))
              (main_topic_ne_dlq (JobID j)) 0
              (set FUpdatedAt (clock s)
                 (set FStartedAt (clock s) (set FState StateRunning j)))
              (snd (broker_create ["batch_" +:+ JobID j;
                                   "batch_" +:+ JobID j +:+ "_dlq"]
                      (broker s))))
    as (acked & dead & j2 & b2 & Hloop & _).
  rewrite (exec_processJob_reachable s js j Hj f kind Hdial j2 b2 Hloop).
  eexists. split; [apply on_lookup; exact Hjs |].
  norm_fields. split; [reflexivity |]. unfold final_state.
  split; [| split].
  - intros [He Ho].
    destruct (Z.ltb_spec 0 (Errors (Totals j2))); [| lia].
    destruct (Z.ltb_spec 0 (OK (Totals j2))); [reflexivity | lia].
  - intros [He Ho].
    destruct (Z.ltb_spec 0 (Errors (Totals j2))); [| lia].
    destruct (Z.ltb_spec 0 (OK (Totals j2))); [lia | reflexivity].
  - intros He.
    destruct (Z.ltb_spec 0 (Errors (Totals j2))); [lia | reflexivity].
Qed.

(** C4. When the connection to the broker fails at the start of the task,
    the job ends FAILED with its counters as they were, all zero for a new
    job, and the broker is left as it was: no write was attempted on either
    log and no topic was created. *)
Theorem unreachable_broker_fails_job (s : Sys) (js : loc) (j : JobStatus)
    (f : File) (kind : string) (e : string) :
  heap s !! js = Some j ->
  dial_err (broker s) = Some e ->
  Totals j = {| Rows := 0; OK := 0; Errors := 0 |} ->
  let s' := snd (exec (processJob js f kind) s) in
  exists j',
    heap s' !! js = Some j'
    /\ State j' = StateFailed
    /\ Rows (Totals j') = 0 /\ OK (Totals j') = 0 /\ Errors (Totals j') = 0
    /\ broker s' = broker s
    /\ UpdatedAt j' = clock s'.
Proof.
  intros Hj Hdial Hzero s'. subst s'.
  rewrite (exec_processJob_unreachable s js j Hj f kind e Hdial).
  eexists. split.
  { simpl. apply list_lookup_insert_eq. eapply lookup_lt_Some; eauto. }
  norm_fields. rewrite Hzero. easy.
Qed.

(** C3. A new job over an input of N rows that all parse, encode and are
    acknowledged by the primary log, with the broker reachable, ends with
    rows = N, ok = N, errors = 0 and state SUCCESS; its N messages are in the
    primary log and its dead-letter log holds what it held before. *)
Theorem well_formed_upload_succeeds (s : Sys) (js : loc) (j : JobStatus)
    (f : File) (kind : string) (recs : list (list string)) :
  heap s !! js = Some j ->
  Totals j = {| Rows := 0; OK := 0; Errors := 0 |} ->
  csv_records (remaining f) = map ReadOk recs ->
  Forall (fun rec => exists payload, json_Marshal_record rec = Ok payload)
    recs ->
  Z.of_nat (length recs) <= int_max ->
  dial_err (broker s) = None ->
  (forall k, write_fault (broker s) k ("batch_" +:+ JobID j) = None) ->
  let s' := snd (exec (processJob js f kind) s) in
  let N := Z.of_nat (length recs) in
  exists j',
    heap s' !! js = Some j'
    /\ Rows (Totals j') = N /\ OK (Totals j') = N /\ Errors (Totals j') = 0
    /\ State j' = StateSuccess
    /\ topic_log (broker s') ("batch_" +:+ JobID j +:+ "_dlq")
       = topic_log (broker s) ("batch_" +:+ JobID j +:+ "_dlq")
    /\ exists acked,
         length acked = length recs
         /\ topic_log (broker s') ("batch_" +:+ JobID j)
            = topic_log (broker s) ("batch_" +:+ JobID j) ++ acked.
Proof.
  intros Hj Hzero Hcsv Henc Hmax Hdial Hack s' N. subst s'.
  assert (Hjs : (js < length (heap s))%nat) by (eapply lookup_lt_Some; eauto).
  pose proof (broker_create_logs
                ["batch_" +:+ JobID j; "batch_" +:+ JobID j +:+ "_dlq"]
                (broker s)) as (Hlogs & _ & Horacle & _).
  destruct (exec_row_loop s js Hjs _ _ (csv_records (remaining f))
              (main_topic_ne_dlq (JobID j)) 0
              (set FUpdatedAt (clock s)
                 (set FStartedAt (clock s) (set FState StateRunning j)))
              (snd (broker_create ["batch_" +:+ JobID j;
                                   "batch_" +:+ JobID j +:+ "_dlq"]
                      (broker s))))
    as (acked & dead & j2 & b2 & Hloop & _ & HR & HO & HE & _ & _ & Hx
        & Hclean).
  rewrite (exec_processJob_reachable s js j Hj f kind Hdial j2 b2 Hloop).
  destruct Hclean as [Hlen ->].
  { intros k. rewrite Horacle. apply Hack. }
  { rewrite Hcsv. apply Forall_map. eapply Forall_impl; [exact Henc |].
    intros rec [payload Hp]. simpl. eauto. }
  rewrite Hcsv, length_map in Hlen.
  rewrite Hcsv, parsed_map_ReadOk in HR. rewrite Hcsv, length_map in HE.
  norm_fields. rewrite Hzero in HR, HO, HE. norm_fields.
  rewrite Hlen in HO, HE. rewrite Nat.sub_diag in HE. simpl in HE.
  rewrite iter_int_incr in HR, HO by (unfold int_min; lia).
  eexists. split; [apply on_lookup; exact Hjs |].
  norm_fields.
  split; [rewrite HR; lia |]. split; [rewrite HO; lia |].
  split; [exact HE |].
  split; [unfold final_state; now rewrite HE |].
  destruct Hx as [Hmain Hdlq _ _ _ _ _].
  split.
  - simpl. rewrite Hdlq, app_nil_r. apply Hlogs.
  - exists acked. split; [exact Hlen |]. simpl. rewrite Hmain. f_equal.
    apply Hlogs.
Qed.

End TaskClaims.

Section RowBoundary.
Context {codecs : Codecs}.

(** The loop over [r :: rl] is one turn of the loop on [r] followed by the
    loop over [rl]. *)
Lemma exec_row_loop_cons js mt dt r rl n s :
  exec (row_loop js mt dt (r :: rl) n) s
  = exec (row_loop js mt dt rl (int_incr n))
      (snd (exec (row_loop js mt dt [r] n) s)).
Proof.
  destruct r as [rec | rec err]; cbn [row_loop].
  - rewrite !exec_bind. destruct (exec (incr FRows js) s) as [[] s1].
    destruct (json_Marshal_record rec) as [payload | e].
    + rewrite !exec_bind. destruct (exec (load FJobID js) s1) as [key s2].
      rewrite !exec_bind.
      destruct (exec (act (kafka_WriteMessages mt _)) s2) as [[e |] s3].
      * rewrite !exec_bind. destruct (exec (incr FErrors js) s3) as [[] s4].
        rewrite !exec_bind. now destruct (exec (sendToDLQ _ _ _ _ _) s4).
      * rewrite !exec_bind. now destruct (exec (incr FOK js) s3).
    + rewrite !exec_bind. destruct (exec (incr FErrors js) s1) as [[] s2].
      rewrite !exec_bind. now destruct (exec (sendToDLQ _ _ _ _ _) s2).
  - rewrite !exec_bind. destruct (exec (incr FErrors js) s) as [[] s1].
    rewrite !exec_bind. now destruct (exec (sendToDLQ _ _ _ _ _) s1).
Qed.

(** The loop over [done ++ todo] goes through the state the loop over
    [done] ends in: the states between two turns of the loop are the final
    states of the loop over the prefixes of the input. *)
Lemma exec_row_loop_app js mt dt done todo :
  forall n s,
    exec (row_loop js mt dt (done ++ todo) n) s
    = exec (row_loop js mt dt todo (Nat.iter (length done) int_incr n))
        (snd (exec (row_loop js mt dt done n) s)).
Proof.
  induction done as [| r done IH]; intros n s; [reflexivity |].
  cbn [app length]. rewrite exec_row_loop_cons, IH.
  rewrite <- iter_shift. f_equal.
  now rewrite (exec_row_loop_cons js mt dt r done n s).
Qed.

End RowBoundary.

Section CounterClaims.
Context {codecs : Codecs}.

(** C2, as the code has it. [rows] counts the records read and [ok] the
    records the primary log acknowledged. For a job whose counters start at
    zero, take any point between two turns of the row loop, or its end: the
    loop over the input [done ++ todo] goes through the state [mid] that the
    loop over [done] ends in, and in [mid] rows is the number of records
    among [done], ok the number of messages appended to the primary log, and
    errors the number of the remaining rows of [done]. So ok <= rows, and
    rows exceeds ok by the number of records that were read and not
    acknowledged (their encoding or their write failed). *)
Theorem rows_count_parsed_ok_counts_acknowledged (s : Sys) (js : loc)
    (j : JobStatus) (mt dt : string) (done todo : list ReadResult)
    (rowNumber : Z) :
  heap s !! js = Some j ->
  mt <> dt ->
  Totals j = {| Rows := 0; OK := 0; Errors := 0 |} ->
  Z.of_nat (length done) <= int_max ->
  let mid := snd (exec (row_loop js mt dt done rowNumber) s) in
  exec (row_loop js mt dt (done ++ todo) rowNumber) s
  = exec (row_loop js mt dt todo
            (Nat.iter (length done) int_incr rowNumber)) mid
  /\ exists j' acked,
       heap mid !! js = Some j'
       /\ topic_log (broker mid) mt = topic_log (broker s) mt ++ acked
       /\ (length acked <= parsed done)%nat
       /\ Rows (Totals j') = Z.of_nat (parsed done)
       /\ OK (Totals j') = Z.of_nat (length acked)
       /\ Errors (Totals j') = Z.of_nat (length done - length acked)
       /\ Rows (Totals j')
          = OK (Totals j') + Z.of_nat (parsed done - length acked)
       /\ OK (Totals j') <= Rows (Totals j').
Proof.
  intros Hj Hne Hzero Hmax mid. subst mid.
  split; [apply exec_row_loop_app |].
  assert (Hjs : (js < length (heap s))%nat) by (eapply lookup_lt_Some; eauto).
  destruct (exec_row_loop s js Hjs mt dt done Hne rowNumber j (broker s))
    as (acked & dead & j' & b' & Hloop & _ & HR & HO & HE & Ha & _ & Hx & _).
  rewrite (on_self s js j Hj) in Hloop. rewrite Hloop.
  pose proof (parsed_le done) as Hple.
  rewrite Hzero in HR, HO, HE. norm_fields.
  rewrite iter_int_incr in HR, HO, HE by (unfold int_min; lia).
  exists j', acked. split; [apply on_lookup; exact Hjs |].
  split; [simpl; apply Hx |]. split; [exact Ha |].
  rewrite HR, HO, HE. repeat split; lia.
Qed.


End CounterClaims.

(** *** Concrete runs *)

(** C2 as stated fails: with a broker that times out on the first write,
    the two-row upload ends with rows = 2 and ok = 1. *)
Lemma rows_exceed_ok_after_failed_publish :
  let s' := snd (exec (processJob (codecs := Sample.plain) 0%nat
                         (Sample.in_memory Sample.two_rows) "csv")
                   (Sample.one_job Sample.flaky)) in
  exists j', heap s' !! 0%nat = Some j'
             /\ Rows (Totals j') = 2 /\ OK (Totals j') = 1
             /\ Errors (Totals j') = 1
             /\ Rows (Totals j') <> OK (Totals j').
Proof.
  vm_compute. eexists. split; [reflexivity |]. repeat split. discriminate.
Qed.

(** C9 as stated fails: the task increments [rows] five time units after it
    picked the job up, and [updated_at] stays at the pick-up time. *)
Lemma counter_increment_keeps_updated_at :
  let upload := Sample.upload "events" "rows.csv" Sample.two_rows in
  let before :=
    snd (run (codecs := Sample.plain)
           (EvCreate upload :: repeat (EvStep 0) 10 ++ [EvTick 5%N])
           (Sample.server Sample.healthy)) in
  let after := snd (run (codecs := Sample.plain) [EvStep 0; EvStep 0] before) in
  exists j j',
    heap before !! 0%nat = Some j /\ heap after !! 0%nat = Some j'
    /\ Rows (Totals j) = 0 /\ Rows (Totals j') = 1
    /\ State j' = State j
    /\ clock after = 1005 /\ UpdatedAt j' = 1000.
Proof. vm_compute. eexists _, _. repeat split. Qed.

(** The two-row upload against a broker that fails the first write. *)
Lemma terminal_state_from_counters_witness :
  exists j',
    heap (snd (exec (processJob (codecs := Sample.plain) 0%nat
                       (Sample.in_memory Sample.two_rows) "csv")
                 (Sample.one_job Sample.flaky))) !! 0%nat = Some j'
    /\ State j' = final_state (Totals j').
Proof.
  destruct (terminal_state_from_counters (codecs := Sample.plain)
              (Sample.one_job Sample.flaky) 0%nat Sample.first_job
              (Sample.in_memory Sample.two_rows) "csv" eq_refl eq_refl)
    as (j' & Hj' & Hst & _).
  exists j'. split; assumption.
Defined.

(** The two-row upload against a broker that cannot be reached. *)
Lemma unreachable_broker_fails_job_witness :
  exists j',
    heap (snd (exec (processJob (codecs := Sample.plain) 0%nat
                       (Sample.in_memory Sample.two_rows) "csv")
                 (Sample.one_job Sample.unreachable))) !! 0%nat = Some j'
    /\ State j' = StateFailed
    /\ Rows (Totals j') = 0 /\ OK (Totals j') = 0 /\ Errors (Totals j') = 0.
Proof.
  destruct (unreachable_broker_fails_job (codecs := Sample.plain)
              (Sample.one_job Sample.unreachable) 0%nat Sample.first_job
              (Sample.in_memory Sample.two_rows) "csv"
              "dial tcp: connection refused" eq_refl eq_refl eq_refl)
    as (j' & Hj' & Hst & HR & HO & HE & _).
  exists j'. repeat split; assumption.
Defined.

(** The two-row upload against a healthy broker. *)
Lemma well_formed_upload_succeeds_witness :
  exists j',
    heap (snd (exec (processJob (codecs := Sample.plain) 0%nat
                       (Sample.in_memory Sample.two_rows) "csv")
                 (Sample.one_job Sample.healthy))) !! 0%nat = Some j'
    /\ Rows (Totals j') = 2 /\ OK (Totals j') = 2 /\ Errors (Totals j') = 0
    /\ State j' = StateSuccess.
Proof.
  destruct (well_formed_upload_succeeds (codecs := Sample.plain)
              (Sample.one_job Sample.healthy) 0%nat Sample.first_job
              (Sample.in_memory Sample.two_rows) "csv"
              [["id"; "name"]; ["1"; "ada"]]
              eq_refl eq_refl eq_refl)
    as (j' & Hj' & HR & HO & HE & Hst & _).
  - repeat constructor; eexists; reflexivity.
  - unfold int_max. simpl. lia.
  - reflexivity.
  - reflexivity.
  - exists j'. repeat split; assumption.
Defined.

(** The row loop over the two-row upload against a broker that fails the first write. *)
Lemma rows_count_parsed_ok_counts_acknowledged_witness :
  exists (j' : JobStatus) (acked : list Message),
    heap (snd (exec (row_loop (codecs := Sample.plain) 0%nat "batch_ahov29gn"
                       "batch_ahov29gn_dlq"
                       (Sample.plain_csv Sample.two_rows) 0)
                 (Sample.one_job Sample.flaky))) !! 0%nat = Some j'
    /\ Rows (Totals j') = 2
    /\ OK (Totals j') = Z.of_nat (length acked).
Proof.
  destruct (rows_count_parsed_ok_counts_acknowledged
              (codecs := Sample.plain)
              (Sample.one_job Sample.flaky) 0%nat Sample.first_job
              "batch_ahov29gn" "batch_ahov29gn_dlq"
              (Sample.plain_csv Sample.two_rows) [] 0
              eq_refl ltac:(discriminate) eq_refl
              ltac:(unfold int_max; simpl; lia))
    as (_ & j' & acked & Hj' & _ & _ & HR & HO & _).
  exists j', acked. repeat split; assumption.
Defined.


(* ===================================================================== *)
(** ** Cancel requests and the background task *)
(* ===================================================================== *)

Lemma oblivious_bind {R S} (p : Prog R) (f : R -> Prog S) :
  oblivious p -> (forall r, oblivious (f r)) -> oblivious (bind p f).
Proof.
  intros Hp Hf. induction p as [r | X a k IH]; simpl; [apply Hf |].
  destruct Hp as [Ha Hk]. split; [exact Ha |]. intros x. apply IH, Hk.
Qed.

Lemma oblivious_incr (f : Field Z) (js : loc) :
  cancel_field f = false -> oblivious (incr f js).
Proof. intros Hf. simpl. auto. Qed.

Section ObliviousTask.
Context {codecs : Codecs}.

Lemma oblivious_sendToDLQ js dt rowNum rawData errorMsg :
  oblivious (sendToDLQ js dt rowNum rawData errorMsg).
Proof.
  unfold sendToDLQ. simpl. split; [reflexivity |]. intros jobID.
  split; [reflexivity |]. intros now.
  destruct (json_Marshal_RejectedRow _); simpl; auto.
Qed.

Lemma oblivious_row_loop js mt dt rl :
  forall rowNumber, oblivious (row_loop js mt dt rl rowNumber).
Proof.
  induction rl as [| [rec | rec err] rl IH]; intros rowNumber;
    cbn [row_loop]; [exact I | |].
  - apply oblivious_bind; [now apply oblivious_incr |]. intros _.
    destruct (json_Marshal_record rec) as [payload | e].
    + apply oblivious_bind; [simpl; auto |]. intros key.
      apply oblivious_bind; [simpl; auto |]. intros [e |].
      * apply oblivious_bind; [now apply oblivious_incr |]. intros _.
        apply oblivious_bind; [apply oblivious_sendToDLQ |]. intros _.
        apply IH.
      * apply oblivious_bind; [now apply oblivious_incr |]. intros _.
        apply IH.
    + apply oblivious_bind; [now apply oblivious_incr |]. intros _.
      apply oblivious_bind; [apply oblivious_sendToDLQ |]. intros _.
      apply IH.
  - apply oblivious_bind; [now apply oblivious_incr |]. intros _.
    apply oblivious_bind; [apply oblivious_sendToDLQ |]. intros _.
    apply IH.
Qed.

Lemma oblivious_resolve_state js : oblivious (resolve_state js).
Proof.
  unfold resolve_state. apply oblivious_bind; [simpl; auto |]. intros errors.
  apply oblivious_bind.
  { destruct (0 <? errors); simpl; auto. }
  intros [|]; [simpl; auto |].
  apply oblivious_bind; [simpl; auto |]. intros errors'.
  destruct (0 <? errors'); simpl; auto.
Qed.

(** The task never reads the state, the cancelled flag or the update time
    of its record. *)
Lemma oblivious_processJob js f kind : oblivious (processJob js f kind).
Proof.
  unfold processJob. apply oblivious_bind; [simpl; auto 10 |]. intros start.
  apply oblivious_bind; [simpl; auto |]. intros id1.
  apply oblivious_bind; [simpl; auto |]. intros id2.
  apply oblivious_bind; [simpl; auto |]. intros [e |]; [simpl; auto |].
  apply oblivious_bind; [simpl; auto |]. intros _.
  apply oblivious_bind; [apply oblivious_row_loop |]. intros _.
  unfold finish_job.
  apply oblivious_bind; [simpl; auto |]. intros now.
  apply oblivious_bind; [simpl; auto |]. intros _.
  apply oblivious_bind; [apply oblivious_resolve_state |]. intros _.
  simpl. repeat split.
Qed.

End ObliviousTask.

(** *** One event on two states that differ by cancel requests *)

Lemma same_but_cancels_deref c s1 s0 l {T} (f : Field T) :
  same_but_cancels c s1 s0 -> cancel_field f = false ->
  get f (deref (heap s1) l) = get f (deref (heap s0) l).
Proof.
  intros H Hf. unfold deref.
  destruct (heap s1 !! l) as [j1 |] eqn:H1, (heap s0 !! l) as [j0 |] eqn:H0;
    simpl.
  - now apply (sbc_heap _ _ _ H l j1 j0 H1 H0).
  - apply lookup_lt_Some in H1. apply lookup_ge_None in H0.
    pose proof (sbc_length _ _ _ H). lia.
  - apply lookup_lt_Some in H0. apply lookup_ge_None in H1.
    pose proof (sbc_length _ _ _ H). lia.
  - reflexivity.
Qed.

Lemma same_but_cancel_set {T} (f : Field T) (v : T) c j1 j0 :
  same_but_cancel c j1 j0 ->
  same_but_cancel
    (if (field_tag f =? field_tag FState)%nat then false else c)
    (set f v j1) (set f v j0).
Proof.
  intros [Hpub Hst].
  pose proof (Hpub _ FJobID eq_refl). pose proof (Hpub _ FModelID eq_refl).
  pose proof (Hpub _ FRows eq_refl). pose proof (Hpub _ FOK eq_refl).
  pose proof (Hpub _ FErrors eq_refl). pose proof (Hpub _ FWaitingMS eq_refl).
  pose proof (Hpub _ FProcessingMS eq_refl).
  pose proof (Hpub _ FStartedAt eq_refl).
  split.
  - intros U g Hg.
    destruct f; destruct g; simpl in *; congruence.
  - destruct f; simpl in *; congruence.
Qed.

Lemma alter_lookup_pair {A} (g : A -> A) (js l : nat) (h1 h0 : list A)
    (x1 x0 : A) :
  alter g js h1 !! l = Some x1 -> alter g js h0 !! l = Some x0 ->
  (l = js /\ exists y1 y0, h1 !! l = Some y1 /\ h0 !! l = Some y0
                           /\ x1 = g y1 /\ x0 = g y0)
  \/ (l <> js /\ h1 !! l = Some x1 /\ h0 !! l = Some x0).
Proof.
  intros H1 H0. destruct (decide (l = js)) as [-> | Hne].
  - left. split; [reflexivity |].
    rewrite list_lookup_alter_eq in H1, H0.
    destruct (h1 !! js) as [y1 |]; [| discriminate].
    destruct (h0 !! js) as [y0 |]; [| discriminate].
    exists y1, y0. simpl in H1, H0. repeat split; congruence.
  - right. rewrite list_lookup_alter_ne in H1, H0 by congruence. auto.
Qed.

Lemma act_agree {X} (a : Act X) c s1 s0 :
  same_but_cancels c s1 s0 ->
  reads_cancel_field a = false ->
  fst (act_sem a s1) = fst (act_sem a s0)
  /\ same_but_cancels (fun l => if stores_state a l then false else c l)
       (snd (act_sem a s1)) (snd (act_sem a s0)).
Proof.
  intros H Ha. pose proof H as [Hm Hjb Hg Hsrc Hpos Hck Hb Hlen Hheap].
  destruct a as [T f js | T f js v | js | | | ts | t m]; simpl in *.
  - split; [now apply (same_but_cancels_deref c) | exact H].
  - split; [reflexivity |].
    split; simpl; try assumption.
    + now rewrite !length_alter.
    + intros l j1' j0' H1 H0.
      destruct (alter_lookup_pair _ _ _ _ _ _ _ H1 H0)
        as [(-> & j1 & j0 & E1 & E0 & -> & ->) | (Hne & E1 & E0)].
      * rewrite Nat.eqb_refl, andb_true_r.
        apply (same_but_cancel_set f v). now apply Hheap.
      * destruct (Nat.eqb_spec js l) as [-> | _]; [contradiction |].
        rewrite andb_false_r. now apply Hheap.
  - discriminate.
  - split; [exact Hck | exact H].
  - split; [now rewrite Hb | exact H].
  - rewrite Hb. destruct (broker_create ts (broker s0)) as [r b'].
    split; [reflexivity |]. split; simpl; assumption || reflexivity.
  - rewrite Hb. split; [reflexivity |].
    split; simpl; assumption || reflexivity.
Qed.

Lemma act_sem_goroutines {X} (a : Act X) (s : Sys) :
  goroutines (snd (act_sem a s)) = goroutines s.
Proof.
  destruct a; simpl; try reflexivity.
  now destruct (broker_create ts (broker s)).
Qed.

Lemma step_goroutine_agree tid c s1 s0 :
  same_but_cancels c s1 s0 -> pool_oblivious s0 ->
  fst (step_goroutine tid s1) = fst (step_goroutine tid s0)
  /\ same_but_cancels
       (fun l => match fst (step_goroutine tid s1) with
                 | Some (did _ a) => if stores_state a l then false else c l
                 | None => c l
                 end)
       (snd (step_goroutine tid s1)) (snd (step_goroutine tid s0))
  /\ pool_oblivious (snd (step_goroutine tid s0)).
Proof.
  intros H Hpool. unfold step_goroutine.
  rewrite (sbc_goroutines _ _ _ H).
  destruct (goroutines s0 !! tid) as [g |] eqn:Hg; [| now split].
  assert (Hobl : oblivious (g_code g)).
  { eapply Forall_lookup_1 in Hpool; eauto. }
  destruct (g_code g) as [r | X a k]; [now split |].
  destruct Hobl as [Ha Hk].
  destruct (act_agree a c s1 s0 H Ha) as [Hres Hsim].
  destruct (act_sem a s1) as [x1 s1'], (act_sem a s0) as [x0 s0'] eqn:Hs0.
  simpl in Hres, Hsim. subst x0. simpl.
  pose proof Hsim as [Hm Hjb Hgs Hsrc Hpos Hck Hb Hlen Hheap].
  split; [reflexivity |]. split.
  - split; simpl; try assumption. now rewrite Hgs.
  - unfold pool_oblivious. simpl. apply Forall_insert; [| apply Hk].
    pose proof (act_sem_goroutines a s0) as Hgs0.
    rewrite Hs0 in Hgs0. simpl in Hgs0. now rewrite Hgs0.
Qed.

Lemma act_sem_frame {X} (a : Act X) (s : Sys) :
  jobs (snd (act_sem a s)) = jobs s
  /\ length (heap (snd (act_sem a s))) = length (heap s).
Proof.
  destruct a; simpl; try (split; reflexivity).
  - split; [reflexivity | apply length_alter].
  - now destruct (broker_create ts (broker s)).
Qed.

Lemma step_goroutine_frame tid (s : Sys) :
  jobs (snd (step_goroutine tid s)) = jobs s
  /\ length (heap (snd (step_goroutine tid s))) = length (heap s).
Proof.
  unfold step_goroutine. destruct (goroutines s !! tid) as [g |]; [| easy].
  destruct (g_code g) as [r | X a k]; [easy |].
  pose proof (act_sem_frame a s) as Hfr.
  destruct (act_sem a s) as [x s']. exact Hfr.
Qed.

Lemma randomID_loop_with_heap n s h :
  randomID_loop n (with_heap h s)
  = (fst (randomID_loop n s), with_heap h (snd (randomID_loop n s))).
Proof.
  revert s. induction n as [| n IH]; intros s; simpl; [reflexivity |].
  change {| models := models s; jobs := jobs s; heap := h;
            goroutines := goroutines s; rand_src := rand_src s;
            rand_pos := S (rand_pos s); clock := clock s;
            broker := broker s |}
    with (with_heap h (snd (rand_Intn 36 s))).
  rewrite IH. simpl. now destruct (randomID_loop n _).
Qed.

Lemma with_heap_self (s1 s0 : Sys) :
  models s1 = models s0 -> jobs s1 = jobs s0 ->
  goroutines s1 = goroutines s0 -> rand_src s1 = rand_src s0 ->
  rand_pos s1 = rand_pos s0 -> clock s1 = clock s0 ->
  broker s1 = broker s0 ->
  s1 = with_heap (heap s1) s0.
Proof.
  destruct s1, s0. unfold with_heap. simpl. intros. now subst.
Qed.

Section Agreement.
Context {codecs : Codecs}.

(** [createJob] looks at the records only to place the new one after
    them. *)
Lemma createJob_heaps (r : UploadRequest) (s : Sys) (h1 h0 : list JobStatus) :
  length h1 = length h0 ->
  exists resp tail s',
    createJob r (with_heap h1 s) = (resp, with_heap (h1 ++ tail) s')
    /\ createJob r (with_heap h0 s) = (resp, with_heap (h0 ++ tail) s')
    /\ ((tail = [] /\ s' = s)
        \/ (exists jobID g j,
              tail = [j]
              /\ goroutines s' = goroutines s ++ [g]
              /\ oblivious (g_code g)
              /\ jobs s' = <[jobID := length h0]> (jobs s))).
Proof.
  intros Hlen.
  assert (Hrej : forall resp : Response,
    exists resp' tail s',
      (resp, with_heap h1 s) = (resp', with_heap (h1 ++ tail) s')
      /\ (resp, with_heap h0 s) = (resp', with_heap (h0 ++ tail) s')
      /\ ((tail = [] /\ s' = s)
          \/ (exists jobID g j,
                tail = [j]
                /\ goroutines s' = goroutines s ++ [g]
                /\ oblivious (g_code g)
                /\ jobs s' = <[jobID := length h0]> (jobs s)))).
  { intros resp. exists resp, [], s. rewrite !app_nil_r. auto. }
  unfold createJob. cbn [models with_heap].
  destruct (multipart_err r); [apply Hrej |].
  destruct (decide (form_model_id r = "")); [apply Hrej |].
  destruct (models s !! form_model_id r); [| apply Hrej].
  destruct (form_file r) as [[file header] | e]; [| apply Hrej].
  destruct (maxUploadBytes <? Size header); [apply Hrej |].
  destruct (io_ReadFull file 4) as [[buf | e] file']; [| apply Hrej].
  destruct (Seek_start file') as [file'' | e]; [| apply Hrej].
  match goal with
  | |- context [match ?ft with Some _ => _ | None => _ end] =>
      destruct ft as [kind |]
  end; [| apply Hrej].
  unfold randomID. rewrite !randomID_loop_with_heap.
  pose proof (randomID_loop_frame 8 s) as Hfr.
  destruct (randomID_loop 8 s) as [jobID s1]. cbn [fst snd] in *.
  destruct Hfr as (_ & Hjobs & _ & Hgs & _).
  cbn [models jobs heap goroutines rand_src rand_pos clock broker with_heap].
  rewrite Hlen.
  eexists _, [_],
    {| models := models s1; jobs := <[jobID := length h0]> (jobs s1);
       heap := [];
       goroutines := goroutines s1 ++ [_];
       rand_src := rand_src s1; rand_pos := rand_pos s1;
       clock := clock s1; broker := broker s1 |}.
  split; [reflexivity |]. split; [reflexivity |]. right.
  eexists jobID, _, _. split; [reflexivity |].
  cbn [goroutines jobs]. rewrite Hgs, Hjobs.
  split; [reflexivity |]. split; [| reflexivity].
  apply oblivious_processJob.
Qed.

Lemma createJob_agree (r : UploadRequest) c s1 s0 :
  same_but_cancels c s1 s0 -> registry_valid c s1 -> pool_oblivious s0 ->
  same_but_cancels c (snd (createJob r s1)) (snd (createJob r s0))
  /\ registry_valid c (snd (createJob r s1))
  /\ pool_oblivious (snd (createJob r s0)).
Proof.
  intros H [Hjv Hcv] Hpool.
  pose proof H as [Hm Hjb Hg Hsrc Hpos Hck Hb Hlen Hheap].
  rewrite (with_heap_self s1 s0 Hm Hjb Hg Hsrc Hpos Hck Hb).
  rewrite (with_heap_self s0 s0) at 2 4 by reflexivity.
  destruct (createJob_heaps r s0 (heap s1) (heap s0) Hlen)
    as (resp & tail & s' & -> & -> & Hcase).
  cbn [snd].
  assert (Hsim : same_but_cancels c (with_heap (heap s1 ++ tail) s')
                   (with_heap (heap s0 ++ tail) s')).
  { split; try reflexivity; cbn [heap with_heap].
    - rewrite !length_app. lia.
    - intros l j1 j0 H1 H0.
      destruct (Nat.lt_ge_cases l (length (heap s1))) as [Hl | Hl].
      + rewrite lookup_app_l in H1, H0 by lia. now apply Hheap.
      + rewrite lookup_app_r in H1, H0 by lia. rewrite Hlen in H1.
        assert (j1 = j0) as -> by congruence.
        destruct (c l) eqn:Hc; [apply Hcv in Hc; lia |].
        split; reflexivity. }
  split; [exact Hsim |].
  destruct Hcase as [[-> ->] | (jobID & g & j & -> & Hgs & Hobl & Hjobs)].
  - rewrite !app_nil_r. split; [| exact Hpool].
    split; cbn [jobs heap with_heap]; [rewrite <- Hjb |]; assumption.
  - split; [split |]; cbn [jobs heap with_heap goroutines].
    + intros id l. rewrite Hjobs, length_app. simpl.
      destruct (decide (jobID = id)) as [-> | Hne].
      * rewrite lookup_insert_eq. intros [= <-]. lia.
      * rewrite lookup_insert_ne by exact Hne. rewrite <- Hjb.
        intros Hl. apply Hjv in Hl. lia.
    + intros l Hc. apply Hcv in Hc. rewrite length_app. lia.
    + unfold pool_oblivious. cbn [goroutines with_heap]. rewrite Hgs.
      apply Forall_app. split; [exact Hpool |]. now constructor.
Qed.

Lemma cancelJob_agree (id : string) c s1 s0 :
  same_but_cancels c s1 s0 -> registry_valid c s1 ->
  same_but_cancels (mark (EvCancel id) s1 None c) (snd (cancelJob id s1)) s0
  /\ registry_valid (mark (EvCancel id) s1 None c) (snd (cancelJob id s1)).
Proof.
  intros H [Hjv Hcv].
  pose proof H as [Hm Hjb Hg Hsrc Hpos Hck Hb Hlen Hheap].
  destruct (jobs s1 !! id) as [l |] eqn:Hid.
  - pose proof (Hjv id l Hid) as Hl.
    destruct (lookup_lt_is_Some_2 _ _ Hl) as [j Hj].
    rewrite (cancelJob_known id s1 l j Hid Hj). cbn [snd].
    split; [split |]; cbn [heap with_heap jobs]; try assumption.
    + now rewrite length_insert.
    + intros l' j1 j0 H1 H0. unfold mark. rewrite Hid.
      destruct (decide (Some l = Some l')) as [[= <-] | Hne].
      * rewrite list_lookup_insert_eq in H1 by exact Hl.
        injection H1 as <-.
        destruct (Hheap l j j0 Hj H0) as [Hpub _].
        split; [| reflexivity].
        intros T f Hf. rewrite <- (Hpub T f Hf).
        destruct f; try discriminate; reflexivity.
      * rewrite list_lookup_insert_ne in H1 by congruence.
        now apply Hheap.
    + split; cbn [heap with_heap jobs]; rewrite length_insert.
      * exact Hjv.
      * intros l'. unfold mark.
        destruct (decide (jobs s1 !! id = Some l')) as [Heq | _].
        -- intros _. rewrite Hid in Heq. injection Heq as <-. exact Hl.
        -- apply Hcv.
  - rewrite (cancelJob_unknown id s1 Hid). cbn [snd].
    split; [split; try assumption | split; [exact Hjv |]].
    + intros l j1 j0 H1 H0. unfold mark. rewrite Hid.
      destruct (decide (None = Some l)); [discriminate |]. now apply Hheap.
    + intros l. unfold mark.
      destruct (decide (jobs s1 !! id = Some l)) as [Heq | _];
        [congruence | apply Hcv].
Qed.

(** An event that is not a cancel request, fired on both states. *)
Lemma fire_agree (e : Event) c s1 s0 :
  is_cancel e = false ->
  same_but_cancels c s1 s0 -> registry_valid c s1 -> pool_oblivious s0 ->
  fst (fire e s1) = fst (fire e s0)
  /\ same_but_cancels (mark e s1 (fst (fire e s1)) c)
       (snd (fire e s1)) (snd (fire e s0))
  /\ registry_valid (mark e s1 (fst (fire e s1)) c) (snd (fire e s1))
  /\ pool_oblivious (snd (fire e s0)).
Proof.
  intros He H Hv Hpool. destruct e as [tid | dt | r | id]; [| | | discriminate].
  - cbn [fire].
    destruct (step_goroutine_agree tid c s1 s0 H Hpool) as (Hd & Hsim & Hp).
    split; [exact Hd |]. split; [| split; [| exact Hp]].
    + unfold mark.
      destruct (fst (step_goroutine tid s1)) as [[X t a] |]; exact Hsim.
    + destruct Hv as [Hjv Hcv].
      destruct (step_goroutine_frame tid s1) as [Hjobs' Hlen'].
      unfold registry_valid. rewrite Hjobs', Hlen'.
      split; [exact Hjv |]. intros l. unfold mark.
      destruct (fst (step_goroutine tid s1)) as [[X t a] |]; [| apply Hcv].
      destruct (stores_state a l); [discriminate | apply Hcv].
  - cbn [fire fst snd]. pose proof H as [Hm Hjb Hg Hsrc Hpos Hck Hb Hlen Hheap].
    split; [reflexivity |]. split; [| split; [exact Hv | exact Hpool]].
    split; cbn [clock with_clock]; try assumption. now rewrite Hck.
  - cbn [fire fst snd].
    destruct (createJob_agree r c s1 s0 H Hv Hpool) as (Hsim & Hv' & Hp).
    split; [reflexivity |]. split; [exact Hsim |]. split; assumption.
Qed.

(** Any schedule, run with its cancel requests and without them from two
    states that differ by earlier cancel requests only. *)
Lemma run_agree (sched : list Event) :
  forall c s1 s0,
    same_but_cancels c s1 s0 -> registry_valid c s1 -> pool_oblivious s0 ->
    fst (run sched s1) = fst (run (without_cancels sched) s0)
    /\ same_but_cancels (cancel_wrote_last sched s1 c)
         (snd (run sched s1)) (snd (run (without_cancels sched) s0))
    /\ pool_oblivious (snd (run (without_cancels sched) s0)).
Proof.
  induction sched as [| e rest IH]; intros c s1 s0 H Hv Hpool.
  - simpl. auto.
  - destruct (is_cancel e) eqn:He.
    + destruct e as [| | | id]; try discriminate.
      destruct (cancelJob_agree id c s1 s0 H Hv) as [Hsim Hv'].
      specialize (IH _ _ _ Hsim Hv' Hpool).
      cbn [run fire cancel_wrote_last without_cancels List.filter is_cancel
           negb].
      destruct (run rest (snd (cancelJob id s1))) as [ds s2]. exact IH.
    + destruct (fire_agree e c s1 s0 He H Hv Hpool) as (Hd & Hsim & Hv' & Hp).
      specialize (IH _ _ _ Hsim Hv' Hp).
      unfold without_cancels. cbn [List.filter]. rewrite He. cbn [negb].
      fold (without_cancels rest). cbn [run cancel_wrote_last].
      destruct (fire e s1) as [d1 s1'], (fire e s0) as [d0 s0'].
      cbn [fst snd] in *. subst d0.
      destruct (run rest s1') as [ds1 s1''].
      destruct (run (without_cancels rest) s0') as [ds0 s0''].
      cbn [fst snd] in *. destruct IH as (-> & IH). auto.
Qed.

(** C8. From any initial server, along any schedule of uploads, goroutine
    steps, clock ticks and cancel requests: every goroutine is a
    [processJob] that never reads the state, the cancelled flag or the
    update time of a record; the goroutines perform the same actions, with
    the same arguments (the same messages to the broker, the same counter
    updates, the same final state assigned), as under the schedule with the
    cancel requests left out; they are at the same point of their code; the
    broker holds the same logs; every record has the same counters, timings
    and start time; and the state of a record is CANCELLED when a cancel
    request wrote it last and the state of the other run otherwise. *)
Theorem cancel_does_not_steer_task (ms : gmap string Model) (src : nat -> Z)
    (now : Z) (b : Broker) (sched : list Event) :
  let s := init_Sys ms src now b in
  let with_cancels := run sched s in
  let without := run (without_cancels sched) s in
  (forall js f kind, oblivious (processJob js f kind))
  /\ pool_oblivious (snd with_cancels)
  /\ fst with_cancels = fst without
  /\ goroutines (snd with_cancels) = goroutines (snd without)
  /\ broker (snd with_cancels) = broker (snd without)
  /\ length (heap (snd with_cancels)) = length (heap (snd without))
  /\ forall l j1 j0,
       heap (snd with_cancels) !! l = Some j1 ->
       heap (snd without) !! l = Some j0 ->
       JobID j1 = JobID j0 /\ ModelID j1 = ModelID j0
       /\ Totals j1 = Totals j0 /\ Timings j1 = Timings j0
       /\ StartedAt j1 = StartedAt j0
       /\ State j1 = (if cancel_wrote_last sched s (fun _ => false) l
                      then StateCancelled else State j0).
Proof.
  intros s with_cancels without.
  assert (Hinit : same_but_cancels (fun _ => false) s s).
  { split; try reflexivity. intros l j1 j0 H1 H0. discriminate. }
  assert (Hv : registry_valid (fun _ => false) s).
  { split; [intros id l Hl; discriminate | discriminate]. }
  assert (Hpool : pool_oblivious s) by constructor.
  destruct (run_agree sched _ s s Hinit Hv Hpool) as (Hd & Hsim & Hp).
  fold with_cancels without in Hd, Hsim, Hp.
  pose proof Hsim as [Hm Hjb Hg Hsrc Hpos Hck Hb Hlen Hheap].
  split; [intros; apply oblivious_processJob |].
  split; [unfold pool_oblivious; rewrite Hg; exact Hp |].
  do 4 (split; [assumption |]).
  intros l j1 j0 H1 H0. destruct (Hheap l j1 j0 H1 H0) as [Hpub Hst].
  pose proof (Hpub _ FJobID eq_refl). pose proof (Hpub _ FModelID eq_refl).
  pose proof (Hpub _ FRows eq_refl). pose proof (Hpub _ FOK eq_refl).
  pose proof (Hpub _ FErrors eq_refl). pose proof (Hpub _ FWaitingMS eq_refl).
  pose proof (Hpub _ FProcessingMS eq_refl).
  pose proof (Hpub _ FStartedAt eq_refl).
  simpl in *. repeat split; try assumption.
  - destruct (Totals j1), (Totals j0). simpl in *. congruence.
  - destruct (Timings j1), (Timings j0). simpl in *. congruence.
Qed.

End Agreement.

(** The two-row upload with a cancel request served while its task streams. *)
Lemma cancel_does_not_steer_task_witness :
  exists j1 j0,
    heap (snd (run (codecs := Sample.plain) Sample.cancel_mid_run
                 (Sample.server Sample.healthy))) !! 0%nat = Some j1
    /\ heap (snd (run (codecs := Sample.plain)
                    (without_cancels Sample.cancel_mid_run)
                    (Sample.server Sample.healthy))) !! 0%nat = Some j0
    /\ Totals j1 = Totals j0 /\ State j1 = State j0.
Proof.
  destruct (cancel_does_not_steer_task (codecs := Sample.plain)
              {[ "events" := Sample.events_model ]}
              (fun k => Z.of_nat k * 7) 1000 Sample.healthy
              Sample.cancel_mid_run)
    as (_ & _ & _ & _ & _ & _ & Hrec).
  eexists _, _. split; [vm_compute; reflexivity |].
  split; [vm_compute; reflexivity |].
  destruct (Hrec 0%nat _ _ ltac:(vm_compute; reflexivity)
              ltac:(vm_compute; reflexivity))
    as (_ & _ & Ht & _ & _ & Hst).
  split; [exact Ht | exact Hst].
Defined.

(** *** Two schedules of the two-row upload *)

(** A cancel request served while the task streams is overwritten by the
    final state the task assigns: the record ends SUCCESS with the cancelled
    flag set, and with the counters of the undisturbed run. *)
Example cancel_mid_run_is_overwritten :
  let s' := snd (run (codecs := Sample.plain) Sample.cancel_mid_run
                   (Sample.server Sample.healthy)) in
  exists j, heap s' !! 0%nat = Some j
            /\ State j = StateSuccess /\ Cancelled j = true
            /\ Totals j = {| Rows := 2; OK := 2; Errors := 0 |}
            /\ ProcessingMS (Timings j) = 3
            /\ map g_code (goroutines s') = [Ret tt].
Proof. vm_compute. eexists. repeat split. Qed.

(** Served after the task has finished, the cancel request is the last
    writer and the record stays CANCELLED. *)
Example cancel_after_finish_stays :
  let upload := Sample.upload "events" "rows.csv" Sample.two_rows in
  let sched := EvCreate upload :: repeat (EvStep 0) 37
               ++ [EvCancel Sample.first_id] in
  let s' := snd (run (codecs := Sample.plain) sched
                   (Sample.server Sample.healthy)) in
  exists j, heap s' !! 0%nat = Some j
            /\ State j = StateCancelled /\ Cancelled j = true
            /\ Totals j = {| Rows := 2; OK := 2; Errors := 0 |}
            /\ cancel_wrote_last (codecs := Sample.plain) sched
                 (Sample.server Sample.healthy) (fun _ => false) 0%nat = true.
Proof. vm_compute. eexists. repeat split. Qed.

(* ===================================================================== *)
(** ** The model registry *)
(* ===================================================================== *)

Lemma appended_None {A} (l : list A) : appended l = None <-> l = [].
Proof. destruct l; simpl; split; congruence. Qed.

Lemma appended_Some {A} (l l' : list A) : appended l = Some l' -> l' = l /\ l <> [].
Proof. destruct l; simpl; [discriminate |]. intros [= <-]. split; congruence. Qed.

(** X1. A model that [createModel] accepts can be read back: the answer is
    201 with the model as stored, which is the decoded model with a drawn
    identifier when it came without one; [getModel] on its identifier
    answers 200 with that same model, whether or not the identifier was
    registered before; and no other entry of the registry changes. *)
Theorem createModel_then_getModel (m : Model) (s : Sys) :
  let stored := if decide (ID m = "") then with_ID (fst (randomID s)) m
                else m in
  let s' := snd (createModel (Ok m) s) in
  fst (createModel (Ok m) s)
  = {| code := StatusCreated; payload := ModelPayload stored |}
  /\ getModel (ID stored) s'
     = {| code := StatusOK; payload := ModelPayload stored |}
  /\ (forall id, id <> ID stored -> getModel id s' = getModel id s)
  /\ jobs s' = jobs s /\ heap s' = heap s /\ goroutines s' = goroutines s
  /\ broker s' = broker s.
Proof.
  intros stored s'. subst stored s'. unfold createModel.
  destruct (decide (ID m = "")) as [He | He].
  - pose proof (randomID_loop_frame 8 s) as Hfr. unfold randomID.
    destruct (randomID_loop 8 s) as [id s1]. cbn [fst snd] in *.
    destruct Hfr as (Hm & Hj & Hh & Hg & _ & _ & _ & Hb).
    split; [reflexivity |]. unfold getModel. cbn [models with_models snd].
    split; [now rewrite lookup_insert_eq |].
    split; [| now cbn [jobs heap goroutines broker with_models];
              rewrite Hj, Hh, Hg, Hb].
    intros id' Hne. rewrite lookup_insert_ne by congruence. now rewrite Hm.
  - split; [reflexivity |]. unfold getModel. cbn [models with_models snd].
    split; [now rewrite lookup_insert_eq |].
    split; [| easy].
    intros id' Hne. now rewrite lookup_insert_ne by congruence.
Qed.

(** X2. [updateModel] checks the body before the identifier: a body that
    does not decode is answered 400 even for an unknown identifier; an
    unknown identifier is answered 404; in both cases nothing changes. For a
    registered identifier the stored model takes its identifier from the
    path, whatever the body says, it can be read back, and no other entry
    changes. *)
Theorem updateModel_cases (id : string) (s : Sys) :
  (forall err, updateModel id (Err err) s
               = (reply_of (badRequest "INVALID_JSON" err), s))
  /\ (forall updated, models s !! id = None ->
        updateModel id (Ok updated) s
        = (reply_of (notFound "MODEL_NOT_FOUND" "model not found"), s))
  /\ (forall updated, is_Some (models s !! id) ->
        let s' := snd (updateModel id (Ok updated) s) in
        fst (updateModel id (Ok updated) s)
        = {| code := StatusOK; payload := ModelPayload (with_ID id updated) |}
        /\ getModel id s'
           = {| code := StatusOK;
                payload := ModelPayload (with_ID id updated) |}
        /\ (forall id', id' <> id -> getModel id' s' = getModel id' s)
        /\ dom (models s') = dom (models s)).
Proof.
  split; [reflexivity |]. split.
  - intros updated Hid. unfold updateModel. now rewrite Hid.
  - intros updated [old Hid] s'. subst s'. unfold updateModel. rewrite Hid.
    cbn [fst snd]. split; [reflexivity |].
    unfold getModel. cbn [models with_models].
    split; [now rewrite lookup_insert_eq |]. split.
    + intros id' Hne. now rewrite lookup_insert_ne by congruence.
    + apply dom_insert_lookup_L. eauto.
Qed.

(** X3. [deleteModel] on a registered identifier answers 204 and removes
    that entry only: the identifier reads as not found afterwards, every
    other model reads as before, and the jobs, their records and their
    tasks are left alone, including those that reference the model. On an
    unknown identifier it answers 404 and changes nothing. *)
Theorem deleteModel_cases (id : string) (s : Sys) :
  (models s !! id = None ->
   deleteModel id s
   = (reply_of (notFound "MODEL_NOT_FOUND" "model not found"), s))
  /\ (is_Some (models s !! id) ->
      let s' := snd (deleteModel id s) in
      fst (deleteModel id s)
      = {| code := StatusNoContent; payload := NoPayload |}
      /\ getModel id s'
         = reply_of (notFound "MODEL_NOT_FOUND" "model not found")
      /\ (forall id', id' <> id -> getModel id' s' = getModel id' s)
      /\ (forall job, getJob job s' = getJob job s)
      /\ listJobs s' = listJobs s
      /\ goroutines s' = goroutines s).
Proof.
  split.
  - intros Hid. unfold deleteModel. now rewrite Hid.
  - intros [old Hid] s'. subst s'. unfold deleteModel. rewrite Hid.
    cbn [fst snd]. split; [reflexivity |].
    unfold getModel. cbn [models with_models].
    split; [now rewrite lookup_delete_eq |]. split; [| easy].
    intros id' Hne. now rewrite lookup_delete_ne by congruence.
Qed.

(** X4. [listModels] answers 200 with exactly the registered models, each
    entry once: a model is listed if and only if the registry holds it under
    some identifier, and the list is as long as the registry is large. For
    an empty registry the body is [null], not an empty array. *)
Theorem listModels_lists_registry (s : Sys) :
  code (listModels s) = StatusOK
  /\ (models s = ∅ -> payload (listModels s) = ModelsPayload None)
  /\ (models s <> ∅ ->
      exists l, payload (listModels s) = ModelsPayload (Some l)
                /\ length l = size (models s)
                /\ forall m, m ∈ l <-> exists id, models s !! id = Some m).
Proof.
  split; [reflexivity |]. unfold listModels. cbn [payload]. split.
  - intros ->. now rewrite map_to_list_empty.
  - intros Hne.
    destruct (appended ((map_to_list (models s)).*2)) as [l |] eqn:Hl.
    + apply appended_Some in Hl as [-> _]. eexists. split; [reflexivity |].
      split; [now rewrite length_fmap, length_map_to_list |].
      intros m. rewrite list_elem_of_fmap. split.
      * intros ([id m'] & -> & Hin). exists id.
        now apply elem_of_map_to_list in Hin.
      * intros [id Hid]. exists (id, m). split; [reflexivity |].
        now apply elem_of_map_to_list.
    + apply appended_None, fmap_nil_inv, map_to_list_empty_iff in Hl.
      contradiction.
Qed.

(* ===================================================================== *)
(** ** Identifiers, uploads and job queries *)
(* ===================================================================== *)

Lemma letter_at_in_letters (i : Z) :
  In (letter_at i) (list_ascii_of_string letters).
Proof.
  unfold letter_at. generalize (Z.to_nat i). intros n.
  do 37 (destruct n as [| n]; [vm_compute; tauto |]).
  vm_compute. tauto.
Qed.

Lemma randomID_loop_shape (n : nat) (s : Sys) :
  String.length (fst (randomID_loop n s)) = n
  /\ forall c, In c (list_ascii_of_string (fst (randomID_loop n s))) ->
               In c (list_ascii_of_string letters).
Proof.
  revert s. induction n as [| n IH]; intros s; simpl; [tauto |].
  specialize (IH (snd (rand_Intn (Z.of_nat (String.length letters)) s))).
  destruct (randomID_loop n _) as [rest s2]. cbn [fst] in *.
  destruct IH as [Hlen Hin]. split; [simpl; congruence |].
  intros c [<- | Hc]; [apply letter_at_in_letters | now apply Hin].
Qed.

Lemma randomID_length (s : Sys) : String.length (fst (randomID s)) = 8%nat.
Proof. exact (proj1 (randomID_loop_shape 8 s)). Qed.

(** X5. [randomID] returns eight characters, each a lower-case letter or a
    digit of [letters], whatever the random source yields; it draws from the
    source eight times and touches nothing else. *)
Theorem randomID_eight_letters (s : Sys) :
  String.length (fst (randomID s)) = 8%nat
  /\ (forall c, In c (list_ascii_of_string (fst (randomID s))) ->
                In c (list_ascii_of_string letters))
  /\ rand_pos (snd (randomID s)) = (8 + rand_pos s)%nat
  /\ with_heap (heap s) (snd (randomID s))
     = {| models := models s; jobs := jobs s; heap := heap s;
          goroutines := goroutines s; rand_src := rand_src s;
          rand_pos := (8 + rand_pos s)%nat; clock := clock s;
          broker := broker s |}.
Proof.
  unfold randomID. destruct (randomID_loop_shape 8 s) as [Hlen Hin].
  pose proof (randomID_loop_frame 8 s) as Hfr. cbv zeta in Hfr.
  destruct (randomID_loop 8 s) as [id s1]. cbn [fst snd] in *.
  destruct Hfr as (Hm & Hj & Hh & Hg & Hsrc & Hpos & Hck & Hb).
  repeat split; try assumption.
  unfold with_heap. now rewrite Hm, Hj, Hg, Hsrc, Hpos, Hck, Hb.
Qed.

Section Uploads.
Context {codecs : Codecs}.

(** [createJob] either accepts the upload or answers 400 or 500 and leaves
    the state as it was. *)
Lemma createJob_shape (r : UploadRequest) (s : Sys) :
  (exists file kind, createJob r s = accepted (form_model_id r) file kind s)
  \/ (snd (createJob r s) = s
      /\ (status (fst (createJob r s)) = StatusBadRequest
          \/ status (fst (createJob r s)) = StatusInternalServerError)).
Proof.
  unfold createJob.
  destruct (multipart_err r); [right; split; [| left]; reflexivity |].
  destruct (decide (form_model_id r = ""));
    [right; split; [| left]; reflexivity |].
  destruct (models s !! form_model_id r);
    [| right; split; [| left]; reflexivity].
  destruct (form_file r) as [[file header] | e];
    [| right; split; [| left]; reflexivity].
  destruct (maxUploadBytes <? Size header);
    [right; split; [| left]; reflexivity |].
  destruct (io_ReadFull file 4) as [[buf | e] file'];
    [| right; split; [| left]; reflexivity].
  destruct (Seek_start file') as [file'' | e];
    [| right; split; [| right]; reflexivity].
  match goal with
  | |- context [match ?ft with Some _ => _ | None => _ end] =>
      destruct ft as [kind |]
  end; [| right; split; [| left]; reflexivity].
  left. exists file'', kind. unfold accepted, randomID.
  pose proof (randomID_loop_frame 8 s) as Hfr.
  destruct (randomID_loop 8 s) as [jobID s1]. cbn [fst snd] in *.
  destruct Hfr as (-> & -> & -> & -> & -> & -> & -> & ->).
  reflexivity.
Qed.

(** X6. [createJob] is all or nothing. Either it answers 202 with a fresh
    eight-character identifier, and then exactly one record is allocated
    (PENDING, counters zero, stamped with the time of the request), the
    identifier is registered for it, replacing whatever job was registered
    under the same identifier, one task is started on it, and the models and
    the broker are left alone; or it answers 400 or 500 and the state of the
    process is what it was. *)
Theorem createJob_all_or_nothing (r : UploadRequest) (s : Sys) :
  let resp := fst (createJob r s) in
  let s' := snd (createJob r s) in
  (exists id g,
      resp = {| status := StatusAccepted; body := JobIDBody id |}
      /\ String.length id = 8%nat
      /\ jobs s' = <[id := length (heap s)]> (jobs s)
      /\ heap s' = heap s ++ [new_JobStatus id (form_model_id r) (clock s)]
      /\ goroutines s' = goroutines s ++ [g]
      /\ g_js g = length (heap s)
      /\ g_code g = processJob (g_js g) (g_file g) (g_kind g)
      /\ models s' = models s /\ broker s' = broker s /\ clock s' = clock s)
  \/ (s' = s
      /\ (status resp = StatusBadRequest
          \/ status resp = StatusInternalServerError)).
Proof.
  intros resp s'. subst resp s'.
  destruct (createJob_shape r s) as [(file & kind & ->) | Hrej];
    [left | right; exact Hrej].
  pose proof (randomID_length s) as Hlen.
  unfold accepted. cbn [fst snd].
  eexists _, _. split; [reflexivity |]. split; [exact Hlen |].
  repeat split.
Qed.


(** X8. The checks of [createJob] come in a fixed order, and the first one
    that fails decides the answer: a form that does not parse
    (INVALID_MULTIPART), an empty model_id (MISSING_MODEL_ID), no file part
    (MISSING_FILE), a declared size above 1 GiB (FILE_TOO_LARGE, answered
    400 before a byte of the file is read), a file that cannot seek back
    (500 INTERNAL_ERROR). *)
Theorem createJob_rejections (r : UploadRequest) (s : Sys) :
  (forall err, multipart_err r = Some err ->
     fst (createJob r s) = badRequest "INVALID_MULTIPART" err)
  /\ (multipart_err r = None -> form_model_id r = "" ->
      fst (createJob r s)
      = badRequest "MISSING_MODEL_ID" "model_id is required")
  /\ (forall err, multipart_err r = None ->
        is_Some (models s !! form_model_id r) -> form_model_id r <> "" ->
        form_file r = Err err ->
        fst (createJob r s) = badRequest "MISSING_FILE" err)
  /\ (forall file header, multipart_err r = None ->
        is_Some (models s !! form_model_id r) -> form_model_id r <> "" ->
        form_file r = Ok (file, header) ->
        maxUploadBytes < Size header ->
        fst (createJob r s)
        = badRequest "FILE_TOO_LARGE" "file exceeds 1GiB limit")
  /\ (forall file header err, multipart_err r = None ->
        is_Some (models s !! form_model_id r) -> form_model_id r <> "" ->
        form_file r = Ok (file, header) ->
        Size header <= maxUploadBytes ->
        (4 <= String.length (remaining file))%nat ->
        seek_err file = Some err ->
        fst (createJob r s) = internalError err).
Proof.
  unfold createJob. split; [intros err ->; reflexivity |].
  split.
  { intros -> ->. reflexivity. }
  split.
  { intros err -> [m ->] Hid ->.
    destruct (decide (form_model_id r = "")); [contradiction | reflexivity]. }
  split.
  { intros file header -> [m ->] Hid -> Hsz.
    destruct (decide (form_model_id r = "")); [contradiction |].
    destruct (Z.ltb_spec maxUploadBytes (Size header)); [reflexivity | lia]. }
  intros file header err -> [m ->] Hid -> Hsz Hlen Hseek.
  destruct (decide (form_model_id r = "")); [contradiction |].
  destruct (Z.ltb_spec maxUploadBytes (Size header)); [lia |].
  rewrite io_ReadFull_enough by exact Hlen.
  unfold Seek_start. cbn [seek_err]. now rewrite Hseek.
Qed.

End Uploads.


(* ===================================================================== *)
(** ** What the task writes to the two logs *)
(* ===================================================================== *)

Lemma int_incr_of_nat (pos : nat) :
  Z.of_nat (S pos) <= int_max -> int_incr (Z.of_nat pos) = Z.of_nat (S pos).
Proof.
  intros Hmax. unfold int_incr, int_add.
  rewrite wrap64_small by (unfold int_min, int_max in *; lia). lia.
Qed.

Lemma on_inj (s : Sys) (js : loc) j1 b1 j2 b2 :
  (js < length (heap s))%nat ->
  on js j1 b1 s = on js j2 b2 s -> j1 = j2 /\ b1 = b2.
Proof.
  intros Hjs Heq. split.
  - apply (f_equal (fun x => heap x !! js)) in Heq.
    rewrite !on_lookup in Heq by exact Hjs. congruence.
  - now apply (f_equal broker) in Heq.
Qed.

Section LogContents.
Context {codecs : Codecs}.
Variables (s : Sys) (js : loc).
Hypothesis Hjs : (js < length (heap s))%nat.

(** What [sendToDLQ] does: one write to the dead-letter topic when the
    entry encodes, nothing otherwise; the record is left as it is. *)
Lemma exec_sendToDLQ_exact dt rowNum rawData errorMsg j b :
  exec (sendToDLQ js dt rowNum rawData errorMsg) (on js j b s)
  = (tt,
     on js j
       match json_Marshal_RejectedRow
               {| rr_JobID := JobID j; RowNumber := rowNum;
                  RawData := rawData; Error := errorMsg;
                  Timestamp := clock s |} with
       | Ok payload =>
           snd (broker_write dt {| Key := JobID j; Value := payload |} b)
       | Err _ => b
       end s).
Proof.
  unfold sendToDLQ. run_prog.
  destruct (json_Marshal_RejectedRow _) as [payload | e]; now run_prog.
Qed.

(** The loop over the rows when every record encodes and the primary log
    acknowledges every write: the primary log takes one message per record,
    in the order of the input; and when the dead-letter log acknowledges
    every write too and the entries encode, it takes one entry per
    malformed row, in order, carrying the position of the row. *)
Lemma exec_row_loop_contents mt dt (rl : list ReadResult) :
  mt <> dt ->
  forall pos j b,
  Z.of_nat (pos + length rl) <= int_max ->
  (forall k, write_fault b k mt = None) ->
  Forall (fun rec => exists p, json_Marshal_record rec = Ok p) (records rl) ->
  exists acked dead j' b',
    exec (row_loop js mt dt rl (Z.of_nat pos)) (on js j b s)
    = (tt, on js j' b' s)
    /\ topic_log b' mt = topic_log b mt ++ acked
    /\ Forall2 (publishes (JobID j)) acked (records rl)
    /\ topic_log b' dt = topic_log b dt ++ dead
    /\ ((forall k, write_fault b k dt = None) ->
        Forall (fun row => exists p,
                  json_Marshal_RejectedRow (rejected (JobID j) (clock s) row)
                  = Ok p) (malformed_rows rl pos) ->
        Forall2 (buries (JobID j)) dead
          (map (rejected (JobID j) (clock s)) (malformed_rows rl pos))).
Proof.
  intros Hne. induction rl as [| r rl' IH]; intros pos j b Hmax Hack Henc.
  - exists [], [], j, b. cbn [row_loop records malformed_rows map].
    rewrite !app_nil_r. repeat split; constructor.
  - cbn [length] in Hmax.
    assert (Hpos : int_incr (Z.of_nat pos) = Z.of_nat (S pos))
      by (apply int_incr_of_nat; lia).
    destruct r as [rec | rec err]; cbn [row_loop records malformed_rows];
      rewrite Hpos; run_prog.
    + (* a record *)
      inversion_clear Henc as [| ? ? [payload Hp] Henc'].
      rewrite Hp. run_prog. unfold broker_write at 1. cbn [fst].
      rewrite Hack. run_prog.
      match goal with
      | |- context [broker_write mt ?m0 b] => set (m := m0)
      end.
      edestruct (IH (S pos)) as (acked & dead & j' & b' & Hrun & Hmain & Hpub
                                 & Hdlq & Hdead);
        [| | exact Henc' | rewrite Hrun; clear Hrun];
        [lia | intros k; apply Hack |].
      norm_fields.
      pose proof (extends_write_main mt dt m b Hne) as Hw.
      rewrite Hack in Hw. destruct Hw as [Hwm Hwd _ _ _ _ _].
      exists (m :: acked), dead, j', b'. split; [reflexivity |].
      split; [rewrite Hmain, Hwm, <- app_assoc; reflexivity |].
      split; [constructor; [split; [reflexivity | exact Hp] | exact Hpub] |].
      split; [rewrite Hdlq, Hwd, app_nil_r; reflexivity |].
      intros Hackd Hrej. apply Hdead; [intros k; apply Hackd | exact Hrej].
    + (* the reader reports an error *)
      rewrite exec_sendToDLQ_exact. norm_fields.
      match goal with
      | |- context [on js ?j1 ?b1 s] =>
          edestruct (IH (S pos) j1 b1)
            as (acked & dead & j' & b' & Hrun & Hmain & Hpub & Hdlq & Hdead)
      end; [lia | | exact Henc | rewrite Hrun; clear Hrun].
      { intros k. destruct (json_Marshal_RejectedRow _); apply Hack. }
      norm_fields.
      set (row := (S pos,
                   match rec with
                   | Some rec0 => strings_Join rec0 ","
                   | None => ""
                   end, err)) in *.
      change {| rr_JobID := JobID j; RowNumber := Z.of_nat (S pos);
                RawData := match rec with
                           | Some rec0 => strings_Join rec0 ","
                           | None => ""
                           end;
                Error := err; Timestamp := clock s |}
        with (rejected (JobID j) (clock s) row) in *.
      destruct (json_Marshal_RejectedRow (rejected (JobID j) (clock s) row))
        as [payload | e] eqn:Hp.
      * set (m := {| Key := JobID j; Value := payload |}) in *.
        pose proof (extends_write_dlq mt dt m b Hne) as Hw.
        destruct Hw as [Hwm Hwd _ _ _ _ _].
        exists acked,
          (match write_fault b (nwrites b) dt with
           | Some _ => []
           | None => [m]
           end ++ dead), j', b'.
        split; [reflexivity |].
        split; [rewrite Hmain, Hwm, app_nil_r; reflexivity |].
        split; [exact Hpub |].
        split; [rewrite Hdlq, Hwd, <- app_assoc; reflexivity |].
        intros Hackd Hrej. rewrite Hackd. cbn [map app].
        inversion_clear Hrej as [| ? ? _ Hrej'].
        constructor; [split; [reflexivity | exact Hp] |].
        apply Hdead; [intros k; apply Hackd | exact Hrej'].
      * exists acked, dead, j', b'. split; [reflexivity |].
        do 3 (split; [assumption |]).
        intros _ Hrej. inversion_clear Hrej as [| ? ? [p Hp'] _]. congruence.
Qed.

End LogContents.

Lemma records_length (rl : list ReadResult) : length (records rl) = parsed rl.
Proof. induction rl as [| [rec | rec err] rl IH]; simpl; congruence. Qed.

Lemma malformed_rows_length (rl : list ReadResult) (pos : nat) :
  length (malformed_rows rl pos) = (length rl - parsed rl)%nat.
Proof.
  revert pos. induction rl as [| [rec | rec err] rl IH]; intros pos; simpl;
    [reflexivity | apply IH |].
  rewrite IH. pose proof (parsed_le rl). lia.
Qed.

(** The positions of the malformed rows are increasing positions of the
    input after [pos]. *)
Lemma malformed_rows_positions (rl : list ReadResult) (pos : nat) :
  Forall (fun row => (pos < row.1.1 <= pos + length rl)%nat)
    (malformed_rows rl pos)
  /\ forall i row, malformed_rows rl pos !! i = Some row ->
       exists rec err, rl !! (row.1.1 - S pos)%nat = Some (ReadErr rec err)
                       /\ row.2 = err.
Proof.
  revert pos. induction rl as [| r rl IH]; intros pos.
  - split; [constructor | intros i row Hi; discriminate].
  - destruct (IH (S pos)) as [Hrange Hrows].
    assert (Hrange' : Forall (fun row => (pos < row.1.1
                                          <= pos + length (r :: rl))%nat)
                        (malformed_rows rl (S pos))).
    { eapply Forall_impl; [exact Hrange |]. simpl. intros row. lia. }
    assert (Hrows' : forall i row, malformed_rows rl (S pos) !! i = Some row ->
              exists rec err,
                (r :: rl) !! (row.1.1 - S pos)%nat = Some (ReadErr rec err)
                /\ row.2 = err).
    { intros i row Hi. destruct (Hrows i row Hi) as (rec & err & Hl & He).
      exists rec, err. split; [| exact He].
      eapply Forall_lookup_1 in Hrange; [| exact Hi]. simpl in Hrange.
      replace (row.1.1 - S pos)%nat with (S (row.1.1 - S (S pos)))%nat by lia.
      exact Hl. }
    destruct r as [rec | rec err]; cbn [malformed_rows].
    + split; assumption.
    + split.
      * constructor; [simpl; lia | exact Hrange'].
      * intros [| i] row Hi.
        -- injection Hi as <-. simpl. rewrite Nat.sub_diag. eauto.
        -- now apply (Hrows' i).
Qed.

Section TaskContents.
Context {codecs : Codecs}.

(** The run of the whole task when the broker can be reached, in terms of
    what the row loop does. *)
Lemma processJob_streams (s : Sys) (js : loc) (j : JobStatus) (f : File)
    (kind : string) :
  heap s !! js = Some j ->
  dial_err (broker s) = None ->
  let mt := "batch_" +:+ JobID j in
  let dt := "batch_" +:+ JobID j +:+ "_dlq" in
  let rl := csv_records (remaining f) in
  let j1 := set FUpdatedAt (clock s)
              (set FStartedAt (clock s) (set FState StateRunning j)) in
  let b1 := snd (broker_create [mt; dt] (broker s)) in
  exists acked dead j2 b2,
    exec (row_loop js mt dt rl 0) (on js j1 b1 s) = (tt, on js j2 b2 s)
    /\ exec (processJob js f kind) s
       = (tt,
          on js (set FUpdatedAt (clock s)
                   (set FState (final_state (Totals j2))
                      (set FProcessingMS
                         (Milliseconds (time_Sub (clock s) (clock s))) j2)))
             b2 s)
    /\ j2 = with_Totals (Totals j2) j1
    /\ Rows (Totals j2) = Nat.iter (parsed rl) int_incr (Rows (Totals j))
    /\ OK (Totals j2) = Nat.iter (length acked) int_incr (OK (Totals j))
    /\ Errors (Totals j2)
       = Nat.iter (length rl - length acked) int_incr (Errors (Totals j))
    /\ (length acked <= parsed rl)%nat
    /\ extends mt dt acked dead b1 b2.
Proof.
  intros Hj Hdial mt dt rl j1 b1.
  assert (Hjs : (js < length (heap s))%nat) by (eapply lookup_lt_Some; eauto).
  destruct (exec_row_loop s js Hjs mt dt rl (main_topic_ne_dlq (JobID j)) 0
              j1 b1)
    as (acked & dead & j2 & b2 & Hloop & Hj2 & HR & HO & HE & Ha & _ & Hx & _).
  exists acked, dead, j2, b2. split; [exact Hloop |].
  split; [exact (exec_processJob_reachable s js j Hj f kind Hdial j2 b2 Hloop) |].
  split; [exact Hj2 |]. split; [exact HR |]. split; [exact HO |].
  split; [exact HE |]. split; [exact Ha | exact Hx].
Qed.

(** X10. Every row the reader returns is counted once: after the task has
    run on a new job with the broker reachable, ok + errors is the number of
    rows read, whatever the broker did with the writes, and
    0 <= ok <= rows <= that number. *)
Theorem every_row_counted_once (s : Sys) (js : loc) (j : JobStatus)
    (f : File) (kind : string) :
  heap s !! js = Some j ->
  Totals j = {| Rows := 0; OK := 0; Errors := 0 |} ->
  dial_err (broker s) = None ->
  Z.of_nat (length (csv_records (remaining f))) <= int_max ->
  exists j',
    heap (snd (exec (processJob js f kind) s)) !! js = Some j'
    /\ OK (Totals j') + Errors (Totals j')
       = Z.of_nat (length (csv_records (remaining f)))
    /\ 0 <= OK (Totals j') <= Rows (Totals j')
    /\ Rows (Totals j') = Z.of_nat (parsed (csv_records (remaining f))).
Proof.
  intros Hj Hzero Hdial Hmax.
  assert (Hjs : (js < length (heap s))%nat) by (eapply lookup_lt_Some; eauto).
  destruct (processJob_streams s js j f kind Hj Hdial)
    as (acked & dead & j2 & b2 & _ & -> & _ & HR & HO & HE & Ha & _).
  pose proof (parsed_le (csv_records (remaining f))) as Hple.
  rewrite Hzero in HR, HO, HE. norm_fields.
  rewrite iter_int_incr in HR, HO, HE by (unfold int_min; lia).
  eexists. split; [apply on_lookup; exact Hjs |]. norm_fields.
  rewrite HR, HO, HE. lia.
Qed.

(** X11. A file in which no row parses fails the job: with at least one
    row, all of them malformed, a new job ends FAILED with ok = 0, rows = 0
    and errors the number of rows, whether or not the dead-letter log took
    the entries. *)
Theorem all_rows_malformed_fails (s : Sys) (js : loc) (j : JobStatus)
    (f : File) (kind : string) :
  heap s !! js = Some j ->
  Totals j = {| Rows := 0; OK := 0; Errors := 0 |} ->
  dial_err (broker s) = None ->
  Z.of_nat (length (csv_records (remaining f))) <= int_max ->
  csv_records (remaining f) <> [] ->
  parsed (csv_records (remaining f)) = 0%nat ->
  exists j',
    heap (snd (exec (processJob js f kind) s)) !! js = Some j'
    /\ State j' = StateFailed
    /\ Rows (Totals j') = 0 /\ OK (Totals j') = 0
    /\ Errors (Totals j') = Z.of_nat (length (csv_records (remaining f)))
    /\ topic_log (broker (snd (exec (processJob js f kind) s)))
         ("batch_" +:+ JobID j)
       = topic_log (broker s) ("batch_" +:+ JobID j).
Proof.
  intros Hj Hzero Hdial Hmax Hne Hnone.
  assert (Hjs : (js < length (heap s))%nat) by (eapply lookup_lt_Some; eauto).
  destruct (processJob_streams s js j f kind Hj Hdial)
    as (acked & dead & j2 & b2 & _ & -> & _ & HR & HO & HE & Ha & Hx).
  rewrite Hnone in HR, Ha. assert (acked = []) as -> by (destruct acked;
    [reflexivity | simpl in Ha; lia]).
  rewrite Hzero in HR, HO, HE. norm_fields. simpl in HR, HO.
  rewrite Nat.sub_0_r, iter_int_incr in HE by (unfold int_min; lia).
  assert (Hlen : 0 < Z.of_nat (length (csv_records (remaining f)))).
  { destruct (csv_records (remaining f)); [contradiction | simpl; lia]. }
  eexists. split; [apply on_lookup; exact Hjs |]. norm_fields.
  split.
  { unfold final_state. rewrite HE, HO.
    destruct (Z.ltb_spec 0 (0 + Z.of_nat (length (csv_records (remaining f)))));
      [reflexivity | lia]. }
  do 2 (split; [assumption |]). split; [rewrite HE; lia |].
  cbn [snd broker on with_broker]. destruct Hx as [Hmain _ _ _ _ _ _].
  rewrite Hmain, app_nil_r.
  apply (broker_create_logs
           ["batch_" +:+ JobID j; "batch_" +:+ JobID j +:+ "_dlq"] (broker s)).
Qed.

(** X12. Rows are published in the order of the input: when the broker can
    be reached, every record encodes and the primary log acknowledges every
    write, the task appends to the log of batch_<job_id> one message per
    record, keyed by the job identifier and carrying the encoding of the
    record, in the order in which the reader returned the records; the
    malformed rows in between leave no trace there. *)
Theorem rows_published_in_order (s : Sys) (js : loc) (j : JobStatus)
    (f : File) (kind : string) :
  heap s !! js = Some j ->
  dial_err (broker s) = None ->
  (forall k, write_fault (broker s) k ("batch_" +:+ JobID j) = None) ->
  Forall (fun rec => exists p, json_Marshal_record rec = Ok p)
    (records (csv_records (remaining f))) ->
  Z.of_nat (length (csv_records (remaining f))) <= int_max ->
  exists acked,
    topic_log (broker (snd (exec (processJob js f kind) s)))
      ("batch_" +:+ JobID j)
    = topic_log (broker s) ("batch_" +:+ JobID j) ++ acked
    /\ Forall2 (publishes (JobID j)) acked
         (records (csv_records (remaining f))).
Proof.
  intros Hj Hdial Hack Henc Hmax.
  assert (Hjs : (js < length (heap s))%nat) by (eapply lookup_lt_Some; eauto).
  pose proof (broker_create_logs
                ["batch_" +:+ JobID j; "batch_" +:+ JobID j +:+ "_dlq"]
                (broker s)) as (Hlogs & _ & Horacle & _).
  destruct (exec_row_loop_contents s js Hjs _ _ (csv_records (remaining f))
              (main_topic_ne_dlq (JobID j)) 0%nat
              (set FUpdatedAt (clock s)
                 (set FStartedAt (clock s) (set FState StateRunning j)))
              (snd (broker_create ["batch_" +:+ JobID j;
                                   "batch_" +:+ JobID j +:+ "_dlq"]
                      (broker s))))
    as (acked & dead & j2 & b2 & Hloop & Hmain & Hpub & _);
    [simpl; lia | intros k; rewrite Horacle; apply Hack | exact Henc |].
  rewrite (exec_processJob_reachable s js j Hj f kind Hdial j2 b2 Hloop).
  exists acked. split; [| exact Hpub].
  cbn [snd broker on with_broker]. rewrite Hmain. f_equal. apply Hlogs.
Qed.

(** The task on an input with malformed rows, when every write is
    acknowledged. *)
Lemma processJob_buries_malformed (s : Sys) (js : loc) (j : JobStatus)
    (f : File) (kind : string) :
  heap s !! js = Some j ->
  Totals j = {| Rows := 0; OK := 0; Errors := 0 |} ->
  dial_err (broker s) = None ->
  (forall k t, write_fault (broker s) k t = None) ->
  Forall (fun rec => exists p, json_Marshal_record rec = Ok p)
    (records (csv_records (remaining f))) ->
  Forall (fun row => exists p,
            json_Marshal_RejectedRow (rejected (JobID j) (clock s) row) = Ok p)
    (malformed_rows (csv_records (remaining f)) 0) ->
  Z.of_nat (length (csv_records (remaining f))) <= int_max ->
  let s' := snd (exec (processJob js f kind) s) in
  let bad := malformed_rows (csv_records (remaining f)) 0 in
  exists j' dead,
    heap s' !! js = Some j'
    /\ topic_log (broker s') ("batch_" +:+ JobID j +:+ "_dlq")
       = topic_log (broker s) ("batch_" +:+ JobID j +:+ "_dlq") ++ dead
    /\ Forall2 (buries (JobID j)) dead
         (map (rejected (JobID j) (clock s)) bad)
    /\ Errors (Totals j') = Z.of_nat (length bad)
    /\ OK (Totals j')
       = Z.of_nat (length (csv_records (remaining f)) - length bad)
    /\ State j' = final_state (Totals j')
    /\ forall i row, bad !! i = Some row ->
         exists rec err,
           csv_records (remaining f) !! (row.1.1 - 1)%nat
           = Some (ReadErr rec err)
           /\ row.2 = err.
Proof.
  intros Hj Hzero Hdial Hack Henc Hrej Hmax s' bad. subst s' bad.
  assert (Hjs : (js < length (heap s))%nat) by (eapply lookup_lt_Some; eauto).
  set (rl := csv_records (remaining f)) in *.
  set (mt := "batch_" +:+ JobID j). set (dt := "batch_" +:+ JobID j +:+ "_dlq").
  pose proof (broker_create_logs [mt; dt] (broker s))
    as (Hlogs & _ & Horacle & _).
  destruct (processJob_streams s js j f kind Hj Hdial)
    as (acked0 & dead0 & j2 & b2 & Hloop0 & Hrun & _ & _ & HO & HE & _ & Hx).
  fold rl mt dt in Hloop0, HO, HE, Hx.
  destruct (exec_row_loop_contents s js Hjs mt dt rl
              (main_topic_ne_dlq (JobID j)) 0%nat
              (set FUpdatedAt (clock s)
                 (set FStartedAt (clock s) (set FState StateRunning j)))
              (snd (broker_create [mt; dt] (broker s))))
    as (acked & dead & j2' & b2' & Hloop & Hmain & Hpub & Hdlq & Hdead);
    [simpl; lia | intros k; rewrite Horacle; apply Hack | exact Henc |].
  change (Z.of_nat 0) with 0 in Hloop. rewrite Hloop0 in Hloop.
  apply (f_equal snd) in Hloop. cbn [snd] in Hloop.
  apply on_inj in Hloop as [<- <-]; [| exact Hjs].
  destruct Hx as [Hmain0 _ _ _ _ _ _]. rewrite Hmain0 in Hmain.
  apply app_inv_head in Hmain. subst acked0.
  apply Forall2_length in Hpub. rewrite records_length in Hpub.
  rewrite Hrun. cbn [snd broker on with_broker].
  eexists _, dead. split; [apply on_lookup; exact Hjs |].
  split; [rewrite Hdlq; f_equal; apply Hlogs |].
  split.
  { apply Hdead; [intros k; rewrite Horacle; apply Hack | exact Hrej]. }
  norm_fields. rewrite malformed_rows_length.
  pose proof (parsed_le rl) as Hple.
  rewrite Hzero in HO, HE. norm_fields. rewrite Hpub in HO, HE.
  rewrite iter_int_incr in HO, HE by (unfold int_min; lia).
  rewrite HO, HE.
  split; [f_equal; lia |]. split; [f_equal; lia |]. split; [reflexivity |].
  intros i row Hi.
  destruct (malformed_rows_positions rl 0) as [_ Hrows].
  destruct (Hrows i row Hi) as (rec & err & Hl & He). eauto.
Qed.


(** X13. Malformed rows are isolated with their position. For a new job,
    with the broker reachable, every write acknowledged and every record and
    entry encoding: the task appends to the log of batch_<job_id>_dlq one
    entry per row at which the reader reported an error, in order, each with
    the job identifier, the 1-based position of the row among all rows read,
    the text of the row and the error of the reader; errors is the number
    of these rows and ok the number of the others. *)
Theorem malformed_rows_are_dead_lettered (s : Sys) (js : loc) (j : JobStatus)
    (f : File) (kind : string) :
  heap s !! js = Some j ->
  Totals j = {| Rows := 0; OK := 0; Errors := 0 |} ->
  dial_err (broker s) = None ->
  (forall k t, write_fault (broker s) k t = None) ->
  Forall (fun rec => exists p, json_Marshal_record rec = Ok p)
    (records (csv_records (remaining f))) ->
  Forall (fun row => exists p,
            json_Marshal_RejectedRow (rejected (JobID j) (clock s) row) = Ok p)
    (malformed_rows (csv_records (remaining f)) 0) ->
  Z.of_nat (length (csv_records (remaining f))) <= int_max ->
  let s' := snd (exec (processJob js f kind) s) in
  let bad := malformed_rows (csv_records (remaining f)) 0 in
  exists j' dead,
    heap s' !! js = Some j'
    /\ topic_log (broker s') ("batch_" +:+ JobID j +:+ "_dlq")
       = topic_log (broker s) ("batch_" +:+ JobID j +:+ "_dlq") ++ dead
    /\ Forall2 (buries (JobID j)) dead
         (map (rejected (JobID j) (clock s)) bad)
    /\ Errors (Totals j') = Z.of_nat (length bad)
    /\ OK (Totals j')
       = Z.of_nat (length (csv_records (remaining f)) - length bad)
    /\ State j' = final_state (Totals j')
    /\ forall i row, bad !! i = Some row ->
         exists rec err,
           csv_records (remaining f) !! (row.1.1 - 1)%nat
           = Some (ReadErr rec err)
           /\ row.2 = err.
Proof. apply processJob_buries_malformed. Qed.

End TaskContents.

Lemma broker_create_other (ts : list string) (b : Broker) (t : string) :
  t ∉ ts -> topics (snd (broker_create ts b)) !! t = topics b !! t.
Proof.
  unfold broker_create. destruct (create_err b); [reflexivity |]. simpl.
  induction ts as [| t0 ts IH]; intros Hnot; simpl; [reflexivity |].
  apply not_elem_of_cons in Hnot as [Hne Hnot].
  unfold ensure_topic at 1.
  destruct (foldr ensure_topic (topics b) ts !! t0); [now apply IH |].
  rewrite lookup_insert_ne by congruence. now apply IH.
Qed.

Section TaskFrame.
Context {codecs : Codecs}.

(** What the task leaves alone. *)
Lemma task_frame (s : Sys) (js : loc) (j : JobStatus)
    (f : File) (kind : string) :
  heap s !! js = Some j ->
  let s' := snd (exec (processJob js f kind) s) in
  models s' = models s /\ jobs s' = jobs s /\ goroutines s' = goroutines s
  /\ rand_pos s' = rand_pos s
  /\ length (heap s') = length (heap s)
  /\ (forall l, l <> js -> heap s' !! l = heap s !! l)
  /\ (exists j', heap s' !! js = Some j'
                 /\ JobID j' = JobID j /\ ModelID j' = ModelID j
                 /\ Cancelled j' = Cancelled j
                 /\ WaitingMS (Timings j') = WaitingMS (Timings j))
  /\ (forall t, t <> "batch_" +:+ JobID j ->
                t <> "batch_" +:+ JobID j +:+ "_dlq" ->
                topics (broker s') !! t = topics (broker s) !! t).
Proof.
  intros Hj s'. subst s'.
  assert (Hjs : (js < length (heap s))%nat) by (eapply lookup_lt_Some; eauto).
  destruct (dial_err (broker s)) as [e |] eqn:Hdial.
  - rewrite (exec_processJob_unreachable s js j Hj f kind e Hdial).
    cbn [snd models jobs goroutines rand_pos heap broker with_heap].
    do 4 (split; [reflexivity |]). split; [apply length_insert |].
    split; [intros l Hl; now apply list_lookup_insert_ne |].
    split; [| reflexivity].
    eexists. split; [now apply list_lookup_insert_eq |]. repeat split.
  - destruct (processJob_streams s js j f kind Hj Hdial)
      as (acked & dead & j2 & b2 & _ & -> & Hj2 & _ & _ & _ & _ & Hx).
    cbn [snd models jobs goroutines rand_pos heap broker on with_heap
         with_broker].
    do 4 (split; [reflexivity |]). split; [apply length_insert |].
    split; [intros l Hl; now apply list_lookup_insert_ne |].
    split.
    + eexists. split; [now apply list_lookup_insert_eq |].
      rewrite Hj2. repeat split.
    + intros t H1 H2. destruct Hx as [_ _ Hother _ _ _ _].
      rewrite (Hother t H1 H2). apply broker_create_other.
      rewrite !elem_of_cons, elem_of_nil. tauto.
Qed.


(** X14. A task keeps to its own job: whatever the input and the broker
    do, it leaves the registries, the other goroutines, the random source
    and every other record as they are, it never changes the identifier,
    the model, the cancelled flag or waiting_ms of its own record, and it
    writes to no topic but batch_<job_id> and batch_<job_id>_dlq. *)
Theorem task_keeps_to_its_job (s : Sys) (js : loc) (j : JobStatus)
    (f : File) (kind : string) :
  heap s !! js = Some j ->
  let s' := snd (exec (processJob js f kind) s) in
  models s' = models s /\ jobs s' = jobs s /\ goroutines s' = goroutines s
  /\ rand_pos s' = rand_pos s
  /\ length (heap s') = length (heap s)
  /\ (forall l, l <> js -> heap s' !! l = heap s !! l)
  /\ (exists j', heap s' !! js = Some j'
                 /\ JobID j' = JobID j /\ ModelID j' = ModelID j
                 /\ Cancelled j' = Cancelled j
                 /\ WaitingMS (Timings j') = WaitingMS (Timings j))
  /\ (forall t, t <> "batch_" +:+ JobID j ->
                t <> "batch_" +:+ JobID j +:+ "_dlq" ->
                topics (broker s') !! t = topics (broker s) !! t).
Proof. apply task_frame. Qed.

End TaskFrame.

(* ===================================================================== *)
(** ** The dead-letter query *)
(* ===================================================================== *)

Section Draining.
Context {decoders : Decoders}.

Lemma decoded_app (l1 l2 : list Message) :
  decoded (l1 ++ l2) = decoded l1 ++ decoded l2.
Proof.
  induction l1 as [| m l1 IH]; simpl; [reflexivity |].
  destruct (json_Unmarshal_RejectedRow (Value m)); [| exact IH].
  now rewrite IH.
Qed.

(** The loop in closed form, for any slice [rows] built so far. *)
Lemma drain_closed_form (budget : nat) (at_select : bool)
    (pending : list Message) (rows : list RejectedRow) :
  drain budget at_select pending (appended rows)
  = if at_select && (budget <=? length pending)%nat
    then appended (rows ++ decoded (take budget pending))
    else Some (rows ++ decoded (take budget pending)).
Proof.
  revert pending rows.
  induction budget as [| budget IH]; intros pending rows.
  - cbn [drain take decoded]. rewrite app_nil_r, andb_true_r.
    destruct at_select; [reflexivity |]. now destruct rows.
  - destruct pending as [| msg pending]; cbn [drain take decoded length].
    + rewrite andb_false_r, app_nil_r. now destruct rows.
    + change (S budget <=? S (length pending))%nat
        with (budget <=? length pending)%nat.
      destruct (json_Unmarshal_RejectedRow (Value msg)) as [r | e].
      * replace (Some (default [] (appended rows) ++ [r]))
          with (appended (rows ++ [r]))
          by (destruct rows; reflexivity).
        rewrite IH, <- !app_assoc. reflexivity.
      * apply IH.
Qed.

(** X15. The dead-letter query in closed form. For a registered job it
    answers 200 with the entries that decode among the first [fetches]
    messages of the log of batch_<job_id>_dlq, in the order of the log,
    skipping the ones that do not decode. The body is [null] only when the
    deadline is noticed at the [select] and no entry was collected; an
    empty or missing log read to its end gives an empty array. The query
    draws one identifier for its consumer group and changes nothing else:
    the logs are as before. For an unknown job it answers 404 before it
    draws or reads anything. *)
Theorem rejectedRows_closed_form (jobId : string) (d : Deadline) (s : Sys) :
  (jobs s !! jobId = None ->
   rejectedRows jobId d s
   = (reply_of (notFound "JOB_NOT_FOUND" "job not found"), s))
  /\ (is_Some (jobs s !! jobId) ->
      let log := topic_log (broker s) ("batch_" +:+ jobId +:+ "_dlq") in
      let got := decoded (take (fetches d) log) in
      fst (rejectedRows jobId d s)
      = {| code := StatusOK;
           payload := RejectedPayload
             (if at_select d && (fetches d <=? length log)%nat
              then appended got else Some got) |}
      /\ snd (rejectedRows jobId d s) = snd (randomID s)
      /\ broker (snd (rejectedRows jobId d s)) = broker s
      /\ heap (snd (rejectedRows jobId d s)) = heap s
      /\ jobs (snd (rejectedRows jobId d s)) = jobs s).
Proof.
  split.
  - intros Hid. unfold rejectedRows. now rewrite Hid.
  - intros [l Hid] log got. subst log got. unfold rejectedRows. rewrite Hid.
    pose proof (randomID_loop_frame 8 s) as Hfr. cbv zeta in Hfr.
    unfold randomID. destruct (randomID_loop 8 s) as [gid s1].
    cbn [fst snd] in *. destruct Hfr as (_ & Hj & Hh & _ & _ & _ & _ & Hb).
    rewrite Hb. split; [| easy].
    now rewrite (drain_closed_form (fetches d) (at_select d) _ []).
Qed.

End Draining.

Section QueryAfterTask.
Context {codecs : Codecs} {decoders : Decoders}.

Lemma decoded_buried (jobID : string) (dead : list Message)
    (rows : list RejectedRow) :
  Forall2 (buries jobID) dead rows ->
  Forall (fun r => forall p, json_Marshal_RejectedRow r = Ok p ->
                             json_Unmarshal_RejectedRow p = Ok r) rows ->
  decoded dead = rows.
Proof.
  induction 1 as [| m r dead rows [_ Hm] _ IH]; intros Hrt; [reflexivity |].
  inversion_clear Hrt as [| ? ? Hr Hrt']. cbn [decoded].
  rewrite (Hr _ Hm). f_equal. now apply IH.
Qed.

(** X16. The dead-letter query after the task. For a new registered job
    whose dead-letter log is empty, with the broker reachable, every write
    acknowledged, every record and entry encoding, and entries that decode
    back to themselves: once the task has run, a query that is given time
    to read the log to its end answers 200 with exactly one entry per
    malformed row, in order, whose row_number is the 1-based position of
    that row in the input. *)
Theorem dead_letter_query_after_task (s : Sys) (js : loc) (j : JobStatus)
    (f : File) (kind : string) (d : Deadline) :
  heap s !! js = Some j ->
  jobs s !! JobID j = Some js ->
  Totals j = {| Rows := 0; OK := 0; Errors := 0 |} ->
  dial_err (broker s) = None ->
  (forall k t, write_fault (broker s) k t = None) ->
  topic_log (broker s) ("batch_" +:+ JobID j +:+ "_dlq") = [] ->
  Forall (fun rec => exists p, json_Marshal_record rec = Ok p)
    (records (csv_records (remaining f))) ->
  Forall (fun row =>
            (exists p, json_Marshal_RejectedRow
                         (rejected (JobID j) (clock s) row) = Ok p)
            /\ forall p, json_Marshal_RejectedRow
                           (rejected (JobID j) (clock s) row) = Ok p ->
                         json_Unmarshal_RejectedRow p
                         = Ok (rejected (JobID j) (clock s) row))
    (malformed_rows (csv_records (remaining f)) 0) ->
  Z.of_nat (length (csv_records (remaining f))) <= int_max ->
  (length (malformed_rows (csv_records (remaining f)) 0) < fetches d)%nat ->
  let s' := snd (exec (processJob js f kind) s) in
  let bad := malformed_rows (csv_records (remaining f)) 0 in
  fst (rejectedRows (JobID j) d s')
  = {| code := StatusOK;
       payload := RejectedPayload
         (Some (map (rejected (JobID j) (clock s)) bad)) |}
  /\ forall i r,
       map (rejected (JobID j) (clock s)) bad !! i = Some r ->
       rr_JobID r = JobID j
       /\ exists rec err,
            csv_records (remaining f) !! (Z.to_nat (RowNumber r) - 1)%nat
            = Some (ReadErr rec err)
            /\ Error r = err.
Proof.
  intros Hj Hreg Hzero Hdial Hack Hempty Henc Hrows Hmax Hfetch s' bad.
  subst s' bad.
  destruct (processJob_buries_malformed s js j f kind Hj Hzero Hdial Hack Henc)
    as (j' & dead & _ & Hlog & Hbur & _); [| exact Hmax |].
  { eapply Forall_impl; [exact Hrows |]. intros row [He _]. exact He. }
  rewrite Hempty in Hlog. cbn [app] in Hlog.
  assert (Hdec : decoded dead
                 = map (rejected (JobID j) (clock s))
                     (malformed_rows (csv_records (remaining f)) 0)).
  { apply (decoded_buried (JobID j)); [exact Hbur |].
    apply Forall_map. eapply Forall_impl; [exact Hrows |].
    intros row [_ Hrt]. exact Hrt. }
  assert (Hlen : length dead
                 = length (malformed_rows (csv_records (remaining f)) 0)).
  { apply Forall2_length in Hbur. now rewrite length_map in Hbur. }
  destruct (task_frame s js j f kind Hj) as (_ & Hjobs & _).
  split.
  - unfold rejectedRows. rewrite Hjobs, Hreg.
    pose proof (randomID_loop_frame 8 (snd (exec (processJob js f kind) s)))
      as Hfr. cbv zeta in Hfr. unfold randomID.
    destruct (randomID_loop 8 _) as [gid s1]. cbn [fst snd] in *.
    destruct Hfr as (_ & _ & _ & _ & _ & _ & _ & Hb).
    rewrite Hb, Hlog.
    rewrite (drain_closed_form (fetches d) (at_select d) dead []).
    rewrite take_ge by lia. cbn [app].
    destruct (Nat.leb_spec (fetches d) (length dead)); [lia |].
    rewrite andb_false_r. now rewrite Hdec.
  - intros i r Hi. rewrite list_lookup_fmap in Hi.
    destruct (malformed_rows (csv_records (remaining f)) 0 !! i)
      as [row |] eqn:Hrow; [| discriminate].
    injection Hi as <-. split; [reflexivity |].
    destruct (malformed_rows_positions (csv_records (remaining f)) 0)
      as [_ Hpos].
    destruct (Hpos i row Hrow) as (rec & err & Hl & He).
    exists rec, err. cbn [rejected RowNumber Error]. rewrite Nat2Z.id. eauto.
Qed.

End QueryAfterTask.

(* ===================================================================== *)
(** ** What holds for as long as the process runs *)
(* ===================================================================== *)

Lemma keeps_refl (j : JobStatus) : keeps j j.
Proof. repeat split; auto. Qed.

Lemma keeps_trans (j1 j2 j3 : JobStatus) :
  keeps j1 j2 -> keeps j2 j3 -> keeps j1 j3.
Proof.
  intros (H1 & H2 & H3 & H4) (H1' & H2' & H3' & H4').
  repeat split; try congruence. auto.
Qed.

Lemma evolves_refl (s : Sys) : evolves s s.
Proof.
  split; [auto |]. split; [| lia].
  intros l j Hj. exists j. split; [exact Hj | apply keeps_refl].
Qed.

Lemma evolves_same (s s' : Sys) :
  jobs s' = jobs s -> heap s' = heap s -> goroutines s' = goroutines s ->
  evolves s s'.
Proof.
  intros Hj Hh Hg. unfold evolves. rewrite Hj, Hh, Hg.
  apply evolves_refl.
Qed.

Lemma evolves_trans (s1 s2 s3 : Sys) :
  evolves s1 s2 -> evolves s2 s3 -> evolves s1 s3.
Proof.
  intros (Hj & Hh & Hg) (Hj' & Hh' & Hg'). split; [auto |]. split; [| lia].
  intros l j Hl. destruct (Hh l j Hl) as (j2 & Hl2 & Hk).
  destruct (Hh' l j2 Hl2) as (j3 & Hl3 & Hk').
  exists j3. split; [exact Hl3 | eapply keeps_trans; eauto].
Qed.

Lemma keeps_set {T} (f : Field T) (v : T) (j : JobStatus) :
  task_field f = true -> keeps j (set f v j).
Proof. destruct f; try discriminate; intros _; repeat split; auto. Qed.

Lemma tame_bind {R S} (p : Prog R) (f : R -> Prog S) :
  tame p -> (forall r, tame (f r)) -> tame (bind p f).
Proof.
  intros Hp Hf. induction p as [r | X a k IH]; simpl; [apply Hf |].
  destruct Hp as [Ha Hk]. split; [exact Ha |]. intros x. apply IH, Hk.
Qed.

Lemma tame_incr (f : Field Z) (js : loc) :
  task_field f = true -> tame (incr f js).
Proof. intros Hf. simpl. auto. Qed.

Section TameTask.
Context {codecs : Codecs}.

Lemma tame_sendToDLQ js dt rowNum rawData errorMsg :
  tame (sendToDLQ js dt rowNum rawData errorMsg).
Proof.
  unfold sendToDLQ. simpl. split; [reflexivity |]. intros jobID.
  split; [reflexivity |]. intros now.
  destruct (json_Marshal_RejectedRow _); simpl; auto.
Qed.

Lemma tame_row_loop js mt dt rl :
  forall rowNumber, tame (row_loop js mt dt rl rowNumber).
Proof.
  induction rl as [| [rec | rec err] rl IH]; intros rowNumber;
    cbn [row_loop]; [exact I | |].
  - apply tame_bind; [now apply tame_incr |]. intros _.
    destruct (json_Marshal_record rec) as [payload | e].
    + apply tame_bind; [simpl; auto |]. intros key.
      apply tame_bind; [simpl; auto |]. intros [e |].
      * apply tame_bind; [now apply tame_incr |]. intros _.
        apply tame_bind; [apply tame_sendToDLQ |]. intros _. apply IH.
      * apply tame_bind; [now apply tame_incr |]. intros _. apply IH.
    + apply tame_bind; [now apply tame_incr |]. intros _.
      apply tame_bind; [apply tame_sendToDLQ |]. intros _. apply IH.
  - apply tame_bind; [now apply tame_incr |]. intros _.
    apply tame_bind; [apply tame_sendToDLQ |]. intros _. apply IH.
Qed.

Lemma tame_resolve_state js : tame (resolve_state js).
Proof.
  unfold resolve_state. apply tame_bind; [simpl; auto |]. intros errors.
  apply tame_bind.
  { destruct (0 <? errors); simpl; auto. }
  intros [|]; [simpl; auto |].
  apply tame_bind; [simpl; auto |]. intros errors'.
  destruct (0 <? errors'); simpl; auto.
Qed.

(** The task assigns the state, the counters, the processing time and the
    two timestamps of its record, and no other field. *)
Lemma tame_processJob js f kind : tame (processJob js f kind).
Proof.
  unfold processJob. apply tame_bind; [simpl; auto 10 |]. intros start.
  apply tame_bind; [simpl; auto |]. intros id1.
  apply tame_bind; [simpl; auto |]. intros id2.
  apply tame_bind; [simpl; auto |]. intros [e |]; [simpl; auto |].
  apply tame_bind; [simpl; auto |]. intros _.
  apply tame_bind; [apply tame_row_loop |]. intros _.
  unfold finish_job.
  apply tame_bind; [simpl; auto |]. intros now.
  apply tame_bind; [simpl; auto |]. intros _.
  apply tame_bind; [apply tame_resolve_state |]. intros _.
  simpl. repeat split.
Qed.

End TameTask.

(** One action of a tame program. *)
Lemma act_sem_keeps {X} (a : Act X) (s : Sys) :
  assigns_task_field a = true ->
  models (snd (act_sem a s)) = models s
  /\ jobs (snd (act_sem a s)) = jobs s
  /\ length (heap (snd (act_sem a s))) = length (heap s)
  /\ forall l j, heap s !! l = Some j ->
       exists j', heap (snd (act_sem a s)) !! l = Some j' /\ keeps j j'.
Proof.
  intros Ha.
  assert (Hsame : forall s', models s' = models s -> jobs s' = jobs s ->
            heap s' = heap s ->
            models s' = models s /\ jobs s' = jobs s
            /\ length (heap s') = length (heap s)
            /\ forall l j, heap s !! l = Some j ->
                 exists j', heap s' !! l = Some j' /\ keeps j j').
  { intros s' Hm Hj Hh. split; [exact Hm |]. split; [exact Hj |].
    split; [now rewrite Hh |].
    intros l j Hl. exists j. rewrite Hh. split; [exact Hl | apply keeps_refl]. }
  destruct a as [T f js | T f js v | js | | | ts | t m]; simpl in *;
    try (apply Hsame; reflexivity).
  - split; [reflexivity |]. split; [reflexivity |].
    split; [apply length_alter |]. intros l j Hl.
    destruct (decide (l = js)) as [-> | Hne].
    + exists (set f v j). rewrite list_lookup_alter_eq, Hl.
      split; [reflexivity | now apply keeps_set].
    + exists j. rewrite list_lookup_alter_ne by congruence.
      split; [exact Hl | apply keeps_refl].
  - destruct (broker_create ts (broker s)). apply Hsame; reflexivity.
Qed.

Section Soundness.
Context {codecs : Codecs} {decoders : Decoders}.

Lemma sound_boot src now b : sound (boot src now b).
Proof.
  split; simpl.
  - constructor.
  - intros id l Hl. now rewrite lookup_empty in Hl.
  - intros l j Hl. discriminate.
  - intros id m Hm. now rewrite lookup_empty in Hm.
Qed.

Lemma step_goroutine_sound tid (s : Sys) :
  sound s ->
  sound (snd (step_goroutine tid s))
  /\ evolves s (snd (step_goroutine tid s)).
Proof.
  intros [Hpool Hjobs Hrec Hmod]. unfold step_goroutine.
  destruct (goroutines s !! tid) as [g |] eqn:Hg;
    [| split; [now split | apply evolves_refl]].
  assert (Htame : tame (g_code g)).
  { eapply Forall_lookup_1 in Hpool; eauto. }
  destruct (g_code g) as [r | X a k];
    [split; [now split | apply evolves_refl] |].
  destruct Htame as [Ha Hk].
  pose proof (act_sem_keeps a s Ha) as (Hm' & Hj' & Hlen & Hh').
  pose proof (act_sem_goroutines a s) as Hg'.
  destruct (act_sem a s) as [x s1]. cbn [snd] in *.
  split; [split |]; cbn [goroutines jobs heap models with_goroutines].
  - rewrite Hg'. apply Forall_insert; [exact Hpool | apply Hk].
  - intros id l Hl. rewrite Hj' in Hl.
    destruct (Hjobs id l Hl) as (j & Hj & Hid).
    destruct (Hh' l j Hj) as (j' & Hl' & Hkeep & _).
    exists j'. split; [exact Hl' | congruence].
  - intros l j1 Hl1.
    assert (Hlt : (l < length (heap s))%nat).
    { rewrite <- Hlen. eapply lookup_lt_Some; eauto. }
    destruct (lookup_lt_is_Some_2 _ _ Hlt) as [j Hj].
    destruct (Hh' l j Hj) as (j' & Hl' & Hid & _ & Hw & _).
    assert (j' = j1) as -> by congruence.
    destruct (Hrec l j Hj) as [H8 H0]. split; congruence.
  - intros id m Hm. rewrite Hm' in Hm. now apply Hmod.
  - split; [| split]; cbn [goroutines jobs heap with_goroutines].
    + intros id. now rewrite Hj'.
    + exact Hh'.
    + rewrite length_insert, Hg'. lia.
Qed.

Lemma cancelJob_sound id (s : Sys) :
  sound s ->
  sound (snd (cancelJob id s)) /\ evolves s (snd (cancelJob id s)).
Proof.
  intros Hs. pose proof Hs as [Hpool Hjobs Hrec Hmod].
  destruct (jobs s !! id) as [l |] eqn:Hid.
  - destruct (Hjobs id l Hid) as (j & Hj & Hjid).
    rewrite (cancelJob_known id s l j Hid Hj). cbn [snd].
    assert (Hlt : (l < length (heap s))%nat) by (eapply lookup_lt_Some; eauto).
    assert (Hev : forall l0 j0, heap s !! l0 = Some j0 ->
              exists j', <[l := set FUpdatedAt (clock s)
                                  (set FCancelled true
                                     (set FState StateCancelled j))]>
                           (heap s) !! l0 = Some j'
                         /\ keeps j0 j').
    { intros l0 j0 Hl0. destruct (decide (l0 = l)) as [-> | Hne].
      - rewrite list_lookup_insert_eq by exact Hlt. eexists.
        split; [reflexivity |]. assert (Some j0 = Some j) as [= ->]
          by (etrans; [symmetry; exact Hl0 | exact Hj]).
        repeat split.
      - rewrite list_lookup_insert_ne by congruence.
        exists j0. split; [exact Hl0 | apply keeps_refl]. }
    split; [split |]; cbn [goroutines jobs heap models with_heap].
    + exact Hpool.
    + intros id' l' Hl'. destruct (Hjobs id' l' Hl') as (j0 & Hj0 & Hid0).
      destruct (Hev l' j0 Hj0) as (j' & Hl1 & Hk & _).
      exists j'. split; [exact Hl1 | congruence].
    + intros l0 j1 Hl1.
      assert (Hlt0 : (l0 < length (heap s))%nat).
      { apply lookup_lt_Some in Hl1. now rewrite length_insert in Hl1. }
      destruct (lookup_lt_is_Some_2 _ _ Hlt0) as [j0 Hj0].
      destruct (Hev l0 j0 Hj0) as (j' & Hl' & Hk1 & _ & Hk3 & _).
      assert (j' = j1) as -> by congruence.
      destruct (Hrec l0 j0 Hj0). split; congruence.
    + exact Hmod.
    + split; [intros id0 H0; exact H0 |].
      split; [exact Hev | cbn [goroutines with_heap]; lia].
  - rewrite (cancelJob_unknown id s Hid). split; [exact Hs | apply evolves_refl].
Qed.

Lemma createJob_sound (r : UploadRequest) (s : Sys) :
  sound s ->
  sound (snd (createJob r s)) /\ evolves s (snd (createJob r s)).
Proof.
  intros Hs. pose proof Hs as [Hpool Hjobs Hrec Hmod].
  destruct (createJob_shape r s) as [(file & kind & ->) | [-> _]];
    [| split; [exact Hs | apply evolves_refl]].
  pose proof (randomID_length s) as H8.
  unfold accepted. cbn [snd].
  split; [split |]; cbn [goroutines jobs heap models].
  - apply Forall_app. split; [exact Hpool |].
    constructor; [apply tame_processJob | constructor].
  - intros id l Hl. destruct (decide (fst (randomID s) = id)) as [<- | Hne].
    + rewrite lookup_insert_eq in Hl. injection Hl as <-.
      eexists. rewrite lookup_app_r, Nat.sub_diag by lia.
      split; reflexivity.
    + rewrite lookup_insert_ne in Hl by exact Hne.
      destruct (Hjobs id l Hl) as (j & Hj & Hid).
      exists j. split; [now apply lookup_app_l_Some | exact Hid].
  - intros l j Hl. apply lookup_app_Some in Hl as [Hl | [_ Hl]].
    + now apply (Hrec l).
    + destruct (l - length (heap s))%nat; [| discriminate].
      injection Hl as <-. split; [exact H8 | reflexivity].
  - exact Hmod.
  - unfold evolves. cbn [goroutines jobs heap]. split; [| split].
    + intros id [l Hl]. destruct (decide (fst (randomID s) = id)) as [<- | Hne].
      * rewrite lookup_insert_eq. eauto.
      * rewrite lookup_insert_ne by exact Hne. eauto.
    + intros l j Hl. exists j.
      split; [now apply lookup_app_l_Some | apply keeps_refl].
    + rewrite length_app. lia.
Qed.

Lemma fire_sound (e : Event) (s : Sys) :
  sound s -> sound (snd (fire e s)) /\ evolves s (snd (fire e s)).
Proof.
  intros Hs. destruct e as [tid | dt | r | id]; cbn [fire snd].
  - now apply step_goroutine_sound.
  - destruct Hs as [Hpool Hjobs Hrec Hmod].
    split; [now split | now apply evolves_same].
  - now apply createJob_sound.
  - now apply cancelJob_sound.
Qed.

Lemma createModel_sound body (s : Sys) :
  sound s ->
  sound (snd (createModel body s)) /\ evolves s (snd (createModel body s)).
Proof.
  intros Hs. pose proof Hs as [Hpool Hjobs Hrec Hmod].
  unfold createModel. destruct body as [m | e];
    [| split; [exact Hs | apply evolves_refl]].
  assert (Hins : forall m' s1,
    models s1 = models s -> jobs s1 = jobs s -> heap s1 = heap s ->
    goroutines s1 = goroutines s ->
    let s' := with_models (<[ID m' := m']> (models s1)) s1 in
    sound s' /\ evolves s s').
  { intros m' s1 Hm1 Hj1 Hh1 Hg1 s'. subst s'. split; [split |];
      cbn [goroutines jobs heap models with_models];
      rewrite ?Hm1, ?Hj1, ?Hh1, ?Hg1; try assumption.
    - intros id m0 Hl. destruct (decide (ID m' = id)) as [<- | Hne].
      + rewrite lookup_insert_eq in Hl. congruence.
      + rewrite lookup_insert_ne in Hl by exact Hne. now apply Hmod.
    - now apply evolves_same. }
  destruct (decide (ID m = "")); [| now apply Hins].
  pose proof (randomID_loop_frame 8 s) as Hfr. cbv zeta in Hfr.
  unfold randomID. destruct (randomID_loop 8 s) as [id s1].
  cbn [snd] in *. destruct Hfr as (Hm1 & Hj1 & Hh1 & Hg1 & _).
  now apply (Hins (with_ID id m) s1).
Qed.

Lemma updateModel_sound id body (s : Sys) :
  sound s ->
  sound (snd (updateModel id body s))
  /\ evolves s (snd (updateModel id body s)).
Proof.
  intros Hs. pose proof Hs as [Hpool Hjobs Hrec Hmod].
  unfold updateModel. destruct body as [m | e];
    [| split; [exact Hs | apply evolves_refl]].
  destruct (models s !! id); [| split; [exact Hs | apply evolves_refl]].
  cbn [snd]. split; [| now apply evolves_same].
  split; cbn [goroutines jobs heap models with_models]; try assumption.
  intros id' mm Hl. destruct (decide (id = id')) as [<- | Hne].
  - rewrite lookup_insert_eq in Hl. injection Hl as <-. reflexivity.
  - rewrite lookup_insert_ne in Hl by exact Hne. now apply Hmod.
Qed.

Lemma deleteModel_sound id (s : Sys) :
  sound s ->
  sound (snd (deleteModel id s)) /\ evolves s (snd (deleteModel id s)).
Proof.
  intros Hs. pose proof Hs as [Hpool Hjobs Hrec Hmod].
  unfold deleteModel.
  destruct (models s !! id); [| split; [exact Hs | apply evolves_refl]].
  cbn [snd]. split; [| now apply evolves_same].
  split; cbn [goroutines jobs heap models with_models]; try assumption.
  intros id' mm Hl. destruct (decide (id = id')) as [<- | Hne].
  - now rewrite lookup_delete_eq in Hl.
  - rewrite lookup_delete_ne in Hl by exact Hne. now apply Hmod.
Qed.

Lemma rejectedRows_sound jobId d (s : Sys) :
  sound s ->
  sound (snd (rejectedRows jobId d s))
  /\ evolves s (snd (rejectedRows jobId d s)).
Proof.
  intros Hs. pose proof Hs as [Hpool Hjobs Hrec Hmod].
  unfold rejectedRows.
  destruct (jobs s !! jobId); [| split; [exact Hs | apply evolves_refl]].
  pose proof (randomID_loop_frame 8 s) as Hfr. cbv zeta in Hfr.
  unfold randomID. destruct (randomID_loop 8 s) as [id s1].
  cbn [snd] in *. destruct Hfr as (Hm1 & Hj1 & Hh1 & Hg1 & _).
  split; [split | now apply evolves_same]; rewrite ?Hm1, ?Hj1, ?Hh1, ?Hg1;
    assumption.
Qed.

Lemma serve_sound (r : Request) (s : Sys) :
  sound s -> sound (serve r s) /\ evolves s (serve r s).
Proof.
  intros Hs. destruct r; cbn [serve].
  - now apply fire_sound.
  - now apply createModel_sound.
  - now apply updateModel_sound.
  - now apply deleteModel_sound.
  - now apply rejectedRows_sound.
Qed.

Lemma serve_all_sound (rs : list Request) (s : Sys) :
  sound s -> sound (serve_all rs s) /\ evolves s (serve_all rs s).
Proof.
  revert s. induction rs as [| r rs IH]; intros s Hs.
  - split; [exact Hs | apply evolves_refl].
  - cbn [serve_all foldl]. destruct (serve_sound r s Hs) as [Hs1 He1].
    destruct (IH _ Hs1) as [Hs2 He2]. fold (serve_all rs (serve r s)) in *.
    split; [exact Hs2 | eapply evolves_trans; eauto].
Qed.

(** X17. In every state the process reaches from its start, through any
    sequence of uploads, cancel requests, dead-letter queries, model
    requests, goroutine steps and clock ticks, every registered job can be
    queried, and the record shown carries the identifier it is registered
    under, which has eight characters, and a waiting time of zero. *)
Theorem registered_jobs_answer_to_their_id (src : nat -> Z) (now : Z)
    (b : Broker) (rs : list Request) (id : string) :
  is_Some (jobs (serve_all rs (boot src now b)) !! id) ->
  exists shown,
    getJob id (serve_all rs (boot src now b))
    = {| code := StatusOK; payload := JobPayload shown |}
    /\ job_id shown = id
    /\ String.length id = 8%nat
    /\ WaitingMS (timings shown) = 0.
Proof.
  intros [l Hl].
  destruct (serve_all_sound rs _ (sound_boot src now b))
    as [[_ Hjobs Hrec _] _].
  destruct (Hjobs id l Hl) as (j & Hj & Hid).
  destruct (Hrec l j Hj) as [H8 H0].
  exists (to_JSON j). unfold getJob, deref. rewrite Hl, Hj.
  repeat split; cbn [to_JSON job_id timings]; congruence.
Qed.

(** X18. In every state the process reaches from its start, every model of
    the registry carries the identifier it is stored under: [getModel id]
    never shows a model with another identifier. *)
Theorem models_answer_to_their_id (src : nat -> Z) (now : Z) (b : Broker)
    (rs : list Request) (id : string) (m : Model) :
  getModel id (serve_all rs (boot src now b))
  = {| code := StatusOK; payload := ModelPayload m |} ->
  ID m = id.
Proof.
  intros Hget.
  destruct (serve_all_sound rs _ (sound_boot src now b))
    as [[_ _ _ Hmod] _].
  unfold getModel in Hget.
  destruct (models _ !! id) as [m' |] eqn:Hm; [| discriminate].
  injection Hget as <-. now apply Hmod.
Qed.

(** X19. Nothing is forgotten. From any reached state on, whatever
    requests and steps follow: a registered job identifier stays registered
    (there is no way to delete a job), a record stays allocated with its
    identifier, its model and its waiting time, a cancelled flag that is
    set stays set, and no goroutine leaves the pool. *)
Theorem nothing_is_forgotten (src : nat -> Z) (now : Z) (b : Broker)
    (before after : list Request) :
  let s1 := serve_all before (boot src now b) in
  let s2 := serve_all after s1 in
  (forall id, is_Some (jobs s1 !! id) -> is_Some (jobs s2 !! id))
  /\ (forall l j, heap s1 !! l = Some j ->
        exists j', heap s2 !! l = Some j'
                   /\ JobID j' = JobID j /\ ModelID j' = ModelID j
                   /\ WaitingMS (Timings j') = WaitingMS (Timings j)
                   /\ (Cancelled j = true -> Cancelled j' = true))
  /\ (length (goroutines s1) <= length (goroutines s2))%nat.
Proof.
  intros s1 s2. subst s1 s2.
  destruct (serve_all_sound before _ (sound_boot src now b)) as [Hs1 _].
  destruct (serve_all_sound after _ Hs1) as [_ Hev]. exact Hev.
Qed.

End Soundness.

(* ===================================================================== *)
(** ** Jobs do not get in each other's way *)
(* ===================================================================== *)

Lemma confined_bind {R S} (js : loc) (p : Prog R) (f : R -> Prog S) :
  confined js p -> (forall r, confined js (f r)) -> confined js (bind p f).
Proof.
  intros Hp Hf. induction p as [r | X a k IH]; simpl; [apply Hf |].
  destruct Hp as [Ha Hk]. split; [exact Ha |]. intros x. apply IH, Hk.
Qed.

Lemma confined_store {T} (f : Field T) (js : loc) (v : T) :
  confined js (store f js v).
Proof. simpl. split; [apply Nat.eqb_refl | auto]. Qed.

Lemma confined_load {T} (f : Field T) (js l : loc) : confined js (load f l).
Proof. simpl. auto. Qed.

Lemma confined_incr (f : Field Z) (js : loc) : confined js (incr f js).
Proof.
  simpl. split; [reflexivity |]. intros x.
  split; [apply Nat.eqb_refl | auto].
Qed.

Section ConfinedTask.
Context {codecs : Codecs}.

Lemma confined_sendToDLQ js dt rowNum rawData errorMsg :
  confined js (sendToDLQ js dt rowNum rawData errorMsg).
Proof.
  unfold sendToDLQ. simpl. split; [reflexivity |]. intros jobID.
  split; [reflexivity |]. intros now.
  destruct (json_Marshal_RejectedRow _); simpl; auto.
Qed.

Lemma confined_row_loop js mt dt rl :
  forall rowNumber, confined js (row_loop js mt dt rl rowNumber).
Proof.
  induction rl as [| [rec | rec err] rl IH]; intros rowNumber;
    cbn [row_loop]; [exact I | |].
  - apply confined_bind; [apply confined_incr |]. intros _.
    destruct (json_Marshal_record rec) as [payload | e].
    + apply confined_bind; [apply confined_load |]. intros key.
      apply confined_bind; [simpl; auto |]. intros [e |].
      * apply confined_bind; [apply confined_incr |]. intros _.
        apply confined_bind; [apply confined_sendToDLQ |]. intros _. apply IH.
      * apply confined_bind; [apply confined_incr |]. intros _. apply IH.
    + apply confined_bind; [apply confined_incr |]. intros _.
      apply confined_bind; [apply confined_sendToDLQ |]. intros _. apply IH.
  - apply confined_bind; [apply confined_incr |]. intros _.
    apply confined_bind; [apply confined_sendToDLQ |]. intros _. apply IH.
Qed.

Lemma confined_resolve_state js : confined js (resolve_state js).
Proof.
  unfold resolve_state. apply confined_bind; [apply confined_load |].
  intros errors. apply confined_bind.
  { destruct (0 <? errors); [apply confined_load | simpl; auto]. }
  intros [|]; [apply confined_store |].
  apply confined_bind; [apply confined_load |]. intros errors'.
  destruct (0 <? errors'); apply confined_store.
Qed.

(** The task assigns no record but the one it was started on. *)
Lemma confined_processJob js f kind : confined js (processJob js f kind).
Proof.
  unfold processJob.
  apply confined_bind; [simpl; auto 20 using Nat.eqb_refl |]. intros start.
  apply confined_bind; [apply confined_load |]. intros id1.
  apply confined_bind; [apply confined_load |]. intros id2.
  apply confined_bind; [simpl; auto |].
  intros [e |]; [simpl; auto 20 using Nat.eqb_refl |].
  apply confined_bind; [simpl; auto |]. intros _.
  apply confined_bind; [apply confined_row_loop |]. intros _.
  unfold finish_job.
  apply confined_bind; [simpl; auto |]. intros now.
  apply confined_bind; [apply confined_store |]. intros _.
  apply confined_bind; [apply confined_resolve_state |]. intros _.
  simpl. auto 20 using Nat.eqb_refl.
Qed.

End ConfinedTask.

Lemma act_sem_heap_length {X} (a : Act X) (s : Sys) :
  length (heap (snd (act_sem a s))) = length (heap s).
Proof.
  destruct a; simpl; try reflexivity.
  - apply length_alter.
  - now destruct (broker_create ts (broker s)).
Qed.

Lemma act_sem_writes_at {X} (a : Act X) (js l : loc) (s : Sys) :
  writes_at js a = true -> l <> js ->
  heap (snd (act_sem a s)) !! l = heap s !! l.
Proof.
  intros Ha Hne. destruct a; simpl in *; try reflexivity.
  - apply Nat.eqb_eq in Ha. subst. now apply list_lookup_alter_ne.
  - now destruct (broker_create ts (broker s)).
Qed.

Lemma act_sem_registries {X} (a : Act X) (s : Sys) :
  jobs (snd (act_sem a s)) = jobs s
  /\ models (snd (act_sem a s)) = models s
  /\ rand_pos (snd (act_sem a s)) = rand_pos s.
Proof.
  destruct a; simpl; try easy.
  now destruct (broker_create ts (broker s)).
Qed.

Section Isolation.
Context {codecs : Codecs} {decoders : Decoders}.

Lemma isolated_boot src now b : isolated (boot src now b).
Proof. split; [reflexivity |]. intros k g Hk. discriminate. Qed.

Lemma isolated_same (s s' : Sys) :
  goroutines s' = goroutines s -> length (heap s') = length (heap s) ->
  isolated s -> isolated s'.
Proof.
  intros Hg Hh [Hlen Hpool]. split; rewrite Hg; [congruence | exact Hpool].
Qed.

Lemma step_goroutine_isolated tid (s : Sys) :
  isolated s -> isolated (snd (step_goroutine tid s)).
Proof.
  intros [Hlen Hpool]. unfold step_goroutine.
  destruct (goroutines s !! tid) as [g |] eqn:Hg; [| now split].
  destruct (Hpool tid g Hg) as [Hjs Hconf].
  destruct (g_code g) as [r | X a k]; [now split |].
  destruct Hconf as [Ha Hk].
  pose proof (act_sem_heap_length a s) as Hlen'.
  pose proof (act_sem_goroutines a s) as Hg'.
  destruct (act_sem a s) as [x s1]. cbn [snd] in *.
  split; cbn [goroutines heap with_goroutines]; rewrite Hg'.
  - rewrite length_insert. congruence.
  - intros k0 g0 Hk0. destruct (decide (k0 = tid)) as [-> | Hne].
    + rewrite list_lookup_insert_eq in Hk0
        by (eapply lookup_lt_Some; eauto).
      injection Hk0 as <-. cbn [g_js g_code with_code]. split; [exact Hjs |].
      apply Hk.
    + rewrite list_lookup_insert_ne in Hk0 by congruence. now apply Hpool.
Qed.

Lemma createJob_isolated (r : UploadRequest) (s : Sys) :
  isolated s -> isolated (snd (createJob r s)).
Proof.
  intros [Hlen Hpool].
  destruct (createJob_shape r s) as [(file & kind & ->) | [-> _]];
    [| now split].
  unfold accepted. cbn [snd]. split; cbn [goroutines heap].
  - rewrite !length_app. simpl. lia.
  - intros k g Hk. apply lookup_app_Some in Hk as [Hk | [Hge Hk]];
      [now apply Hpool |].
    destruct (k - length (goroutines s))%nat eqn:Hd; [| discriminate].
    injection Hk as <-. cbn [g_js g_code].
    assert (k = length (heap s)) as -> by lia.
    split; [reflexivity | apply confined_processJob].
Qed.

Lemma cancelJob_isolated id (s : Sys) :
  sound s -> isolated s -> isolated (snd (cancelJob id s)).
Proof.
  intros [_ Hjobs _ _] Hs.
  destruct (jobs s !! id) as [l |] eqn:Hid;
    [| now rewrite (cancelJob_unknown id s Hid)].
  destruct (Hjobs id l Hid) as (j & Hj & _).
  rewrite (cancelJob_known id s l j Hid Hj). cbn [snd].
  apply (isolated_same s); [reflexivity | apply length_insert | exact Hs].
Qed.

Lemma serve_isolated (r : Request) (s : Sys) :
  sound s -> isolated s -> isolated (serve r s).
Proof.
  intros Hsound Hs.
  destruct r as [[tid | dt | r | id] | body | id body | id | id d];
    cbn [serve fire snd].
  - now apply step_goroutine_isolated.
  - now apply (isolated_same s).
  - now apply createJob_isolated.
  - now apply cancelJob_isolated.
  - unfold createModel. destruct body as [m | e]; [| exact Hs].
    destruct (decide (ID m = "")); [| now apply (isolated_same s)].
    pose proof (randomID_loop_frame 8 s) as Hfr. cbv zeta in Hfr.
    unfold randomID. destruct (randomID_loop 8 s) as [id s1].
    cbn [snd] in *. destruct Hfr as (_ & _ & Hh1 & Hg1 & _).
    apply (isolated_same s);
      [exact Hg1 | cbn [heap with_models]; now rewrite Hh1 | exact Hs].
  - unfold updateModel. destruct body as [m | e]; [| exact Hs].
    destruct (models s !! id); [| exact Hs]. now apply (isolated_same s).
  - unfold deleteModel.
    destruct (models s !! id); [| exact Hs]. now apply (isolated_same s).
  - unfold rejectedRows. destruct (jobs s !! id); [| exact Hs].
    pose proof (randomID_loop_frame 8 s) as Hfr. cbv zeta in Hfr.
    unfold randomID. destruct (randomID_loop 8 s) as [id' s1].
    cbn [snd] in *. destruct Hfr as (_ & _ & Hh1 & Hg1 & _).
    apply (isolated_same s); [exact Hg1 | now rewrite Hh1 | exact Hs].
Qed.

Lemma serve_all_isolated (rs : list Request) (s : Sys) :
  sound s -> isolated s -> isolated (serve_all rs s).
Proof.
  revert s. induction rs as [| r rs IH]; intros s Hsound Hs; [exact Hs |].
  cbn [serve_all foldl].
  apply IH; [now apply serve_sound | now apply serve_isolated].
Qed.

(** X20. Tasks do not share records. In every state the process reaches,
    there are as many tasks as records, the task at position [tid] of the
    pool holds the record at position [tid], and a step of it, wherever it
    falls among the steps of the other tasks and the requests, leaves every
    other record, both registries and the random source as they are. *)
Theorem tasks_do_not_share_records (src : nat -> Z) (now : Z) (b : Broker)
    (rs : list Request) (tid : nat) :
  length (goroutines (serve_all rs (boot src now b)))
  = length (heap (serve_all rs (boot src now b)))
  /\ (forall g, goroutines (serve_all rs (boot src now b)) !! tid = Some g ->
                g_js g = tid)
  /\ (forall l, l <> tid ->
        heap (snd (step_goroutine tid (serve_all rs (boot src now b)))) !! l
        = heap (serve_all rs (boot src now b)) !! l)
  /\ jobs (snd (step_goroutine tid (serve_all rs (boot src now b))))
     = jobs (serve_all rs (boot src now b))
  /\ models (snd (step_goroutine tid (serve_all rs (boot src now b))))
     = models (serve_all rs (boot src now b))
  /\ rand_pos (snd (step_goroutine tid (serve_all rs (boot src now b))))
     = rand_pos (serve_all rs (boot src now b)).
Proof.
  pose proof (serve_all_isolated rs _ (sound_boot src now b)
                (isolated_boot src now b)) as [Hlen Hpool].
  set (s := serve_all rs (boot src now b)) in *.
  split; [exact Hlen |]. split; [intros g Hg; now apply (Hpool tid g) |].
  unfold step_goroutine.
  destruct (goroutines s !! tid) as [g |] eqn:Hg; [| easy].
  destruct (Hpool tid g Hg) as [_ Hconf].
  destruct (g_code g) as [r | X a k]; [easy |]. destruct Hconf as [Ha _].
  pose proof (fun l => act_sem_writes_at a tid l s Ha) as Hheap.
  pose proof (act_sem_registries a s) as Hfr.
  destruct (act_sem a s) as [x s1]. cbn [snd] in *.
  cbn [heap jobs models rand_pos with_goroutines].
  split; [exact Hheap |]. exact Hfr.
Qed.

(** X21. Cancelling one job does not touch another. In every state the
    process reaches, a cancel request for [id], accepted or not, leaves what
    [getJob] shows of every other job as it is. *)
Theorem cancelJob_leaves_other_jobs (src : nat -> Z) (now : Z) (b : Broker)
    (rs : list Request) (id id' : string) :
  id' <> id ->
  getJob id' (snd (cancelJob id (serve_all rs (boot src now b))))
  = getJob id' (serve_all rs (boot src now b)).
Proof.
  intros Hne.
  destruct (serve_all_sound rs _ (sound_boot src now b))
    as [[_ Hjobs _ _] _].
  set (s := serve_all rs (boot src now b)) in *.
  destruct (jobs s !! id) as [l |] eqn:Hid;
    [| now rewrite (cancelJob_unknown id s Hid)].
  destruct (Hjobs id l Hid) as (j & Hj & Hjid).
  rewrite (cancelJob_known id s l j Hid Hj). cbn [snd].
  unfold getJob. cbn [jobs heap with_heap].
  destruct (jobs s !! id') as [l' |] eqn:Hid'; [| reflexivity].
  destruct (Hjobs id' l' Hid') as (j' & Hj' & Hjid').
  assert (l' <> l).
  { intros ->. apply Hne.
    assert (Some j' = Some j) as [= ->]
      by (etrans; [symmetry; exact Hj' | exact Hj]).
    congruence. }
  unfold deref. now rewrite list_lookup_insert_ne by congruence.
Qed.

(** X22. [listJobs] and [getJob] agree. In every state the process
    reaches, [listJobs] answers 200 with one entry per registered job, and
    an entry is listed if and only if [getJob] on its job_id shows that same
    entry. With no job registered the body is [null], not an empty
    array. *)
Theorem listJobs_agrees_with_getJob (src : nat -> Z) (now : Z) (b : Broker)
    (rs : list Request) :
  code (listJobs (serve_all rs (boot src now b))) = StatusOK
  /\ (jobs (serve_all rs (boot src now b)) = ∅ ->
      payload (listJobs (serve_all rs (boot src now b))) = JobsPayload None)
  /\ (jobs (serve_all rs (boot src now b)) <> ∅ ->
      exists l,
        payload (listJobs (serve_all rs (boot src now b)))
        = JobsPayload (Some l)
        /\ length l = size (jobs (serve_all rs (boot src now b)))
        /\ forall shown,
             shown ∈ l <->
             getJob (job_id shown) (serve_all rs (boot src now b))
             = {| code := StatusOK; payload := JobPayload shown |}).
Proof.
  destruct (serve_all_sound rs _ (sound_boot src now b))
    as [[_ Hjobs _ _] _].
  set (s := serve_all rs (boot src now b)) in *.
  split; [reflexivity |]. unfold listJobs. cbn [payload]. split.
  - intros ->. now rewrite map_to_list_empty.
  - intros Hne.
    destruct (appended ((fun j => to_JSON (deref (heap s) j))
                          <$> (map_to_list (jobs s)).*2)) as [l |] eqn:Hl.
    + apply appended_Some in Hl as [-> _]. eexists. split; [reflexivity |].
      split; [now rewrite !length_fmap, length_map_to_list |].
      intros shown. rewrite list_elem_of_fmap. unfold getJob. split.
      * intros (l0 & -> & Hin). apply list_elem_of_fmap in Hin
          as ([id l1] & Heq & Hin). cbn [snd] in Heq. subst l1.
        apply elem_of_map_to_list in Hin.
        destruct (Hjobs id l0 Hin) as (j & Hj & Hid).
        assert (Hd : deref (heap s) l0 = j) by (unfold deref; now rewrite Hj).
        rewrite Hd. cbn [to_JSON job_id]. rewrite Hid, Hin.
        now rewrite Hd.
      * intros Hget. destruct (jobs s !! job_id shown) as [l0 |] eqn:Hid;
          [| discriminate].
        injection Hget as Hshown. exists l0. split; [now symmetry |].
        apply list_elem_of_fmap. exists (job_id shown, l0).
        split; [reflexivity |]. now apply elem_of_map_to_list.
    + apply appended_None, fmap_nil_inv, fmap_nil_inv,
        map_to_list_empty_iff in Hl. contradiction.
Qed.

End Isolation.

(* ===================================================================== *)
(** ** A task that is not interrupted *)
(* ===================================================================== *)

Lemma act_sem_with_goroutines {X} (a : Act X) (G : list Goroutine) (s : Sys) :
  act_sem a (with_goroutines G s)
  = (fst (act_sem a s), with_goroutines G (snd (act_sem a s))).
Proof.
  destruct a; simpl; try reflexivity.
  now destruct (broker_create ts (broker s)).
Qed.

Lemma exec_with_goroutines {R} (p : Prog R) (G : list Goroutine) (s : Sys) :
  exec p (with_goroutines G s)
  = (fst (exec p s), with_goroutines G (snd (exec p s))).
Proof.
  revert s. induction p as [r | X a k IH]; intros s; [reflexivity |].
  cbn [exec]. rewrite act_sem_with_goroutines.
  destruct (act_sem a s) as [x s1]. cbn [fst snd]. apply IH.
Qed.

Lemma actions_with_goroutines {R} (p : Prog R) (G : list Goroutine)
    (s : Sys) :
  actions p (with_goroutines G s) = actions p s.
Proof.
  revert s. induction p as [r | X a k IH]; intros s; [reflexivity |].
  cbn [actions]. rewrite act_sem_with_goroutines.
  destruct (act_sem a s) as [x s1]. cbn [fst snd]. now rewrite IH.
Qed.

Lemma exec_goroutines {R} (p : Prog R) (s : Sys) :
  goroutines (snd (exec p s)) = goroutines s.
Proof.
  revert s. induction p as [r | X a k IH]; intros s; [reflexivity |].
  cbn [exec]. pose proof (act_sem_goroutines a s) as Hg.
  destruct (act_sem a s) as [x s1]. cbn [snd] in Hg. now rewrite IH.
Qed.

Lemma with_goroutines_twice (G G' : list Goroutine) (s : Sys) :
  with_goroutines G (with_goroutines G' s) = with_goroutines G s.
Proof. reflexivity. Qed.

Lemma with_goroutines_self (s : Sys) : with_goroutines (goroutines s) s = s.
Proof. now destruct s. Qed.

Section Uninterrupted.
Context {codecs : Codecs}.

Lemma run_finished_task tid g (s : Sys) n :
  goroutines s !! tid = Some g -> g_code g = Ret tt ->
  snd (run (repeat (EvStep tid) n) s) = s.
Proof.
  intros Hg Hc. induction n as [| n IH]; [reflexivity |].
  cbn [repeat run fire]. unfold step_goroutine. rewrite Hg, Hc.
  destruct (run (repeat (EvStep tid) n) s) as [ds s2]. exact IH.
Qed.

Lemma run_task_to_its_end tid (p : Prog unit) :
  forall g (s : Sys) n,
    goroutines s !! tid = Some g -> g_code g = p ->
    (actions p s <= n)%nat ->
    snd (run (repeat (EvStep tid) n) s)
    = with_goroutines (<[tid := with_code (Ret tt) g]> (goroutines s))
        (snd (exec p s)).
Proof.
  induction p as [[] | X a k IH]; intros g s n Hg Hc Hn.
  - rewrite (run_finished_task tid g s n Hg Hc). cbn [exec snd].
    assert (with_code (Ret tt) g = g) as ->
      by (destruct g; cbn in Hc; now subst).
    now rewrite list_insert_id, with_goroutines_self.
  - cbn [actions] in Hn. destruct n as [| n].
    { destruct (act_sem a s); lia. }
    cbn [repeat run fire exec]. unfold step_goroutine. rewrite Hg, Hc.
    pose proof (act_sem_goroutines a s) as Hgs.
    destruct (act_sem a s) as [x s1] eqn:Hact. cbn [snd] in Hgs.
    assert (Hlt : (tid < length (goroutines s))%nat)
      by (eapply lookup_lt_Some; eauto).
    specialize (IH x (with_code (k x) g)
                  (with_goroutines (<[tid := with_code (k x) g]>
                                      (goroutines s1)) s1) n).
    destruct (run (repeat (EvStep tid) n) _) as [ds s2]. cbn [snd] in *.
    rewrite IH.
    + rewrite exec_with_goroutines. cbn [snd goroutines with_goroutines].
      rewrite with_goroutines_twice, Hgs, list_insert_insert_eq.
      reflexivity.
    + cbn [goroutines with_goroutines]. rewrite Hgs.
      now apply list_lookup_insert_eq.
    + reflexivity.
    + rewrite actions_with_goroutines. lia.
Qed.


End Uninterrupted.

(* ===================================================================== *)
(** ** The statements above on concrete runs *)
(* ===================================================================== *)


Lemma every_row_counted_once_witness :
  exists j',
    heap (snd (exec (processJob (codecs := Sample.plain) 0%nat
                       (Sample.in_memory Malformed.mixed_rows) "csv")
                 (Sample.one_job Sample.flaky))) !! 0%nat = Some j'
    /\ OK (Totals j') + Errors (Totals j') = 4
    /\ Rows (Totals j') = 3.
Proof.
  destruct (every_row_counted_once (codecs := Sample.plain)
              (Sample.one_job Sample.flaky) 0%nat Sample.first_job
              (Sample.in_memory Malformed.mixed_rows) "csv"
              eq_refl eq_refl eq_refl
              ltac:(vm_compute; discriminate))
    as (j' & Hj' & Hsum & _ & HR).
  exists j'. repeat split; assumption.
Defined.

Lemma all_rows_malformed_fails_witness :
  exists j',
    heap (snd (exec (processJob (codecs := Sample.plain) 0%nat
                       (Sample.in_memory Malformed.only_quotes) "csv")
                 (Sample.one_job Sample.healthy))) !! 0%nat = Some j'
    /\ State j' = StateFailed
    /\ Rows (Totals j') = 0 /\ OK (Totals j') = 0
    /\ Errors (Totals j') = 2.
Proof.
  destruct (all_rows_malformed_fails (codecs := Sample.plain)
              (Sample.one_job Sample.healthy) 0%nat Sample.first_job
              (Sample.in_memory Malformed.only_quotes) "csv"
              eq_refl eq_refl eq_refl
              ltac:(vm_compute; discriminate)
              ltac:(vm_compute; discriminate)
              eq_refl)
    as (j' & Hj' & Hst & HR & HO & HE & _).
  exists j'. repeat split; assumption.
Defined.

Lemma rows_published_in_order_witness :
  exists acked,
    topic_log
      (broker (snd (exec (processJob (codecs := Sample.plain) 0%nat
                            (Sample.in_memory Malformed.mixed_rows) "csv")
                      (Sample.one_job Sample.healthy))))
      "batch_ahov29gn"
    = acked
    /\ Forall2 (publishes (codecs := Sample.plain) "ahov29gn") acked
         [["id"; "name"]; ["1"; "ada"]; ["3"; "bob"]].
Proof.
  apply (rows_published_in_order (codecs := Sample.plain)
           (Sample.one_job Sample.healthy) 0%nat Sample.first_job
           (Sample.in_memory Malformed.mixed_rows) "csv" eq_refl eq_refl).
  - intros k. reflexivity.
  - vm_compute. repeat constructor; eexists; reflexivity.
  - vm_compute. discriminate.
Defined.

Lemma malformed_rows_are_dead_lettered_witness :
  exists j' dead,
    heap (snd (exec (processJob (codecs := Sample.plain) 0%nat
                       (Sample.in_memory Malformed.mixed_rows) "csv")
                 (Sample.one_job Sample.healthy))) !! 0%nat = Some j'
    /\ topic_log
         (broker (snd (exec (processJob (codecs := Sample.plain) 0%nat
                               (Sample.in_memory Malformed.mixed_rows) "csv")
                         (Sample.one_job Sample.healthy))))
         "batch_ahov29gn_dlq"
       = dead
    /\ Forall2 (buries (codecs := Sample.plain) "ahov29gn") dead
         [{| rr_JobID := "ahov29gn"; RowNumber := 3; RawData := "2";
             Error := "record on line 3: wrong number of fields";
             Timestamp := 1000 |}]
    /\ Errors (Totals j') = 1 /\ OK (Totals j') = 3
    /\ State j' = StatePartialSuccess.
Proof.
  destruct (malformed_rows_are_dead_lettered (codecs := Sample.plain)
              (Sample.one_job Sample.healthy) 0%nat Sample.first_job
              (Sample.in_memory Malformed.mixed_rows) "csv"
              eq_refl eq_refl eq_refl)
    as (j' & dead & Hj' & Hlog & Hdead & HE & HO & Hst & _).
  - intros k t. reflexivity.
  - vm_compute. repeat constructor; eexists; reflexivity.
  - vm_compute. repeat constructor; eexists; reflexivity.
  - vm_compute. discriminate.
  - exists j', dead. split; [exact Hj' |]. split; [exact Hlog |].
    split; [exact Hdead |]. split; [exact HE |]. split; [exact HO |].
    rewrite Hst. unfold final_state.
    rewrite HE, HO. reflexivity.
Defined.

Lemma task_keeps_to_its_job_witness :
  jobs (snd (exec (processJob (codecs := Sample.plain) 0%nat
                     (Sample.in_memory Malformed.mixed_rows) "csv")
               (Sample.one_job_registered Sample.flaky)))
  = jobs (Sample.one_job_registered Sample.flaky)
  /\ exists j',
       heap (snd (exec (processJob (codecs := Sample.plain) 0%nat
                          (Sample.in_memory Malformed.mixed_rows) "csv")
                    (Sample.one_job_registered Sample.flaky))) !! 0%nat
       = Some j'
       /\ JobID j' = "ahov29gn" /\ Cancelled j' = false.
Proof.
  destruct (task_keeps_to_its_job (codecs := Sample.plain)
              (Sample.one_job_registered Sample.flaky) 0%nat Sample.first_job
              (Sample.in_memory Malformed.mixed_rows) "csv" eq_refl)
    as (_ & Hjobs & _ & _ & _ & _ & (j' & Hj' & Hid & _ & Hc & _) & _).
  split; [exact Hjobs |]. exists j'. repeat split; assumption.
Defined.

Lemma dead_letter_query_after_task_witness :
  fst (rejectedRows (decoders := Malformed.plain_decoders) "ahov29gn"
         {| fetches := 5; at_select := false |}
         (snd (exec (processJob (codecs := Sample.plain) 0%nat
                       (Sample.in_memory Malformed.mixed_rows) "csv")
                 (Sample.one_job_registered Sample.healthy))))
  = {| code := StatusOK;
       payload := RejectedPayload
         (Some [{| rr_JobID := "ahov29gn"; RowNumber := 3; RawData := "2";
                   Error := "record on line 3: wrong number of fields";
                   Timestamp := 1000 |}]) |}.
Proof.
  refine (proj1 (dead_letter_query_after_task (codecs := Sample.plain)
                   (decoders := Malformed.plain_decoders)
                   (Sample.one_job_registered Sample.healthy) 0%nat
                   Sample.first_job
                   (Sample.in_memory Malformed.mixed_rows) "csv"
                   {| fetches := 5; at_select := false |}
                   eq_refl _ eq_refl eq_refl _ eq_refl _ _ _ _)).
  - vm_compute. reflexivity.
  - intros k t. reflexivity.
  - vm_compute. repeat constructor; eexists; reflexivity.
  - eassert (Hm : json_Marshal_RejectedRow (Codecs := Sample.plain)
                    (rejected "ahov29gn" 1000
                       (3%nat, "2",
                        "record on line 3: wrong number of fields"))
                  = Ok _) by (vm_compute; reflexivity).
    change (Forall _ _) with
      (Forall (fun row =>
                 (exists p, json_Marshal_RejectedRow (Codecs := Sample.plain)
                              (rejected "ahov29gn" 1000 row) = Ok p)
                 /\ forall p, json_Marshal_RejectedRow (Codecs := Sample.plain)
                                (rejected "ahov29gn" 1000 row) = Ok p ->
                              Malformed.plain_unmarshal_RejectedRow p
                              = Ok (rejected "ahov29gn" 1000 row))
         [(3%nat, "2", "record on line 3: wrong number of fields")]).
    constructor; [| constructor]. split; [eexists; exact Hm |].
    intros p Hp.
    apply (f_equal (fun r => match r with Ok x => x | Err _ => "" end)) in Hp.
    rewrite Hm in Hp. subst p. vm_compute. reflexivity.
  - vm_compute. discriminate.
  - vm_compute. lia.
Defined.

Lemma registered_jobs_answer_to_their_id_witness :
  is_Some (jobs (serve_all (codecs := Sample.plain)
                   (decoders := Malformed.plain_decoders)
                   Malformed.model_then_upload Malformed.fresh)
           !! "ahov29gn")
  /\ exists shown,
       getJob "ahov29gn"
         (serve_all (codecs := Sample.plain)
            (decoders := Malformed.plain_decoders)
            Malformed.model_then_upload Malformed.fresh)
       = {| code := StatusOK; payload := JobPayload shown |}
       /\ job_id shown = "ahov29gn".
Proof.
  assert (H : is_Some (jobs (serve_all (codecs := Sample.plain)
                               (decoders := Malformed.plain_decoders)
                               Malformed.model_then_upload Malformed.fresh)
                       !! "ahov29gn")).
  { exists 0%nat. vm_compute. reflexivity. }
  split; [exact H |].
  destruct (registered_jobs_answer_to_their_id (codecs := Sample.plain)
              (decoders := Malformed.plain_decoders)
              (fun k => Z.of_nat k * 7) 1000 Sample.healthy
              Malformed.model_then_upload "ahov29gn" H)
    as (shown & Hget & Hid & _).
  exists shown. split; assumption.
Defined.

Lemma models_answer_to_their_id_witness :
  getModel "events"
    (serve_all (codecs := Sample.plain)
       (decoders := Malformed.plain_decoders)
       Malformed.model_then_upload Malformed.fresh)
  = {| code := StatusOK; payload := ModelPayload Sample.events_model |}
  /\ ID Sample.events_model = "events".
Proof.
  assert (H : getModel "events"
                (serve_all (codecs := Sample.plain)
                   (decoders := Malformed.plain_decoders)
                   Malformed.model_then_upload Malformed.fresh)
              = {| code := StatusOK;
                   payload := ModelPayload Sample.events_model |}).
  { vm_compute. reflexivity. }
  split; [exact H |].
  exact (models_answer_to_their_id (codecs := Sample.plain)
           (decoders := Malformed.plain_decoders)
           (fun k => Z.of_nat k * 7) 1000 Sample.healthy
           Malformed.model_then_upload "events" Sample.events_model H).
Defined.

Lemma cancelJob_leaves_other_jobs_witness :
  is_Some (jobs (serve_all (codecs := Sample.plain)
                   (decoders := Malformed.plain_decoders)
                   Malformed.model_then_two_uploads Malformed.fresh)
           !! "u18fmt07")
  /\ getJob "u18fmt07"
       (snd (cancelJob "ahov29gn"
               (serve_all (codecs := Sample.plain)
                  (decoders := Malformed.plain_decoders)
                  Malformed.model_then_two_uploads Malformed.fresh)))
     = getJob "u18fmt07"
         (serve_all (codecs := Sample.plain)
            (decoders := Malformed.plain_decoders)
            Malformed.model_then_two_uploads Malformed.fresh).
Proof.
  split; [exists 1%nat; vm_compute; reflexivity |].
  apply (cancelJob_leaves_other_jobs (codecs := Sample.plain)
           (decoders := Malformed.plain_decoders)
           (fun k => Z.of_nat k * 7) 1000 Sample.healthy
           Malformed.model_then_two_uploads "ahov29gn" "u18fmt07").
  discriminate.
Defined.

(* ===================================================================== *)
(** ** The refresh of [updated_at] *)
(* ===================================================================== *)

Lemma assigns_updated_at_bind {R S} js t (p : Prog R) (f : R -> Prog S) :
  assigns_updated_at js t p -> assigns_updated_at js t (bind p f).
Proof. destruct p as [r | X a k]; cbn; [tauto |]. now destruct a. Qed.

Lemma refreshes_in_bind {R S} n js (p : Prog R) (f : R -> Prog S) :
  refreshes_in n js p -> refreshes_in n js (bind p f).
Proof.
  revert n. induction p as [r | X a k IH]; intros n Hp; [contradiction |].
  destruct n as [| n]; cbn [bind refreshes_in] in *.
  - destruct a; try contradiction.
    intros t. apply assigns_updated_at_bind, Hp.
  - destruct Hp as [Ha Hk]. split; [exact Ha |]. intros x. apply IH, Hk.
Qed.

Lemma refreshing_bind {R S} (p : Prog R) (f : R -> Prog S) :
  refreshing p -> (forall r, refreshing (f r)) -> refreshing (bind p f).
Proof.
  intros Hp Hf. induction p as [r | X a k IH]; cbn [bind refreshing];
    [apply Hf |].
  destruct Hp as [Ha Hk]. split.
  - intros js Hs. destruct (Ha js Hs) as (n & Hn & Hr).
    exists n. split; [exact Hn |]. intros x. apply refreshes_in_bind, Hr.
  - intros x. apply IH, Hk.
Qed.

Lemma state_first_bind {R S} (p : Prog R) (f : R -> Prog S) :
  state_first p -> (forall r, state_first (f r)) -> state_first (bind p f).
Proof.
  intros Hp Hf. induction p as [r | X a k IH]; cbn [bind state_first];
    [apply Hf |].
  destruct Hp as [Hs | [Hu Hk]]; [now left |].
  right. split; [exact Hu |]. intros x. apply IH, Hk.
Qed.

Lemma counters_silent_bind {R S} (p : Prog R) (f : R -> Prog S) :
  counters_silent p ->
  (forall r, counters_silent (f r)) -> (forall r, state_first (f r)) ->
  counters_silent (bind p f).
Proof.
  intros Hp Hf Hs. induction p as [r | X a k IH];
    cbn [bind counters_silent]; [apply Hf |].
  destruct Hp as [Ha Hk]. split.
  - intros js Hc x. apply state_first_bind; [now apply (Ha js) | exact Hs].
  - intros x. apply IH, Hk.
Qed.

(** An action that is not an assignment of the state, of a counter or of
    [updated_at] fits every discipline. *)
Lemma refreshing_act {X} (a : Act X) :
  stores_any_state a = false -> refreshing (act a).
Proof.
  intros Ha. cbn. split; [| auto]. intros js Hs.
  destruct a; try discriminate. destruct f; try discriminate.
Qed.

Lemma counters_silent_act {X} (a : Act X) :
  mutates a = false -> counters_silent (act a).
Proof.
  intros Ha. cbn. split; [| auto]. intros js Hs.
  destruct a; try discriminate. destruct f; discriminate.
Qed.

Lemma state_first_act {X} (a : Act X) :
  stores_updated_at a = false -> state_first (act a).
Proof. intros Ha. cbn. right. auto. Qed.

Lemma refreshing_incr f js :
  stores_any_state (FieldStore f js 0) = false -> refreshing (incr f js).
Proof.
  intros Hf. unfold incr. apply refreshing_bind;
    [now apply refreshing_act |].
  intros v. apply refreshing_act. exact Hf.
Qed.

Lemma state_first_incr f js :
  stores_updated_at (FieldStore f js 0) = false -> state_first (incr f js).
Proof.
  intros Hf. unfold incr. apply state_first_bind;
    [now apply state_first_act |].
  intros v. apply state_first_act. exact Hf.
Qed.

(** The increment itself is followed by nothing. *)
Lemma counters_silent_incr f js : counters_silent (incr f js).
Proof. cbn. split; [discriminate |]. intros v. split; [| auto]. now intros. Qed.

Section Discipline.
Context {codecs : Codecs}.

Lemma sendToDLQ_disciplined js dt rowNum rawData errorMsg :
  refreshing (sendToDLQ js dt rowNum rawData errorMsg)
  /\ counters_silent (sendToDLQ js dt rowNum rawData errorMsg)
  /\ state_first (sendToDLQ js dt rowNum rawData errorMsg).
Proof.
  unfold sendToDLQ. split; [| split].
  - apply refreshing_bind; [now apply refreshing_act |]. intros jobID.
    apply refreshing_bind; [now apply refreshing_act |]. intros now.
    destruct (json_Marshal_RejectedRow _); [| exact I].
    apply refreshing_bind; [now apply refreshing_act |]. intros key.
    apply refreshing_bind; [now apply refreshing_act | now intros _].
  - apply counters_silent_bind; [now apply counters_silent_act | |];
      intros jobID.
    + apply counters_silent_bind; [now apply counters_silent_act | |];
        intros now; (destruct (json_Marshal_RejectedRow _); [| exact I]).
      * apply counters_silent_bind; [now apply counters_silent_act | |];
          intros key.
        -- apply counters_silent_bind;
             [now apply counters_silent_act | |]; now intros _.
        -- apply state_first_bind; [now apply state_first_act | now intros _].
      * apply state_first_bind; [now apply state_first_act |]. intros key.
        apply state_first_bind; [now apply state_first_act | now intros _].
    + apply state_first_bind; [now apply state_first_act |]. intros now.
      destruct (json_Marshal_RejectedRow _); [| exact I].
      apply state_first_bind; [now apply state_first_act |]. intros key.
      apply state_first_bind; [now apply state_first_act | now intros _].
  - apply state_first_bind; [now apply state_first_act |]. intros jobID.
    apply state_first_bind; [now apply state_first_act |]. intros now.
    destruct (json_Marshal_RejectedRow _); [| exact I].
    apply state_first_bind; [now apply state_first_act |]. intros key.
    apply state_first_bind; [now apply state_first_act | now intros _].
Qed.

(** The row loop assigns counters only: no state, no [updated_at]. *)
Lemma row_loop_disciplined js mt dt rl :
  forall rowNumber,
    refreshing (row_loop js mt dt rl rowNumber)
    /\ counters_silent (row_loop js mt dt rl rowNumber)
    /\ state_first (row_loop js mt dt rl rowNumber).
Proof.
  induction rl as [| r rl IH]; intros rowNumber; [cbn; auto |].
  assert (Hfail : forall raw msg,
            let p := (incr FErrors js ;;
                      sendToDLQ js dt (int_incr rowNumber) raw msg ;;
                      row_loop js mt dt rl (int_incr rowNumber))%prog in
            refreshing p /\ counters_silent p /\ state_first p).
  { intros raw msg p. subst p.
    destruct (IH (int_incr rowNumber)) as (I1 & I2 & I3).
    destruct (sendToDLQ_disciplined js dt (int_incr rowNumber) raw msg)
      as (D1 & D2 & D3).
    split; [| split].
    - apply refreshing_bind; [now apply refreshing_incr |]. intros _.
      apply refreshing_bind; [exact D1 | now intros _].
    - apply counters_silent_bind; [apply counters_silent_incr | |];
        intros _.
      + apply counters_silent_bind; [exact D2 | |]; now intros _.
      + apply state_first_bind; [exact D3 | now intros _].
    - apply state_first_bind; [now apply state_first_incr |]. intros _.
      apply state_first_bind; [exact D3 | now intros _]. }
  destruct (IH (int_incr rowNumber)) as (I1 & I2 & I3).
  destruct r as [rec | rec err]; cbn [row_loop]; [| apply Hfail].
  assert (Hrest :
    let p := match json_Marshal_record rec with
             | Err err =>
                 (incr FErrors js ;;
                  sendToDLQ js dt (int_incr rowNumber) (strings_Join rec ",")
                    ("JSON marshal error: " +:+ err) ;;
                  row_loop js mt dt rl (int_incr rowNumber))%prog
             | Ok payload =>
                 (key <- load FJobID js ;;
                  err <- act (kafka_WriteMessages mt
                                {| Key := key; Value := payload |}) ;;
                  match err with
                  | Some err =>
                      incr FErrors js ;;
                      sendToDLQ js dt (int_incr rowNumber)
                        (strings_Join rec ",")
                        ("Kafka write error: " +:+ err) ;;
                      row_loop js mt dt rl (int_incr rowNumber)
                  | None =>
                      incr FOK js ;;
                      row_loop js mt dt rl (int_incr rowNumber)
                  end)%prog
             end in
    refreshing p /\ counters_silent p /\ state_first p).
  { destruct (json_Marshal_record rec) as [payload | e]; [| apply Hfail].
    assert (Hw : forall err : option string,
      let p := match err with
               | Some err =>
                   (incr FErrors js ;;
                    sendToDLQ js dt (int_incr rowNumber)
                      (strings_Join rec ",")
                      ("Kafka write error: " +:+ err) ;;
                    row_loop js mt dt rl (int_incr rowNumber))%prog
               | None =>
                   (incr FOK js ;;
                    row_loop js mt dt rl (int_incr rowNumber))%prog
               end in
      refreshing p /\ counters_silent p /\ state_first p).
    { intros [e |]; [apply Hfail |]. cbv zeta. split; [| split].
      - apply refreshing_bind; [now apply refreshing_incr | now intros _].
      - apply counters_silent_bind;
          [apply counters_silent_incr | |]; now intros _.
      - apply state_first_bind; [now apply state_first_incr | now intros _]. }
    cbv zeta. split; [| split].
    - apply refreshing_bind; [now apply refreshing_act |]. intros key.
      apply refreshing_bind; [now apply refreshing_act |]. intros err.
      apply (Hw err).
    - apply counters_silent_bind; [now apply counters_silent_act | |];
        intros key.
      + apply counters_silent_bind; [now apply counters_silent_act | |];
          intros err; apply (Hw err).
      + apply state_first_bind; [now apply state_first_act |].
        intros err. apply (Hw err).
    - apply state_first_bind; [now apply state_first_act |]. intros key.
      apply state_first_bind; [now apply state_first_act |]. intros err.
      apply (Hw err). }
  cbv zeta in Hrest. destruct Hrest as (R1 & R2 & R3). split; [| split].
  - apply refreshing_bind; [now apply refreshing_incr | now intros _].
  - apply counters_silent_bind; [apply counters_silent_incr | |];
      now intros _.
  - apply state_first_bind; [now apply state_first_incr | now intros _].
Qed.

Lemma finish_job_disciplined js start :
  refreshing (finish_job js start)
  /\ counters_silent (finish_job js start)
  /\ state_first (finish_job js start).
Proof.
  unfold finish_job, resolve_state. cbn. split; [| split].
  - split; [discriminate |]. intros now. split; [discriminate |]. intros _.
    split; [discriminate |]. intros errors.
    assert (Hend : forall st : JobState,
      refreshing (store FState js st ;;
                  t <- act time_Now ;; store FUpdatedAt js t ;;
                  _ <- load FJobID js ;; _ <- load FRows js ;;
                  _ <- load FOK js ;; _ <- load FErrors js ;; Ret tt)%prog).
    { intros st. cbn. split.
      - intros js' Hs. exists 0%nat. split; [lia |]. intros _ t.
        cbn. apply Nat.eqb_eq in Hs. subst js'.
        now split.
      - intros _. repeat (split; [discriminate |]; intros ?). exact I. }
    destruct (0 <? errors); cbn.
    + split; [discriminate |]. intros ok.
      destruct (0 <? ok); [apply Hend |]. cbn.
      split; [discriminate |]. intros errors'.
      destruct (0 <? errors'); apply Hend.
    + split; [discriminate |]. intros errors'.
      destruct (0 <? errors'); apply Hend.
  - split; [discriminate |]. intros now. split; [discriminate |]. intros _.
    split; [discriminate |]. intros errors.
    assert (Hend : forall st : JobState,
      counters_silent (store FState js st ;;
                       t <- act time_Now ;; store FUpdatedAt js t ;;
                       _ <- load FJobID js ;; _ <- load FRows js ;;
                       _ <- load FOK js ;; _ <- load FErrors js ;;
                       Ret tt)%prog).
    { intros st. cbn. repeat (split; [discriminate |]; intros ?). exact I. }
    destruct (0 <? errors); cbn.
    + split; [discriminate |]. intros ok.
      destruct (0 <? ok); [apply Hend |]. cbn.
      split; [discriminate |]. intros errors'.
      destruct (0 <? errors'); apply Hend.
    + split; [discriminate |]. intros errors'.
      destruct (0 <? errors'); apply Hend.
  - right. split; [reflexivity |]. intros now.
    right. split; [reflexivity |]. intros _.
    right. split; [reflexivity |]. intros errors.
    destruct (0 <? errors); cbn.
    + right. split; [reflexivity |]. intros ok.
      destruct (0 <? ok); cbn; [now left |].
      right. split; [reflexivity |]. intros errors'.
      destruct (0 <? errors'); cbn; now left.
    + right. split; [reflexivity |]. intros errors'.
      destruct (0 <? errors'); cbn; now left.
Qed.

(** The task: every assignment of the state is followed by the refresh, and
    no assignment of a counter is. *)
Lemma processJob_disciplined js f kind :
  refreshing (processJob js f kind)
  /\ counters_silent (processJob js f kind).
Proof.
  assert (Htail : forall mt dt start,
    let p := (_ <- act (kafka_CreateTopics [mt; dt]) ;;
              row_loop js mt dt (csv_records (remaining f)) 0 ;;
              finish_job js start)%prog in
    refreshing p /\ counters_silent p /\ state_first p).
  { intros mt dt start p. subst p.
    destruct (row_loop_disciplined js mt dt (csv_records (remaining f)) 0)
      as (L1 & L2 & L3).
    destruct (finish_job_disciplined js start) as (F1 & F2 & F3).
    split; [| split].
    - apply refreshing_bind; [now apply refreshing_act |]. intros _.
      apply refreshing_bind; [exact L1 | now intros _].
    - apply counters_silent_bind; [now apply counters_silent_act | |];
        intros _.
      + apply counters_silent_bind; [exact L2 | |]; now intros _.
      + apply state_first_bind; [exact L3 | now intros _].
    - apply state_first_bind; [now apply state_first_act |]. intros _.
      apply state_first_bind; [exact L3 | now intros _]. }
  assert (Hfail : refreshing (fail_job js) /\ counters_silent (fail_job js)
                  /\ state_first (fail_job js)).
  { unfold fail_job. cbn. split; [| split].
    - split.
      + intros js' Hs. exists 0%nat. split; [lia |]. intros _ t. cbn.
        apply Nat.eqb_eq in Hs. subst js'. now split.
      + intros _. repeat (split; [discriminate |]; intros ?). exact I.
    - repeat (split; [discriminate |]; intros ?). exact I.
    - now left. }
  assert (Hrest : forall start,
    let p := (jobID <- load FJobID js ;;
              jobID' <- load FJobID js ;;
              conn <- act kafka_Dial ;;
              match conn with
              | Some _ => fail_job js
              | None =>
                  _ <- act (kafka_CreateTopics
                              ["batch_" +:+ jobID;
                               "batch_" +:+ jobID' +:+ "_dlq"]) ;;
                  row_loop js ("batch_" +:+ jobID)
                    ("batch_" +:+ jobID' +:+ "_dlq")
                    (csv_records (remaining f)) 0 ;;
                  finish_job js start
              end)%prog in
    refreshing p /\ counters_silent p /\ state_first p).
  { intros start p. subst p. split; [| split].
    - apply refreshing_bind; [now apply refreshing_act |]. intros id1.
      apply refreshing_bind; [now apply refreshing_act |]. intros id2.
      apply refreshing_bind; [now apply refreshing_act |].
      intros [e |]; [apply Hfail | apply Htail].
    - apply counters_silent_bind; [now apply counters_silent_act | |];
        intros id1.
      + apply counters_silent_bind; [now apply counters_silent_act | |];
          intros id2.
        * apply counters_silent_bind; [now apply counters_silent_act | |];
            intros [e |]; solve [apply Hfail | apply Htail].
        * apply state_first_bind; [now apply state_first_act |].
          intros [e |]; [apply Hfail | apply Htail].
      + apply state_first_bind; [now apply state_first_act |]. intros id2.
        apply state_first_bind; [now apply state_first_act |].
        intros [e |]; [apply Hfail | apply Htail].
    - apply state_first_bind; [now apply state_first_act |]. intros id1.
      apply state_first_bind; [now apply state_first_act |]. intros id2.
      apply state_first_bind; [now apply state_first_act |].
      intros [e |]; [apply Hfail | apply Htail]. }
  assert (Hbegin : refreshing (begin_job js)
                   /\ counters_silent (begin_job js)).
  { unfold begin_job. cbn. split.
    - split; [discriminate |]. intros start. split.
      + intros js' Hs. exists 2%nat. split; [lia |]. intros _.
        apply Nat.eqb_eq in Hs. subst js'.
        cbn. split; [reflexivity |]. intros t1.
        split; [reflexivity |]. intros _ t2. now split.
      + intros _. repeat (split; [discriminate |]; intros ?). exact I.
    - repeat (split; [discriminate |]; intros ?). exact I. }
  unfold processJob. split.
  - apply refreshing_bind; [apply Hbegin |]. intros start. apply Hrest.
  - apply counters_silent_bind; [apply Hbegin | |]; intros start;
      apply Hrest.
Qed.

End Discipline.

(** *** What the disciplines mean when the task runs *)

Lemma run_cons `{Codecs} (e : Event) (rest : list Event) (s : Sys) :
  run (e :: rest) s
  = (option_list (fst (fire e s)) ++ fst (run rest (snd (fire e s))),
     snd (run rest (snd (fire e s)))).
Proof.
  cbn [run]. destruct (fire e s) as [d s1]. cbn [fst snd].
  now destruct (run rest s1) as [ds s2].
Qed.

Lemma act_sem_clock {X} (a : Act X) (s : Sys) :
  clock (snd (act_sem a s)) = clock s.
Proof.
  destruct a; simpl; try reflexivity.
  now destruct (broker_create ts (broker s)).
Qed.

Lemma step_goroutine_Vis tid (s : Sys) g {X} (a : Act X) k :
  goroutines s !! tid = Some g -> g_code g = Vis a k ->
  step_goroutine tid s
  = (Some (did tid a),
     with_goroutines
       (<[tid := with_code (k (fst (act_sem a s))) g]> (goroutines s))
       (snd (act_sem a s))).
Proof.
  intros Hg Hc. unfold step_goroutine. rewrite Hg, Hc.
  pose proof (act_sem_goroutines a s) as Hgs.
  destruct (act_sem a s) as [x s1]. cbn [fst snd] in *. now rewrite Hgs.
Qed.

Lemma step_goroutine_Ret tid (s : Sys) g r :
  goroutines s !! tid = Some g -> g_code g = Ret r ->
  step_goroutine tid s = (None, s).
Proof. intros Hg Hc. unfold step_goroutine. now rewrite Hg, Hc. Qed.

Lemma elapsed_cons d ds : elapsed (d :: ds) = Z.of_N d + elapsed ds.
Proof. unfold elapsed. cbn [foldr]. lia. Qed.

Lemma elapsed_nonneg ds : 0 <= elapsed ds.
Proof. unfold elapsed. lia. Qed.

Lemma elapsed_removelast ds : elapsed (removelast ds) <= elapsed ds.
Proof.
  induction ds as [| d [| d' ds] IH]; [reflexivity | |].
  - cbn [removelast]. rewrite elapsed_cons. unfold elapsed. cbn. lia.
  - change (removelast (d :: d' :: ds)) with (d :: removelast (d' :: ds)).
    rewrite !(elapsed_cons d). lia.
Qed.

(** An action that is no assignment of a field leaves it. *)
Lemma act_sem_keeps_state {X} (a : Act X) (s : Sys) js j :
  mutates a = false -> heap s !! js = Some j ->
  exists j1, heap (snd (act_sem a s)) !! js = Some j1
             /\ State j1 = State j /\ Totals j1 = Totals j.
Proof.
  intros Ha Hj.
  destruct a as [T f l | T f l v | l | | | ts | t m]; simpl in *;
    try (exists j; now repeat split).
  - destruct (decide (js = l)) as [-> | Hne].
    + exists (set f v j). rewrite list_lookup_alter_eq, Hj.
      split; [reflexivity |]. destruct f; try discriminate; now split.
    + exists j. rewrite list_lookup_alter_ne by congruence. now repeat split.
  - destruct (broker_create ts (broker s)). exists j. now repeat split.
Qed.

Lemma act_sem_keeps_updated_at {X} (a : Act X) (s : Sys) js j :
  stores_updated_at a = false -> heap s !! js = Some j ->
  exists j1, heap (snd (act_sem a s)) !! js = Some j1
             /\ UpdatedAt j1 = UpdatedAt j.
Proof.
  intros Ha Hj.
  destruct a as [T f l | T f l v | l | | | ts | t m]; simpl in *;
    try (exists j; now repeat split).
  - destruct (decide (js = l)) as [-> | Hne].
    + exists (set f v j). rewrite list_lookup_alter_eq, Hj.
      split; [reflexivity |]. destruct f; try discriminate; reflexivity.
    + exists j. rewrite list_lookup_alter_ne by congruence. now repeat split.
  - destruct (broker_create ts (broker s)). exists j. now repeat split.
Qed.

Section Paced.
Context {codecs : Codecs}.

(** One round of a paced schedule when the goroutine has an action left. *)
Lemma run_paced_Vis tid d ds (s : Sys) g {X} (a : Act X) k :
  goroutines s !! tid = Some g -> g_code g = Vis a k ->
  exists s1,
    run (paced tid (d :: ds)) s
    = (did tid a :: fst (run (paced tid ds) s1),
       snd (run (paced tid ds) s1))
    /\ goroutines s1 !! tid
       = Some (with_code
                 (k (fst (act_sem a (with_clock (clock s + Z.of_N d) s)))) g)
    /\ heap s1 = heap (snd (act_sem a (with_clock (clock s + Z.of_N d) s)))
    /\ clock s1 = clock s + Z.of_N d.
Proof.
  intros Hg Hc.
  assert (Hlt : (tid < length (goroutines s))%nat)
    by (eapply lookup_lt_Some; eauto).
  eexists. split; [| split; [| split]].
  - change (paced tid (d :: ds))
      with (EvTick d :: EvStep tid :: paced tid ds).
    rewrite run_cons. cbn [fire fst snd option_list app].
    rewrite run_cons. cbn [fire].
    rewrite (step_goroutine_Vis tid (with_clock (clock s + Z.of_N d) s)
               g a k Hg Hc).
    reflexivity.
  - cbn [goroutines with_goroutines]. now apply list_lookup_insert_eq.
  - reflexivity.
  - exact (act_sem_clock a (with_clock (clock s + Z.of_N d) s)).
Qed.

Lemma run_paced_Ret tid d ds (s : Sys) g r :
  goroutines s !! tid = Some g -> g_code g = Ret r ->
  run (paced tid (d :: ds)) s
  = run (paced tid ds) (with_clock (clock s + Z.of_N d) s).
Proof.
  intros Hg Hc.
  change (paced tid (d :: ds)) with (EvTick d :: EvStep tid :: paced tid ds).
  rewrite run_cons. cbn [fire fst snd option_list app].
  rewrite run_cons. cbn [fire].
  rewrite (step_goroutine_Ret tid (with_clock _ s) g r Hg Hc).
  cbn [fst snd option_list app]. now destruct (run _ _).
Qed.

(** A goroutine that is about to refresh does so, however much time passes
    before each of its actions, and the time it assigns is the time at
    which it read the clock. *)
Lemma paced_refresh tid js n :
  forall (p : Prog unit) (s : Sys) g j ds,
    refreshes_in n js p ->
    goroutines s !! tid = Some g -> g_code g = p ->
    heap s !! js = Some j ->
    length ds = S (S n) ->
    exists j',
      heap (snd (run (paced tid ds) s)) !! js = Some j'
      /\ State j' = State j /\ Totals j' = Totals j
      /\ UpdatedAt j' = clock s + elapsed (removelast ds)
      /\ clock (snd (run (paced tid ds) s)) = clock s + elapsed ds.
Proof.
  induction n as [| n IH]; intros p s g j ds Hp Hg Hc Hj Hlen.
  - destruct ds as [| d1 [| d2 [| ? ?]]]; try discriminate.
    destruct p as [r | X a k]; [contradiction |]. cbn in Hp.
    destruct a; try contradiction.
    destruct (run_paced_Vis tid d1 [d2] s g time_Now k Hg Hc)
      as (s1 & Hrun & Hg1 & Hh1 & Hc1).
    rewrite Hrun. cbn [snd]. cbn [act_sem fst snd clock heap with_clock]
      in Hg1, Hh1.
    specialize (Hp (clock s + Z.of_N d1)).
    destruct (k (clock s + Z.of_N d1)) as [r | X a k'] eqn:Hk;
      [contradiction |].
    destruct a as [| T f l v | | | | |]; try contradiction.
    destruct Hp as [-> Hf].
    destruct f; try contradiction. subst v.
    destruct (run_paced_Vis tid d2 [] s1 _
                (FieldStore FUpdatedAt js (clock s + Z.of_N d1)) k'
                Hg1 eq_refl) as (s2 & Hrun2 & _ & Hh2 & Hc2).
    rewrite Hrun2. cbn [snd paced flat_map run].
    cbn [act_sem fst snd heap with_heap with_clock] in Hh2.
    rewrite Hh2, Hh1.
    exists (set FUpdatedAt (clock s + Z.of_N d1) j).
    split; [unfold loc in *; now rewrite list_lookup_alter_eq, Hj |]. split; [reflexivity |]. split; [reflexivity |].
    split.
    + cbn [removelast set UpdatedAt]. rewrite elapsed_cons. unfold elapsed.
      cbn. lia.
    + rewrite Hc2, Hc1, !elapsed_cons. unfold elapsed. cbn. lia.
  - destruct ds as [| d ds]; [discriminate |].
    destruct p as [r | X a k]; [contradiction |]. cbn in Hp.
    destruct Hp as [Ha Hk].
    destruct (run_paced_Vis tid d ds s g a k Hg Hc)
      as (s1 & Hrun & Hg1 & Hh1 & Hc1).
    rewrite Hrun. cbn [snd].
    destruct (act_sem_keeps_state a (with_clock (clock s + Z.of_N d) s)
                js j Ha Hj) as (j1 & Hj1 & Hst & Htot).
    rewrite <- Hh1 in Hj1.
    destruct (IH _ s1 _ j1 ds (Hk _) Hg1 eq_refl Hj1) as
      (j' & Hj' & Hst' & Htot' & Hup & Hck); [cbn in Hlen; lia |].
    exists j'. split; [exact Hj' |]. split; [congruence |].
    split; [congruence |]. split.
    + rewrite Hup, Hc1.
      destruct ds as [| d' ds']; [discriminate |].
      change (removelast (d :: d' :: ds'))
        with (d :: removelast (d' :: ds')).
      rewrite (elapsed_cons d). lia.
    + rewrite Hck, Hc1, elapsed_cons. lia.
Qed.

(** A goroutine that does not assign [updated_at] before it assigns a state
    leaves [updated_at] for as long as it assigns no state. *)
Lemma paced_state_first tid js :
  forall ds (p : Prog unit) (s : Sys) g j,
    state_first p ->
    goroutines s !! tid = Some g -> g_code g = p ->
    heap s !! js = Some j ->
    forallb (fun d => negb (did_stores_state d))
      (fst (run (paced tid ds) s)) = true ->
    exists j',
      heap (snd (run (paced tid ds) s)) !! js = Some j'
      /\ UpdatedAt j' = UpdatedAt j
      /\ clock (snd (run (paced tid ds) s)) = clock s + elapsed ds.
Proof.
  induction ds as [| d ds IH]; intros p s g j Hp Hg Hc Hj Htr.
  - exists j. cbn. unfold elapsed. cbn. split; [exact Hj |].
    split; [reflexivity | lia].
  - destruct p as [r | X a k].
    + rewrite (run_paced_Ret tid d ds s g r Hg Hc) in *.
      destruct (IH (Ret r) (with_clock (clock s + Z.of_N d) s) g j
                  I Hg Hc Hj Htr) as (j' & Hj' & Hup & Hck).
      exists j'. split; [exact Hj' |]. split; [exact Hup |].
      rewrite Hck, elapsed_cons. cbn [clock with_clock]. lia.
    + destruct (run_paced_Vis tid d ds s g a k Hg Hc)
        as (s1 & Hrun & Hg1 & Hh1 & Hc1).
      rewrite Hrun in *. cbn [fst snd forallb did_stores_state] in *.
      apply andb_prop in Htr as [Hns Htr].
      cbn in Hp. destruct Hp as [Hs | [Hu Hk]];
        [rewrite Hs in Hns; discriminate |].
      destruct (act_sem_keeps_updated_at a
                  (with_clock (clock s + Z.of_N d) s) js j Hu Hj)
        as (j1 & Hj1 & Hup1).
      rewrite <- Hh1 in Hj1.
      destruct (IH _ s1 _ j1 (Hk _) Hg1 eq_refl Hj1 Htr)
        as (j' & Hj' & Hup & Hck).
      exists j'. split; [exact Hj' |]. split; [congruence |].
      rewrite Hck, Hc1, elapsed_cons. lia.
Qed.

End Paced.

(** *** The goroutines of the process *)

Section Pool.
Context {codecs : Codecs} {decoders : Decoders}.

(** What a request does to the pool: nothing, one step of one goroutine, or
    one new task. *)
Lemma serve_pool (r : Request) (s : Sys) :
  goroutines (serve r s) = goroutines s
  \/ (exists tid g X (a : Act X) k x,
        goroutines s !! tid = Some g /\ g_code g = Vis a k
        /\ goroutines (serve r s)
           = <[tid := with_code (k x) g]> (goroutines s))
  \/ (exists g js f kind,
        g_code g = processJob js f kind
        /\ goroutines (serve r s) = goroutines s ++ [g]).
Proof.
  assert (Hrand : forall s', snd (randomID s) = s' ->
            goroutines s' = goroutines s).
  { intros s' <-. pose proof (randomID_loop_frame 8 s) as Hfr.
    cbv zeta in Hfr. apply Hfr. }
  destruct r as [[tid | dt | r | id] | body | id body | id | id d];
    cbn [serve fire snd].
  - unfold step_goroutine.
    destruct (goroutines s !! tid) as [g |] eqn:Hg; [| now left].
    destruct (g_code g) as [r | X a k] eqn:Hc; [now left |].
    right; left. pose proof (act_sem_goroutines a s) as Hgs.
    destruct (act_sem a s) as [x s1]. cbn [snd] in *.
    exists tid, g, X, a, k, x. cbn [goroutines with_goroutines].
    now rewrite Hgs.
  - now left.
  - destruct (createJob_shape r s) as [(file & kind & ->) | [-> _]];
      [| now left].
    right; right. unfold accepted. cbn [snd goroutines].
    eexists _, _, _, _. split; [| reflexivity]. reflexivity.
  - left. unfold cancelJob. destruct (jobs s !! id) as [l |]; [| reflexivity].
    pose proof (exec_goroutines (cancel_body l) s) as Hgs.
    now destruct (exec (cancel_body l) s) as [written s1].
  - left. unfold createModel. destruct body as [m | e]; [| reflexivity].
    destruct (decide (ID m = "")); [| reflexivity].
    specialize (Hrand _ eq_refl). now destruct (randomID s) as [id s1].
  - left. unfold updateModel. destruct body as [m | e]; [| reflexivity].
    now destruct (models s !! id).
  - left. unfold deleteModel. now destruct (models s !! id).
  - left. unfold rejectedRows. destruct (jobs s !! id); [| reflexivity].
    specialize (Hrand _ eq_refl). now destruct (randomID s) as [id' s1].
Qed.

Section Invariant.
Variable P : Prog unit -> Prop.
Hypothesis P_next : forall X (a : Act X) k, P (Vis a k) -> forall x, P (k x).
Hypothesis P_task : forall js f kind, P (processJob js f kind).

(** A property of [processJob] that every continuation inherits holds of
    every goroutine of every state the process reaches. *)
Lemma serve_all_pool (rs : list Request) (s : Sys) :
  Forall (fun g => P (g_code g)) (goroutines s) ->
  Forall (fun g => P (g_code g)) (goroutines (serve_all rs s)).
Proof.
  revert s. induction rs as [| r rs IH]; intros s Hs; [exact Hs |].
  cbn [serve_all foldl]. apply IH.
  destruct (serve_pool r s)
    as [-> | [(tid & g & X & a & k & x & Hg & Hc & ->)
             | (g & js & f & kind & Hc & ->)]].
  - exact Hs.
  - apply Forall_insert; [exact Hs |]. cbn [g_code with_code].
    apply (P_next X a). rewrite <- Hc.
    eapply (Forall_lookup_1 (fun g => P (g_code g))); eauto.
  - apply Forall_app. split; [exact Hs |].
    constructor; [| constructor]. rewrite Hc. apply P_task.
Qed.

End Invariant.

Lemma reached_pool_disciplined src now b (rs : list Request) tid g :
  goroutines (serve_all rs (boot src now b)) !! tid = Some g ->
  refreshing (g_code g) /\ counters_silent (g_code g).
Proof.
  intros Hg. split.
  - eapply (Forall_lookup_1 (fun g => refreshing (g_code g))); [| exact Hg].
    apply (serve_all_pool (fun p => refreshing p)
             (fun X a k H => proj2 H)
             (fun js f kind => proj1 (processJob_disciplined js f kind))).
    constructor.
  - eapply (Forall_lookup_1 (fun g => counters_silent (g_code g)));
      [| exact Hg].
    apply (serve_all_pool (fun p => counters_silent p)
             (fun X a k H => proj2 H)
             (fun js f kind => proj2 (processJob_disciplined js f kind))).
    constructor.
Qed.

(** C9, as the code has it. In every state the process reaches, through
    any sequence of requests, goroutine steps and clock ticks:

    - when the next action of a task assigns the state of its job (RUNNING
      when the job is picked up, FAILED when the broker cannot be reached,
      the final state at the end of the input), then the task, after at
      most two further actions that assign neither a state nor a counter,
      reads the clock and assigns the time read to [updated_at]: however
      much time [ds] passes before each of these actions, [updated_at] is
      then the time of that read, between the time of the assignment and
      the time the refresh is written, and state and counters are as the
      assignment left them;

    - a cancel request that is served assigns CANCELLED and the time of the
      request to [updated_at];

    - when the next action of a task assigns a counter (rows, ok, errors),
      no refresh follows: for as long as the task assigns no state,
      whatever time passes, [updated_at] stays what it was.

    The last part is the discipline of the program text that the three
    rest on. *)
Theorem state_changes_refresh_updated_at (src : nat -> Z) (now : Z)
    (b : Broker) (rs : list Request) :
  let s := serve_all rs (boot src now b) in
  (forall tid js,
     about_to_store_state tid js s = true ->
     exists n j1,
       (n <= 2)%nat
       /\ heap (snd (step_goroutine tid s)) !! js = Some j1
       /\ forall ds, length ds = S (S n) ->
          let s' := snd (run (paced tid ds) (snd (step_goroutine tid s))) in
          exists j',
            heap s' !! js = Some j'
            /\ State j' = State j1 /\ Totals j' = Totals j1
            /\ UpdatedAt j' = clock s + elapsed (removelast ds)
            /\ clock s <= UpdatedAt j' <= clock s')
  /\ (forall id l,
        jobs s !! id = Some l ->
        exists j', heap (snd (cancelJob id s)) !! l = Some j'
                   /\ State j' = StateCancelled
                   /\ UpdatedAt j' = clock s)
  /\ (forall tid js j ds,
        about_to_store_counter tid js s = true ->
        heap s !! js = Some j ->
        let r := run (EvStep tid :: paced tid ds) s in
        forallb (fun d => negb (did_stores_state d)) (fst r) = true ->
        exists j', heap (snd r) !! js = Some j'
                   /\ UpdatedAt j' = UpdatedAt j
                   /\ clock (snd r) = clock s + elapsed ds)
  /\ (forall js f kind,
        refreshing (processJob js f kind)
        /\ counters_silent (processJob js f kind)).
Proof.
  intros s.
  destruct (serve_all_sound rs _ (sound_boot src now b))
    as [Hsound _].
  pose proof (serve_all_isolated rs _ (sound_boot src now b)
                (isolated_boot src now b)) as [Hlen Hpool].
  fold s in Hsound, Hlen, Hpool.
  split; [| split; [| split]].
  - intros tid js Hnext.
    unfold about_to_store_state, next_action_is in Hnext.
    destruct (goroutines s !! tid) as [g |] eqn:Hg; [| discriminate].
    destruct (g_code g) as [r | X a k] eqn:Hc; [discriminate |].
    rename Hnext into Hs.
    destruct (reached_pool_disciplined src now b rs tid g Hg) as [Hr _].
    rewrite Hc in Hr. destruct Hr as [Hr _].
    destruct (Hr js Hs) as (n & Hn & Hk).
    destruct (Hpool tid g Hg) as [_ Hconf]. rewrite Hc in Hconf.
    destruct Hconf as [Hw _].
    assert (Hlt : (tid < length (goroutines s))%nat)
      by (eapply lookup_lt_Some; eauto).
    assert (js = tid) as ->.
    { destruct a; try discriminate. cbn in Hs, Hw.
      apply andb_prop in Hs as [_ Hs].
      apply Nat.eqb_eq in Hs, Hw. congruence. }
    destruct (lookup_lt_is_Some_2 (heap s) tid) as [j Hj]; [lia |].
    rewrite (step_goroutine_Vis tid s g a k Hg Hc). cbn [snd].
    destruct (act_sem_keeps_updated_at a s tid j) as (j1 & Hj1 & _);
      [now destruct a as [| T f ? ? | | | | |]; try reflexivity;
           destruct f | exact Hj |].
    exists n, j1. split; [exact Hn |]. split; [exact Hj1 |].
    intros ds Hds.
    destruct (paced_refresh tid tid n (k (fst (act_sem a s)))
                (with_goroutines
                   (<[tid := with_code (k (fst (act_sem a s))) g]>
                      (goroutines s))
                   (snd (act_sem a s)))
                (with_code (k (fst (act_sem a s))) g) j1 ds (Hk _)
                (list_lookup_insert_eq _ _ _ Hlt) eq_refl Hj1 Hds)
      as (j' & Hj' & Hst & Htot & Hup & Hck).
    cbn [clock with_goroutines] in Hup, Hck. rewrite act_sem_clock in Hup, Hck.
    exists j'. split; [exact Hj' |]. split; [exact Hst |].
    split; [exact Htot |]. split; [exact Hup |].
    rewrite Hup, Hck.
    pose proof (elapsed_nonneg (removelast ds)).
    pose proof (elapsed_removelast ds). lia.
  - intros id l Hid. destruct Hsound as [_ Hjobs _ _].
    destruct (Hjobs id l Hid) as (j & Hj & _).
    rewrite (cancelJob_known id s l j Hid Hj). cbn [snd heap with_heap].
    eexists. split; [apply list_lookup_insert_eq; eapply lookup_lt_Some; eauto |].
    split; reflexivity.
  - intros tid js j ds Hnext Hj r Htr. subst r.
    unfold about_to_store_counter, next_action_is in Hnext.
    destruct (goroutines s !! tid) as [g |] eqn:Hg; [| discriminate].
    destruct (g_code g) as [r | X a k] eqn:Hc; [discriminate |].
    rename Hnext into Hs.
    destruct (reached_pool_disciplined src now b rs tid g Hg) as [_ Hr].
    rewrite Hc in Hr. destruct Hr as [Hr _].
    assert (Hlt : (tid < length (goroutines s))%nat)
      by (eapply lookup_lt_Some; eauto).
    rewrite run_cons in *. cbn [fire] in *.
    rewrite (step_goroutine_Vis tid s g a k Hg Hc) in *.
    cbn [fst snd option_list app forallb] in *.
    apply andb_prop in Htr as [_ Htr].
    destruct (act_sem_keeps_updated_at a s js j) as (j1 & Hj1 & Hup1);
      [now destruct a as [| T f ? ? | | | | |]; try reflexivity;
           destruct f | exact Hj |].
    destruct (paced_state_first tid js ds (k (fst (act_sem a s)))
                (with_goroutines
                   (<[tid := with_code (k (fst (act_sem a s))) g]>
                      (goroutines s))
                   (snd (act_sem a s)))
                (with_code (k (fst (act_sem a s))) g) j1 (Hr js Hs _)
                (list_lookup_insert_eq _ _ _ Hlt) eq_refl Hj1 Htr)
      as (j' & Hj' & Hup & Hck).
    cbn [clock with_goroutines] in Hck. rewrite act_sem_clock in Hck.
    exists j'. split; [exact Hj' |]. split; [congruence | exact Hck].
  - intros. apply processJob_disciplined.
Qed.

End Pool.

(* ===================================================================== *)
(** ** What the other requests leave of a job *)
(* ===================================================================== *)

Section OtherRequests.
Context {codecs : Codecs} {decoders : Decoders}.

(** A request that is neither a step of the task of the record at [l] nor a
    cancel request for the job registered there leaves the record. *)
Lemma serve_other_record (r : Request) (s : Sys) l j :
  sound s -> isolated s ->
  heap s !! l = Some j ->
  steps_task l r = false -> cancels_job (JobID j) r = false ->
  heap (serve r s) !! l = Some j.
Proof.
  intros [_ Hjobs _ _] [Hlen Hpool] Hj Hstep Hcancel.
  assert (Hrand : forall s', snd (randomID s) = s' -> heap s' = heap s).
  { intros s' <-. pose proof (randomID_loop_frame 8 s) as Hfr.
    cbv zeta in Hfr. apply Hfr. }
  destruct r as [[tid | dt | r | id] | body | id body | id | id d];
    cbn [serve fire snd steps_task cancels_job] in *.
  - apply Nat.eqb_neq in Hstep. unfold step_goroutine.
    destruct (goroutines s !! tid) as [g |] eqn:Hg; [| exact Hj].
    destruct (Hpool tid g Hg) as [_ Hconf].
    destruct (g_code g) as [r | X a k]; [exact Hj |].
    destruct Hconf as [Hw _].
    pose proof (act_sem_writes_at a tid l s Hw ltac:(congruence)) as Hh.
    destruct (act_sem a s) as [x s1]. cbn [snd heap with_goroutines] in *.
    etrans; [exact Hh | exact Hj].
  - exact Hj.
  - destruct (createJob_shape r s) as [(file & kind & ->) | [-> _]];
      [| exact Hj].
    unfold accepted. cbn [snd heap]. now apply lookup_app_l_Some.
  - destruct (jobs s !! id) as [l' |] eqn:Hid;
      [| now rewrite (cancelJob_unknown id s Hid)].
    destruct (Hjobs id l' Hid) as (j' & Hj' & Hjid).
    rewrite (cancelJob_known id s l' j' Hid Hj'). cbn [snd heap with_heap].
    rewrite list_lookup_insert_ne; [exact Hj |].
    intros ->. unfold loc in *. rewrite Hj in Hj'. injection Hj' as <-.
    rewrite Hjid, String.eqb_refl in Hcancel. discriminate.
  - unfold createModel. destruct body as [m | e]; [| exact Hj].
    destruct (decide (ID m = "")); [| exact Hj].
    specialize (Hrand _ eq_refl). destruct (randomID s) as [id s1].
    cbn [snd heap with_models] in *. now rewrite Hrand.
  - unfold updateModel. destruct body as [m | e]; [| exact Hj].
    now destruct (models s !! id).
  - unfold deleteModel. now destruct (models s !! id).
  - unfold rejectedRows. destruct (jobs s !! id); [| exact Hj].
    specialize (Hrand _ eq_refl). destruct (randomID s) as [id' s1].
    cbn [snd] in *. now rewrite Hrand.
Qed.

Lemma serve_all_other_record (rs : list Request) (s : Sys) l j :
  sound s -> isolated s ->
  heap s !! l = Some j ->
  existsb (steps_task l) rs = false ->
  existsb (cancels_job (JobID j)) rs = false ->
  heap (serve_all rs s) !! l = Some j.
Proof.
  revert s. induction rs as [| r rs IH]; intros s Hs Hi Hj Hstep Hcancel;
    [exact Hj |].
  cbn [existsb] in Hstep, Hcancel.
  apply orb_false_elim in Hstep as [Hs1 Hs2].
  apply orb_false_elim in Hcancel as [Hc1 Hc2].
  cbn [serve_all foldl]. apply IH; try assumption.
  - now apply serve_sound.
  - now apply serve_isolated.
  - now apply serve_other_record.
Qed.

End OtherRequests.

(* ===================================================================== *)
(** ** What a client sees of a job between two requests *)
(* ===================================================================== *)

Section JobViews.
Context {codecs : Codecs} {decoders : Decoders}.

(** The first two actions of the task: it reads the clock and assigns
    RUNNING. *)
Lemma processJob_head js f kind :
  exists rest,
    processJob js f kind
    = Vis time_Now
        (fun start => Vis (FieldStore FState js StateRunning) (rest start)).
Proof. eexists. unfold processJob, begin_job. cbn [bind act store]. reflexivity. Qed.

Lemma run_two_steps tid (s : Sys) g rest (st : JobState) :
  goroutines s !! tid = Some g ->
  g_code g
  = Vis time_Now (fun start => Vis (FieldStore FState tid st) (rest start)) ->
  jobs (snd (run [EvStep tid; EvStep tid] s)) = jobs s
  /\ heap (snd (run [EvStep tid; EvStep tid] s))
     = alter (set FState st) tid (heap s).
Proof.
  intros Hg Hc.
  assert (Hlt : (tid < length (goroutines s))%nat)
    by (eapply lookup_lt_Some; eauto).
  rewrite run_cons. cbn [fire].
  rewrite (step_goroutine_Vis tid s g time_Now _ Hg Hc).
  cbn [fst snd act_sem].
  rewrite run_cons. cbn [fire].
  erewrite step_goroutine_Vis;
    [| cbn [goroutines with_goroutines]; now apply list_lookup_insert_eq
     | reflexivity].
  cbn [fst snd run]. split; reflexivity.
Qed.

(** X7. An accepted job reads PENDING until its task acts. In every state
    the process reaches, an upload that is answered 202 registers the
    returned identifier for a new record, the one its task holds. Whatever
    requests, steps of other tasks and clock ticks follow, as long as that
    task takes no step and no cancel request for the identifier is served,
    the record is the one [createJob] wrote, and [getJob] on the identifier
    (as long as no later upload has drawn the same one) shows it: PENDING,
    counters and timings zero, the model of the request, the time of the
    request. The task is started before the answer is written; once it has
    taken its first two steps, [getJob] shows RUNNING. *)
Theorem accepted_job_is_pending_until_its_task_acts (src : nat -> Z)
    (now : Z) (b : Broker) (rs0 : list Request) (r : UploadRequest) :
  let s := serve_all rs0 (boot src now b) in
  let l := length (heap s) in
  status (fst (createJob r s)) = StatusAccepted ->
  exists id,
    body (fst (createJob r s)) = JobIDBody id
    /\ jobs (snd (createJob r s)) !! id = Some l
    /\ (exists g, goroutines (snd (createJob r s)) !! l = Some g
                  /\ g_js g = l)
    /\ (forall rs,
          existsb (steps_task l) rs = false ->
          existsb (cancels_job id) rs = false ->
          let s2 := serve_all rs (snd (createJob r s)) in
          heap s2 !! l
          = Some (new_JobStatus id (form_model_id r) (clock s))
          /\ (jobs s2 !! id = Some l ->
              getJob id s2
              = {| code := StatusOK;
                   payload := JobPayload
                     (pending_JSON id (form_model_id r) (clock s)) |}))
    /\ (exists shown,
          getJob id (snd (run [EvStep l; EvStep l] (snd (createJob r s))))
          = {| code := StatusOK; payload := JobPayload shown |}
          /\ state shown = "RUNNING" /\ job_id shown = id
          /\ model_id shown = form_model_id r).
Proof.
  intros s l Hst.
  destruct (serve_all_sound rs0 _ (sound_boot src now b)) as [Hsound _].
  pose proof (serve_all_isolated rs0 _ (sound_boot src now b)
                (isolated_boot src now b)) as Hiso.
  fold s in Hsound, Hiso.
  pose proof (proj1 (createJob_sound r s Hsound)) as Hsound1.
  pose proof (createJob_isolated r s Hiso) as Hiso1.
  destruct Hiso as [Hlen _].
  destruct (createJob_shape r s) as [(file & kind & Hacc) | [_ [Hc | Hc]]];
    [| rewrite Hst in Hc; discriminate | rewrite Hst in Hc; discriminate].
  rewrite Hacc in *. unfold accepted in *. cbn [fst snd body] in *.
  set (id := fst (randomID s)) in *.
  set (s1 := {| models := models s; jobs := _ |}) in *.
  assert (Hheap : heap s1 !! l
                  = Some (new_JobStatus id (form_model_id r) (clock s))).
  { subst s1 l. cbn [heap]. rewrite lookup_app_r by lia.
    now rewrite Nat.sub_diag. }
  assert (Hjobs : jobs s1 !! id = Some l).
  { subst s1. cbn [jobs]. apply lookup_insert_eq. }
  assert (Hg : goroutines s1 !! l
               = Some {| g_js := l; g_file := file; g_kind := kind;
                         g_code := processJob l file kind |}).
  { subst s1 l. cbn [goroutines]. rewrite <- Hlen.
    rewrite lookup_app_r by lia. now rewrite Nat.sub_diag, Hlen. }
  exists id. split; [reflexivity |]. split; [exact Hjobs |].
  split; [eexists; split; [exact Hg | reflexivity] |]. split.
  - intros rs Hstep Hcancel.
    pose proof (serve_all_other_record rs s1 l _ Hsound1 Hiso1 Hheap
                  Hstep Hcancel) as Hrec.
    split; [exact Hrec |]. intros Hid. unfold getJob, deref.
    unfold loc in *. now rewrite Hid, Hrec.
  - destruct (processJob_head l file kind) as [rest Hhead].
    destruct (run_two_steps l s1 _ rest StateRunning Hg Hhead)
      as [Hj2 Hh2].
    eexists. unfold getJob, deref. unfold loc in *.
    rewrite Hj2, Hjobs, Hh2, list_lookup_alter_eq, Hheap.
    split; [reflexivity |]. repeat split.
Qed.

(** X9. A cancelled job reads CANCELLED until its task acts again. In
    every state the process reaches, [getJob] right after a cancel request
    shows the record the request was answered with: CANCELLED, with the time
    of the request, and the counters, timings and start time the record
    had. Whatever requests, steps of other tasks and clock ticks follow, as
    long as the task of the job takes no step, or when it had already
    finished, the record stays CANCELLED with the cancelled flag set and
    those counters, timings and start time, and [getJob] on the identifier
    (as long as no later upload has drawn the same one) shows it. A task
    that is still running is not covered: it overwrites the state at the
    end of its input. *)
Theorem cancelled_job_stays_cancelled_while_its_task_rests (src : nat -> Z)
    (now : Z) (b : Broker) (rs0 rs : list Request) (id : string) (l : loc)
    (j : JobStatus) :
  let s := serve_all rs0 (boot src now b) in
  let s1 := snd (cancelJob id s) in
  let s2 := serve_all rs s1 in
  jobs s !! id = Some l ->
  heap s !! l = Some j ->
  (exists shown,
     getJob id s1 = {| code := StatusOK; payload := JobPayload shown |}
     /\ body (fst (cancelJob id s)) = JobBody shown
     /\ state shown = "CANCELLED" /\ updated_at shown = clock s
     /\ totals shown = Totals j /\ timings shown = Timings j
     /\ started_at shown = StartedAt j)
  /\ (finished l s = true \/ existsb (steps_task l) rs = false ->
      exists j2,
        heap s2 !! l = Some j2
        /\ State j2 = StateCancelled /\ Cancelled j2 = true
        /\ Totals j2 = Totals j /\ Timings j2 = Timings j
        /\ StartedAt j2 = StartedAt j
        /\ (jobs s2 !! id = Some l ->
            exists shown,
              getJob id s2
              = {| code := StatusOK; payload := JobPayload shown |}
              /\ state shown = "CANCELLED" /\ totals shown = Totals j
              /\ timings shown = Timings j
              /\ started_at shown = StartedAt j)).
Proof.
  intros s s1 s2 Hid Hj.
  destruct (serve_all_sound rs0 _ (sound_boot src now b)) as [Hsound _].
  pose proof (serve_all_isolated rs0 _ (sound_boot src now b)
                (isolated_boot src now b)) as Hiso.
  fold s in Hsound, Hiso.
  assert (Hlt : (l < length (heap s))%nat) by (eapply lookup_lt_Some; eauto).
  split.
  - subst s1. rewrite (cancelJob_known id s l j Hid Hj).
    eexists. cbn [fst snd body]. unfold getJob. cbn [jobs heap with_heap].
    rewrite Hid. unfold deref. rewrite list_lookup_insert_eq by exact Hlt.
    repeat split.
  - intros Hrest.
    pose proof (proj1 (serve_sound (ReqEvent (EvCancel id)) s Hsound))
      as Hsound1.
    pose proof (serve_isolated (ReqEvent (EvCancel id)) s Hsound Hiso)
      as Hiso1.
    cbn [serve fire snd] in Hsound1, Hiso1. fold s1 in Hsound1, Hiso1.
    assert (Hfin1 : finished l s1 = finished l s).
    { unfold finished. subst s1.
      now rewrite (cancelJob_known id s l j Hid Hj). }
    rewrite <- Hfin1 in Hrest.
    assert (Hjid : JobID j = id).
    { destruct Hsound as [_ Hjobs _ _].
      destruct (Hjobs id l Hid) as (j' & Hj' & Hjid).
      unfold loc in *. rewrite Hj in Hj'. now injection Hj' as <-. }
    assert (Hrec1 : exists j1,
              heap s1 !! l = Some j1 /\ JobID j1 = id
              /\ State j1 = StateCancelled /\ Cancelled j1 = true
              /\ Totals j1 = Totals j /\ Timings j1 = Timings j
              /\ StartedAt j1 = StartedAt j).
    { subst s1. rewrite (cancelJob_known id s l j Hid Hj).
      cbn [snd heap with_heap]. eexists.
      split; [apply list_lookup_insert_eq; exact Hlt |].
      repeat split. exact Hjid. }
    clearbody s1. clear Hfin1 Hsound Hiso Hid Hj Hlt. subst s2.
    revert s1 Hsound1 Hiso1 Hrest Hrec1.
    induction rs as [| r rs IH]; intros s1 Hsound1 Hiso1 Hrest Hrec1.
    + destruct Hrec1 as (j1 & Hj1 & Hid1 & Hst & Hc & Ht & Hti & Hsa).
      exists j1. cbn [serve_all foldl].
      repeat (split; [assumption |]).
      intros Hid. exists (to_JSON j1). split.
      { unfold getJob, deref. unfold loc in *. now rewrite Hid, Hj1. }
      cbn [to_JSON state totals timings started_at]. rewrite Hst.
      repeat split; assumption.
    + cbn [serve_all foldl]. apply IH.
      * now apply serve_sound.
      * now apply serve_isolated.
      * destruct Hrest as [Hfin | Hno].
        -- left. unfold finished in *. unfold loc in *.
           destruct (goroutines s1 !! l) as [g |] eqn:Hg;
             [| discriminate Hfin].
           destruct (g_code g) as [u | X a k] eqn:Hc; [| discriminate Hfin].
           destruct (serve_pool r s1)
             as [-> | [(tid & g' & X & a & k & x & Hg' & Hc' & ->)
                      | (g' & js & f & kind & Hc' & ->)]].
           ++ now rewrite Hg, Hc.
           ++ rewrite list_lookup_insert_ne; [now rewrite Hg, Hc |].
              intros ->. unfold loc in *. rewrite Hg in Hg'.
              injection Hg' as <-. rewrite Hc in Hc'. discriminate.
           ++ rewrite (lookup_app_l_Some _ _ _ _ Hg). now rewrite Hc.
        -- right. cbn [existsb] in Hno.
           now apply orb_false_elim in Hno as [_ Hno].
      * destruct Hrec1 as (j1 & Hj1 & Hid1 & Hst & Hc & Ht & Hti & Hsa).
        destruct (steps_task l r) eqn:Hstep.
        { (* a step of the task itself: it has finished *)
          destruct r as [[tid | | |] | | | |]; try discriminate.
          cbn [steps_task] in Hstep. apply Nat.eqb_eq in Hstep. subst tid.
          destruct Hrest as [Hfin | Hno];
            [| cbn [existsb steps_task] in Hno;
               rewrite Nat.eqb_refl in Hno; discriminate].
          unfold finished in Hfin. unfold loc in *.
          destruct (goroutines s1 !! l) as [g |] eqn:Hg;
            [| discriminate Hfin].
          destruct (g_code g) as [u | X a k] eqn:Hcg; [| discriminate Hfin].
          cbn [serve fire snd].
          rewrite (step_goroutine_Ret l s1 g u Hg Hcg). cbn [snd].
          exists j1. repeat (split; [assumption |]). assumption. }
        destruct (cancels_job (JobID j1) r) eqn:Hcan.
        { (* another cancel request for the job *)
          destruct r as [[| | | id'] | | | |]; try discriminate.
          cbn [cancels_job] in Hcan. apply String.eqb_eq in Hcan.
          subst id'. cbn [serve fire snd].
          destruct (jobs s1 !! JobID j1) as [l' |] eqn:Hid';
            [| rewrite (cancelJob_unknown _ s1 Hid');
               exists j1; repeat (split; [assumption |]); assumption].
          destruct Hsound1 as [_ Hjobs _ _].
          destruct (Hjobs _ l' Hid') as (j' & Hj' & Hjid').
          rewrite (cancelJob_known _ s1 l' j' Hid' Hj').
          cbn [snd heap with_heap].
          destruct (decide (l' = l)) as [-> | Hne].
          - unfold loc in *. rewrite Hj1 in Hj'. injection Hj' as <-.
            eexists. split;
              [apply list_lookup_insert_eq; eapply lookup_lt_Some; eauto |].
            repeat split; assumption.
          - exists j1. rewrite list_lookup_insert_ne by exact Hne.
            repeat (split; [assumption |]). assumption. }
        exists j1. split;
          [now apply serve_other_record |].
        repeat (split; [assumption |]). assumption.
Qed.

End JobViews.

(* ===================================================================== *)
(** ** The task returns *)
(* ===================================================================== *)

Lemma actions_bind {R S} (p : Prog R) (f : R -> Prog S) (s : Sys) :
  actions (bind p f) s
  = (actions p s + actions (f (fst (exec p s))) (snd (exec p s)))%nat.
Proof.
  revert s. induction p as [r | X a k IH]; intros s; [reflexivity |].
  cbn [bind actions exec]. destruct (act_sem a s) as [x s1].
  now rewrite IH.
Qed.

Lemma actions_act {X} (a : Act X) (s : Sys) : actions (act a) s = 1%nat.
Proof. cbn. now destruct (act_sem a s). Qed.

Lemma actions_load {T} (f : Field T) js (s : Sys) :
  actions (load f js) s = 1%nat.
Proof. reflexivity. Qed.

Lemma actions_store {T} (f : Field T) js v (s : Sys) :
  actions (store f js v) s = 1%nat.
Proof. reflexivity. Qed.

Lemma actions_incr f js (s : Sys) : actions (incr f js) s = 2%nat.
Proof. reflexivity. Qed.

Section Returns.
Context {codecs : Codecs}.

Lemma actions_sendToDLQ js dt rowNum rawData errorMsg (s : Sys) :
  (2 <= actions (sendToDLQ js dt rowNum rawData errorMsg) s <= 4)%nat.
Proof.
  unfold sendToDLQ. rewrite ?actions_bind, ?actions_act, ?actions_load, ?actions_store.
  destruct (json_Marshal_RejectedRow _); cbn [actions].
  - rewrite ?actions_bind, ?actions_act, ?actions_load, ?actions_store. cbn [actions]. lia.
  - lia.
Qed.

(** A turn of the loop takes at least four and at most ten actions. *)
Lemma actions_row_loop js mt dt rl :
  forall rowNumber (s : Sys),
    (4 * length rl <= actions (row_loop js mt dt rl rowNumber) s
     <= 10 * length rl)%nat.
Proof.
  induction rl as [| r rl IH]; intros rowNumber s; [cbn; lia |].
  assert (Hfail : forall raw msg (s : Sys),
    (4 + 4 * length rl
     <= actions (incr FErrors js ;;
                 sendToDLQ js dt (int_incr rowNumber) raw msg ;;
                 row_loop js mt dt rl (int_incr rowNumber))%prog s
     <= 6 + 10 * length rl)%nat).
  { intros raw msg s'. rewrite !actions_bind, actions_incr.
    pose proof (actions_sendToDLQ js dt (int_incr rowNumber) raw msg
                  (snd (exec (incr FErrors js) s'))) as Hd.
    pose proof (IH (int_incr rowNumber)
                  (snd (exec (sendToDLQ js dt (int_incr rowNumber) raw msg)
                          (snd (exec (incr FErrors js) s'))))) as Hl.
    lia. }
  destruct r as [rec | rec err]; cbn [row_loop length].
  - rewrite actions_bind, actions_incr.
    destruct (json_Marshal_record rec) as [payload | e].
    + rewrite ?actions_bind, ?actions_act, ?actions_load, ?actions_store.
      destruct (fst (exec (act (kafka_WriteMessages mt _)) _)) as [e |].
      * match goal with
        | |- context [actions (incr FErrors js ;; sendToDLQ _ _ _ ?raw ?msg ;; _)%prog ?s'] =>
            pose proof (Hfail raw msg s')
        end. lia.
      * rewrite actions_bind, actions_incr.
        match goal with
        | |- context [actions (row_loop _ _ _ _ ?n) ?s'] =>
            pose proof (IH n s')
        end. lia.
    + match goal with
      | |- context [actions (incr FErrors js ;; sendToDLQ _ _ _ ?raw ?msg ;; _)%prog ?s'] =>
          pose proof (Hfail raw msg s')
      end. lia.
  - match goal with
    | |- context [actions (incr FErrors js ;; sendToDLQ _ _ _ ?raw ?msg ;; _)%prog ?s'] =>
        pose proof (Hfail raw msg s')
    end. lia.
Qed.

Lemma actions_resolve_state js (s : Sys) :
  (3 <= actions (resolve_state js) s <= 4)%nat.
Proof.
  unfold resolve_state. cbn [bind load act actions act_sem].
  destruct (0 <? get FErrors (deref (heap s) js));
    cbn [bind load store act actions act_sem];
    repeat match goal with
           | |- context [if ?c then _ else _] =>
               destruct c; cbn [bind load store act actions act_sem]
           end; lia.
Qed.

Lemma actions_finish_job js start (s : Sys) :
  (11 <= actions (finish_job js start) s <= 12)%nat.
Proof.
  unfold finish_job.
  rewrite ?actions_bind, ?actions_act, ?actions_load, ?actions_store.
  cbn [actions].
  match goal with
  | |- context [actions (resolve_state js) ?s'] =>
      pose proof (actions_resolve_state js s')
  end.
  lia.
Qed.

(** The number of actions of the task: twelve when the broker cannot be
    reached, and otherwise between 21 and 22 and four to ten more for every
    row the reader returns. *)
Lemma actions_processJob js f kind (s : Sys) :
  (12 <= actions (processJob js f kind) s
   <= 22 + 10 * length (csv_records (remaining f)))%nat.
Proof.
  unfold processJob, begin_job, fail_job.
  rewrite ?actions_bind, ?actions_act, ?actions_load, ?actions_store. cbn [actions].
  destruct (fst (exec (act kafka_Dial) _)) as [e |].
  - rewrite ?actions_bind, ?actions_act, ?actions_load, ?actions_store. lia.
  - rewrite ?actions_bind, ?actions_act, ?actions_load, ?actions_store.
    match goal with
    | |- context [actions (row_loop _ ?mt ?dt ?rl ?n) ?s'] =>
        pose proof (actions_row_loop js mt dt rl n s')
    end.
    match goal with
    | |- context [actions (finish_job _ ?st) ?s'] =>
        pose proof (actions_finish_job js st s')
    end.
    lia.
Qed.

(** X23. The task returns, after a number of actions that is linear in the
    number of rows: at least 12 and at most 22 + 10 * rows, whatever the
    input, the records and the broker do. So a goroutine that has just been
    started on [processJob] and is given that many steps, with nothing in
    between, has returned, and the process is in the state that the
    sequential run of [processJob] describes; any further step of it
    changes nothing. *)
Theorem task_returns_within_linear_steps (tid : nat) (g : Goroutine)
    (s : Sys) (n : nat) :
  goroutines s !! tid = Some g ->
  g_code g = processJob (g_js g) (g_file g) (g_kind g) ->
  (22 + 10 * length (csv_records (remaining (g_file g))) <= n)%nat ->
  (12 <= actions (g_code g) s
   <= 22 + 10 * length (csv_records (remaining (g_file g))))%nat
  /\ snd (run (repeat (EvStep tid) n) s)
     = with_goroutines (<[tid := with_code (Ret tt) g]> (goroutines s))
         (snd (exec (processJob (g_js g) (g_file g) (g_kind g)) s))
  /\ (forall m,
        snd (run (repeat (EvStep tid) m)
               (snd (run (repeat (EvStep tid) n) s)))
        = snd (run (repeat (EvStep tid) n) s)).
Proof.
  intros Hg Hc Hn.
  pose proof (actions_processJob (g_js g) (g_file g) (g_kind g) s) as Hb.
  assert (Hrun : snd (run (repeat (EvStep tid) n) s)
                 = with_goroutines
                     (<[tid := with_code (Ret tt) g]> (goroutines s))
                     (snd (exec (processJob (g_js g) (g_file g) (g_kind g))
                             s))).
  { apply run_task_to_its_end; [exact Hg | exact Hc | lia]. }
  split; [rewrite Hc; exact Hb |]. split; [exact Hrun |].
  intros m. rewrite Hrun.
  apply (run_finished_task tid (with_code (Ret tt) g)); [| reflexivity].
  cbn [goroutines with_goroutines]. apply list_lookup_insert_eq.
  eapply lookup_lt_Some; eauto.
Qed.

End Returns.

(* ===================================================================== *)
(** ** The statements of the last sections on concrete runs *)
(* ===================================================================== *)

(** The process of [Malformed.fresh] after the requests [rs], with
    [Sample.plain] and [Malformed.plain_decoders]. *)
Local Notation "'serving' rs" :=
  (serve_all (codecs := Sample.plain) (decoders := Malformed.plain_decoders)
     rs (boot (fun k => Z.of_nat k * 7) 1000 Sample.healthy))
  (at level 10, rs at level 9, only parsing).

Lemma state_changes_refresh_updated_at_witness :
  (about_to_store_state 0%nat 0%nat (serving Runs.picked_up) = true
   /\ exists n j',
        (n <= 2)%nat
        /\ heap (snd (run (codecs := Sample.plain)
                        (paced 0%nat (repeat 5%N (S (S n))))
                        (snd (step_goroutine 0%nat
                                (serving Runs.picked_up)))))
           !! 0%nat = Some j'
        /\ UpdatedAt j'
           = clock (serving Runs.picked_up)
             + elapsed (removelast (repeat 5%N (S (S n)))))
  /\ (about_to_store_counter 0%nat 0%nat (serving Runs.counting) = true
      /\ exists j j',
           heap (serving Runs.counting) !! 0%nat = Some j
           /\ heap (snd (run (codecs := Sample.plain)
                           (EvStep 0 :: paced 0%nat [5%N; 5%N])
                           (serving Runs.counting)))
              !! 0%nat = Some j'
           /\ UpdatedAt j' = UpdatedAt j
           /\ clock (snd (run (codecs := Sample.plain)
                            (EvStep 0 :: paced 0%nat [5%N; 5%N])
                            (serving Runs.counting)))
              = clock (serving Runs.counting) + elapsed [5%N; 5%N]).
Proof.
  split.
  - assert (Hnext : about_to_store_state 0%nat 0%nat (serving Runs.picked_up)
                    = true) by (vm_compute; reflexivity).
    split; [exact Hnext |].
    destruct (state_changes_refresh_updated_at (codecs := Sample.plain)
                (decoders := Malformed.plain_decoders)
                (fun k => Z.of_nat k * 7) 1000 Sample.healthy Runs.picked_up)
      as (Hstate & _).
    destruct (Hstate 0%nat 0%nat Hnext) as (n & j1 & Hn & _ & Hds).
    pose proof (Hds (repeat 5%N (S (S n))) (repeat_length _ _)) as Hrun.
    cbv zeta in Hrun.
    destruct Hrun as (j' & Hj' & _ & _ & Hup & _).
    exists n, j'. split; [exact Hn |]. split; [exact Hj' | exact Hup].
  - assert (Hnext : about_to_store_counter 0%nat 0%nat (serving Runs.counting)
                    = true) by (vm_compute; reflexivity).
    split; [exact Hnext |].
    assert (Hsome : is_Some (heap (serving Runs.counting) !! 0%nat))
      by (vm_compute; eexists; reflexivity).
    destruct Hsome as [j Hj].
    destruct (state_changes_refresh_updated_at (codecs := Sample.plain)
                (decoders := Malformed.plain_decoders)
                (fun k => Z.of_nat k * 7) 1000 Sample.healthy Runs.counting)
      as (_ & _ & Hcount & _).
    pose proof (Hcount 0%nat 0%nat j [5%N; 5%N] Hnext Hj) as Hrun.
    cbv zeta in Hrun.
    destruct Hrun as (j' & Hj' & Hup & Hck); [vm_compute; reflexivity |].
    exists j, j'. split; [exact Hj |]. split; [exact Hj' |].
    split; [exact Hup | exact Hck].
Defined.

Lemma accepted_job_is_pending_until_its_task_acts_witness :
  exists id,
    body (fst (createJob (codecs := Sample.plain) Sample.two_rows_upload
                 (serving Runs.model_only)))
    = JobIDBody id
    /\ jobs (snd (createJob (codecs := Sample.plain) Sample.two_rows_upload
                    (serving Runs.model_only))) !! id
       = Some (length (heap (serving Runs.model_only))).
Proof.
  destruct (accepted_job_is_pending_until_its_task_acts
              (codecs := Sample.plain)
              (decoders := Malformed.plain_decoders)
              (fun k => Z.of_nat k * 7) 1000 Sample.healthy
              Runs.model_only Sample.two_rows_upload
              ltac:(vm_compute; reflexivity))
    as (id & Hbody & Hjobs & _).
  exists id. split; [exact Hbody | exact Hjobs].
Defined.

Lemma cancelled_job_stays_cancelled_while_its_task_rests_witness :
  finished 0%nat (serving Runs.done) = true
  /\ exists j2,
       heap (serve_all (codecs := Sample.plain)
               (decoders := Malformed.plain_decoders) Runs.afterwards
               (snd (cancelJob "ahov29gn" (serving Runs.done))))
       !! 0%nat = Some j2
       /\ State j2 = StateCancelled /\ Cancelled j2 = true.
Proof.
  assert (Hfin : finished 0%nat (serving Runs.done) = true)
    by (vm_compute; reflexivity).
  split; [exact Hfin |].
  assert (Hsome : is_Some (heap (serving Runs.done) !! 0%nat))
    by (vm_compute; eexists; reflexivity).
  destruct Hsome as [j Hj].
  destruct (cancelled_job_stays_cancelled_while_its_task_rests
              (codecs := Sample.plain)
              (decoders := Malformed.plain_decoders)
              (fun k => Z.of_nat k * 7) 1000 Sample.healthy
              Runs.done Runs.afterwards "ahov29gn" 0%nat j
              ltac:(vm_compute; reflexivity) Hj)
    as (_ & Hstay).
  destruct (Hstay (or_introl Hfin))
    as (j2 & Hj2 & Hst & Hc & _).
  exists j2. split; [exact Hj2 |]. split; [exact Hst | exact Hc].
Defined.

Lemma task_returns_within_linear_steps_witness :
  goroutines Malformed.two_rows_accepted !! 0%nat
  = Some Malformed.two_rows_task
  /\ snd (run (codecs := Sample.plain) (repeat (EvStep 0) 60)
            Malformed.two_rows_accepted)
     = with_goroutines
         (<[0%nat := with_code (Ret tt) Malformed.two_rows_task]>
            (goroutines Malformed.two_rows_accepted))
         (snd (exec (processJob (codecs := Sample.plain)
                       (g_js Malformed.two_rows_task)
                       (g_file Malformed.two_rows_task)
                       (g_kind Malformed.two_rows_task))
                 Malformed.two_rows_accepted)).
Proof.
  assert (Hg : goroutines Malformed.two_rows_accepted !! 0%nat
               = Some Malformed.two_rows_task).
  { unfold Malformed.two_rows_accepted, accepted.
    cbn [snd goroutines Sample.server init_Sys heap length app].
    reflexivity. }
  split; [exact Hg |].
  assert (Hn : (22 + 10 * length (csv_records (Codecs := Sample.plain)
                                    (remaining
                                       (g_file Malformed.two_rows_task)))
                <= 60)%nat).
  { apply Nat.leb_le. vm_compute. reflexivity. }
  exact (proj1 (proj2 (task_returns_within_linear_steps
                         (codecs := Sample.plain) 0%nat
                         Malformed.two_rows_task
                         Malformed.two_rows_accepted 60 Hg eq_refl Hn))).
Defined.
